(** * Handwriting board: drawing engine

    A shallow embedding of the whiteboard's core (view transform, stroke
    resampling, eraser hit-testing, snapshot history, document load and
    layer operations) together with the properties its specification
    states about them.

    Numbers.  The program computes with JavaScript numbers.  They are
    idealised here as the real numbers of the Standard Library: [Math.hypot]
    is the Euclidean norm, [Math.floor] is [Zfloor], and a comparison is
    decided with [Rlt_dec] and friends.  Rounding, NaN and the infinities
    are outside this model; where the program would compute with an
    [undefined] operand (and so obtain NaN) the model says so explicitly.
    One remark on the wheel zoom is computed in binary64 itself, with the
    kernel's floating-point numbers (module [Binary64]).

    Text.  A string of the program is held as the bytes of its UTF-8
    encoding, which is how a string literal of this file is read.  Two
    strings are equal exactly when their encodings are, the line feed is
    the byte 10 and no part of another character, and the characters that
    [trim] strips are recognised by their encodings. *)

From Stdlib Require Import String Ascii DecimalString.
From Stdlib Require Import Reals Lra Lia ZArith List Bool Arith.
From Stdlib Require Import Zfloor.
From Stdlib Require PrimFloat.
Import ListNotations.

Open Scope R_scope.

(** ** Numbers *)

Definition Rltb (a b : R) : bool := if Rlt_dec a b then true else false.
Definition Rgtb (a b : R) : bool := if Rgt_dec a b then true else false.
Definition Reqb (a b : R) : bool := if Req_dec_T a b then true else false.

(** [Math.hypot(a, b)] *)
Definition hypot (a b : R) : R := sqrt (a * a + b * b).

(** [v || d] on a number: zero is falsy. *)
Definition num_or (v d : R) : R := if Reqb v 0 then d else v.

(** [v || d] on an optional number: [undefined] and zero are falsy. *)
Definition opt_or (v : option R) (d : R) : R :=
  match v with
  | Some r => num_or r d
  | None => d
  end.

(** ** Data model (types.ts) *)

Record Point := mkPoint {
  pt_x : R;
  pt_y : R;
  pt_pressure : option R
}.

Record StrokeStyle := mkStyle {
  st_color : string;
  st_size : R;
  st_isHighlighter : option bool
}.

Inductive ElementType := stroke | rectangle | circle | line | text.

Record CanvasElement := mkElement {
  el_id : string;
  el_type : ElementType;
  el_layerId : string;
  el_points : option (list Point);
  el_x : option R;
  el_y : option R;
  el_width : option R;
  el_height : option R;
  el_text : option string;
  el_style : StrokeStyle
}.

Record Layer := mkLayer {
  l_id : string;
  l_name : string;
  l_visible : bool;
  l_locked : bool
}.

Inductive ToolType :=
  Tpen | Teraser | Trectangle | Tcircle | Tline | Ttext | Tmove.

Record Pan := mkPan { pan_x : R; pan_y : R }.

Record AppState := mkState {
  elements : list CanvasElement;
  layers : list Layer;
  activeLayerId : string;
  selectedTool : ToolType;
  currentColor : string;
  currentSize : R;
  zoom : R;
  pan : Pan;
  history : list (list CanvasElement);
  historyStep : nat
}.

(** The state [useState] starts from. *)
Definition defaultLayer : Layer := mkLayer "layer-1" "Layer 1" true false.

Definition initialState : AppState :=
  mkState [] [defaultLayer] "layer-1" Tpen "#000000" 4 1 (mkPan 0 0) [[]] 0.

(** Functional record updates, one per group of fields a handler writes. *)
Definition set_view (s : AppState) (z : R) (p : Pan) : AppState :=
  mkState (elements s) (layers s) (activeLayerId s) (selectedTool s)
          (currentColor s) (currentSize s) z p (history s) (historyStep s).

Definition set_elements (s : AppState) (els : list CanvasElement) : AppState :=
  mkState els (layers s) (activeLayerId s) (selectedTool s)
          (currentColor s) (currentSize s) (zoom s) (pan s)
          (history s) (historyStep s).

Definition set_history (s : AppState) (els : list CanvasElement)
    (h : list (list CanvasElement)) (step : nat) : AppState :=
  mkState els (layers s) (activeLayerId s) (selectedTool s)
          (currentColor s) (currentSize s) (zoom s) (pan s) h step.

Definition set_layers (s : AppState) (ls : list Layer) (act : string)
  : AppState :=
  mkState (elements s) ls act (selectedTool s)
          (currentColor s) (currentSize s) (zoom s) (pan s)
          (history s) (historyStep s).

(** ** View transform *)

(** What [getBoundingClientRect] tells of the canvas: its top-left corner. *)
Record DOMRect := mkRect { rect_left : R; rect_top : R }.

(** [canvas] is [canvasRef.current]: [None] before the canvas is mounted. *)
Definition screenToWorld (canvas : option DOMRect) (s : AppState)
    (clientX clientY : R) : Point :=
  match canvas with
  | None => mkPoint 0 0 None
  | Some rect =>
      mkPoint ((clientX - rect_left rect - pan_x (pan s)) / zoom s)
              ((clientY - rect_top rect - pan_y (pan s)) / zoom s)
              None
  end.

Definition worldToScreen (s : AppState) (wx wy : R) : R * R :=
  (wx * zoom s + pan_x (pan s), wy * zoom s + pan_y (pan s)).

Record WheelEvent := mkWheel {
  wh_ctrlKey : bool;
  wh_metaKey : bool;
  wh_deltaY : R;
  wh_clientX : R;
  wh_clientY : R
}.

Definition clampZoom (z : R) : R := Rmin (Rmax (1/10) z) 5.

(** [rect] is the canvas rectangle, which [handleWheel] asserts to exist. *)
Definition handleWheel (rect : DOMRect) (s : AppState) (e : WheelEvent)
  : AppState :=
  if wh_ctrlKey e || wh_metaKey e then
    let zoomIntensity := 1/10 in
    let direction := if Rgtb (wh_deltaY e) 0 then -1 else 1 in
    let newZoom := clampZoom (zoom s + direction * zoomIntensity) in
    let pointerX := wh_clientX e - rect_left rect in
    let pointerY := wh_clientY e - rect_top rect in
    let worldX := (pointerX - pan_x (pan s)) / zoom s in
    let worldY := (pointerY - pan_y (pan s)) / zoom s in
    let newPanX := pointerX - worldX * newZoom in
    let newPanY := pointerY - worldY * newZoom in
    set_view s newZoom (mkPan newPanX newPanY)
  else s.

(** [innerWidth], [innerHeight]: the window's size. *)
Definition changeZoom (innerWidth innerHeight : R) (s : AppState) (delta : R)
  : AppState :=
  let newZoom := clampZoom (zoom s + delta) in
  let centerX := innerWidth / 2 in
  let centerY := innerHeight / 2 in
  let worldX := (centerX - pan_x (pan s)) / zoom s in
  let worldY := (centerY - pan_y (pan s)) / zoom s in
  let newPanX := centerX - worldX * newZoom in
  let newPanY := centerY - worldY * newZoom in
  set_view s newZoom (mkPan newPanX newPanY).

(** ** The wheel zoom in binary64 *)

(** The numbers of the program are binary64.  This module repeats
    [screenToWorld] and [handleWheel] over the kernel's binary64 numbers,
    operation for operation, so that what the program computes at a given
    input can be evaluated. *)
Module Binary64.
Import PrimFloat.

Record Pan := mkPan { pan_x : float; pan_y : float }.

Record View := mkView { zoom : float; pan : Pan }.

Record DOMRect := mkRect { rect_left : float; rect_top : float }.

Record WheelEvent := mkWheel {
  wh_ctrlKey : bool;
  wh_metaKey : bool;
  wh_deltaY : float;
  wh_clientX : float;
  wh_clientY : float
}.

(** [Math.max] and [Math.min]: NaN when an operand is NaN.  (Of two zeros
    of opposite sign the first operand is returned here; no call below has
    two zero operands.) *)
Definition max (a b : float) : float :=
  if is_nan a || is_nan b then nan else if ltb a b then b else a.

Definition min (a b : float) : float :=
  if is_nan a || is_nan b then nan else if ltb b a then b else a.

Definition screenToWorld (rect : DOMRect) (v : View)
    (clientX clientY : float) : float * float :=
  ((clientX - rect_left rect - pan_x (pan v)) / zoom v,
   (clientY - rect_top rect - pan_y (pan v)) / zoom v)%float.

(** The literal [0.1] is the binary64 number nearest to one tenth. *)
Definition handleWheel (rect : DOMRect) (v : View) (e : WheelEvent) : View :=
  if wh_ctrlKey e || wh_metaKey e then
    let zoomIntensity := 0x1.999999999999ap-4%float in
    let direction := if ltb 0 (wh_deltaY e) then (-1)%float else 1%float in
    let newZoom :=
      min (max 0x1.999999999999ap-4 (zoom v + direction * zoomIntensity))
          5 in
    let pointerX := (wh_clientX e - rect_left rect)%float in
    let pointerY := (wh_clientY e - rect_top rect)%float in
    let worldX := ((pointerX - pan_x (pan v)) / zoom v)%float in
    let worldY := ((pointerY - pan_y (pan v)) / zoom v)%float in
    let newPanX := (pointerX - worldX * newZoom)%float in
    let newPanY := (pointerY - worldY * newZoom)%float in
    mkView newZoom (mkPan newPanX newPanY)
  else v.








End Binary64.

(** ** Geometry kernel (utils/geometry.ts) *)

Definition distance (a b : Point) : R :=
  hypot (pt_x a - pt_x b) (pt_y a - pt_y b).

Definition distanceToSegment (p v w : Point) : R :=
  let l2 := (pt_x v - pt_x w) ^ 2 + (pt_y v - pt_y w) ^ 2 in
  if Reqb l2 0 then distance p v
  else
    let t := ((pt_x p - pt_x v) * (pt_x w - pt_x v)
              + (pt_y p - pt_y v) * (pt_y w - pt_y v)) / l2 in
    let t := Rmax 0 (Rmin 1 t) in
    distance p (mkPoint (pt_x v + t * (pt_x w - pt_x v))
                        (pt_y v + t * (pt_y w - pt_y v)) None).

(** *** Stroke resampling

    [getSplinePoints] reads the coordinates of the points it is given and
    puts into its result either one of those very objects or a freshly built
    object.  To keep the two apart the function is written over any type
    [cell] of point objects: [val] reads an object, [fresh] builds a new
    one.  At [cell := Point] it is the function on plain values. *)

(** The object literal pushed at step [t] of [steps] between [p0] and [p1]. *)
Definition interpolant (p0 p1 : Point) (t steps : Z) : Point :=
  let ratio := IZR t / IZR steps in
  mkPoint (pt_x p0 + (pt_x p1 - pt_x p0) * ratio)
          (pt_y p0 + (pt_y p1 - pt_y p0) * ratio)
          (Some (opt_or (pt_pressure p0) (1/2)
                 + (opt_or (pt_pressure p1) (1/2)
                    - opt_or (pt_pressure p0) (1/2)) * ratio)).

(** [Math.floor(distance(p0, p1) / 2) + 1] *)
Definition stepsBetween (p0 p1 : Point) : Z :=
  (Zfloor (distance p0 p1 / 2) + 1)%Z.

Section Resample.
Context {cell : Type}.
Variable val : cell -> Point.
Variable fresh : Point -> cell.

(** [for (let t = ...; t < steps; t++) newPoints.push({...})], with [n]
    the number of values of [t] still to visit. *)
Fixpoint pushInterpolants (n : nat) (t steps : Z) (p0 p1 : Point)
    (newPoints : list cell) : list cell :=
  match n with
  | O => newPoints
  | S n' =>
      pushInterpolants n' (t + 1)%Z steps p0 p1
        (newPoints ++ [fresh (interpolant p0 p1 t steps)])
  end.

(** One turn of the outer loop, at index [i]. *)
Definition splineStep (points : list cell) (i : nat)
    (newPoints : list cell) : list cell :=
  match nth_error points i, nth_error points (i + 1) with
  | Some c0, Some c1 =>
      let p0 := val c0 in
      let p1 := val c1 in
      let steps := stepsBetween p0 p1 in
      pushInterpolants (Z.to_nat (steps - 1)) 1%Z steps p0 p1 newPoints
        ++ [c1]
  | _, _ => newPoints (* not reached: i + 1 < length points *)
  end.

(** [for (let i = ...; i < points.length - 2; i++)], with [n] the number
    of values of [i] still to visit. *)
Fixpoint splineLoop (n : nat) (i : nat) (points newPoints : list cell)
  : list cell :=
  match n with
  | O => newPoints
  | S n' => splineLoop n' (i + 1)%nat points (splineStep points i newPoints)
  end.

Definition getSplinePointsOn (points : list cell) : list cell :=
  if (length points <? 3)%nat then points
  else
    match points with
    | [] => points (* not reached *)
    | first :: _ =>
        let newPoints := [first] in
        let newPoints :=
          splineLoop (length points - 3) 1%nat points newPoints in
        match nth_error points (length points - 1) with
        | Some lastp => newPoints ++ [lastp]
        | None => newPoints (* not reached *)
        end
    end.
End Resample.

Definition getSplinePoints (points : list Point) : list Point :=
  getSplinePointsOn (fun p => p) (fun p => p) points.

(** Point objects with their origin: the [i]-th object of the input array,
    or an object built during the call. *)
Inductive Origin := Input (i : nat) | Built.

Definition PointObj : Type := Origin * Point.

Fixpoint asObjectsFrom (i : nat) (points : list Point) : list PointObj :=
  match points with
  | [] => []
  | p :: rest => (Input i, p) :: asObjectsFrom (S i) rest
  end.

Definition asObjects (points : list Point) : list PointObj :=
  asObjectsFrom 0 points.

Definition getSplineObjects (points : list Point) : list PointObj :=
  getSplinePointsOn snd (fun p => (Built, p)) (asObjects points).

(** ** Eraser engine (the eraser branch of handlePointerMove) *)

(** The callback of [state.elements.filter]: [true] keeps the element.
    A populated field is [Some]; arithmetic on a missing one gives NaN in
    the program, and a comparison with NaN is false. *)
Definition eraserKeeps (s : AppState) (pos : Point) (el : CanvasElement)
  : bool :=
  let eraserRadius := currentSize s * 2 in
  if negb (String.eqb (el_layerId el) (activeLayerId s)) then true
  else
    match el_type el, el_points el with
    | stroke, Some pts =>
        negb (existsb
                (fun p => Rltb (hypot (pt_x p - pt_x pos) (pt_y p - pt_y pos))
                               eraserRadius)
                pts)
    | _, _ =>
    match el_type el, el_x el with
    | (rectangle | circle), Some ex =>
        match el_y el, el_width el, el_height el with
        | Some ey, Some w, Some h =>
            let cx := ex + w / 2 in
            let cy := ey + h / 2 in
            Rgtb (hypot (cx - pt_x pos) (cy - pt_y pos))
                 (Rmax (Rabs w) (Rabs h) / 2 + eraserRadius)
        | _, _, _ => false (* NaN > ... *)
        end
    | _, _ =>
    match el_type el, el_x el, el_width el, el_height el with
    | line, Some ex, Some w, Some h =>
        match el_y el with
        | Some ey =>
            let dist :=
              distanceToSegment pos (mkPoint ex ey None)
                                (mkPoint (ex + w) (ey + h) None) in
            Rgtb dist (Rmax 5 (currentSize s) + 5)
        | None => false (* NaN > ... *)
        end
    | _, _, _, _ =>
    match el_type el, el_x el with
    | text, Some ex =>
        match el_y el with
        | Some ey => Rgtb (hypot (ex - pt_x pos) (ey - pt_y pos)) 20
        | None => false (* NaN > 20 *)
        end
    | _, _ => true
    end end end end.

Definition elementsToKeep (s : AppState) (pos : Point)
  : list CanvasElement :=
  filter (eraserKeeps s pos) (elements s).

(** The eraser's effect on the state at one pointer-move sample. *)
Definition eraseAt (s : AppState) (pos : Point) : AppState :=
  let keep := elementsToKeep s pos in
  if negb (length keep =? length (elements s))%nat
  then set_elements s keep
  else s.

(** ** History manager *)

Definition historyLimit : nat := 50.

(** [arr.slice(0, n)] *)
Definition slice0 {A} (n : nat) (arr : list A) : list A := firstn n arr.

(** [arr.shift()] as it leaves the array. *)
Definition shift {A} (arr : list A) : list A := tl arr.

Definition saveHistory (newElements : list CanvasElement) (prev : AppState)
  : AppState :=
  let newHistory := slice0 (historyStep prev + 1) (history prev) in
  let newHistory := newHistory ++ [newElements] in
  let newHistory :=
    if (historyLimit <? length newHistory)%nat then shift newHistory
    else newHistory in
  set_history prev newElements newHistory (length newHistory - 1).

(** [history[i]]; an index past the end gives [undefined] in the program,
    which the invariant [historyStep < history.length] excludes; the model
    reads the empty snapshot there. *)
Definition snapshotAt (h : list (list CanvasElement)) (i : nat)
  : list CanvasElement :=
  nth i h [].

Definition undo (s : AppState) : AppState :=
  if (0 <? historyStep s)%nat then
    set_history s (snapshotAt (history s) (historyStep s - 1))
                (history s) (historyStep s - 1)
  else s.

Definition redo (s : AppState) : AppState :=
  if (Z.of_nat (historyStep s) <? Z.of_nat (length (history s)) - 1)%Z then
    set_history s (snapshotAt (history s) (historyStep s + 1))
                (history s) (historyStep s + 1)
  else s.

(** Committing a sequence of snapshots, oldest first. *)
Definition commitAll (snaps : list (list CanvasElement)) (s : AppState)
  : AppState :=
  fold_left (fun st snap => saveHistory snap st) snaps s.

(** ** Pointer gestures *)

Record TextInput := mkTextInput {
  ti_x : R;
  ti_y : R;
  ti_value : string
}.

(** The component's other hooks: [isDrawing], [currentPoints], [dragStart],
    [textInput] and the ref [lastPointerPosRef]. *)
Record Interaction := mkUI {
  isDrawing : bool;
  currentPoints : list Point;
  dragStart : option Point;
  textInput : option TextInput;
  lastPointerPos : option (R * R)
}.

Definition idle : Interaction := mkUI false [] None None None.

Record PointerEvent := mkPointer {
  pe_clientX : R;
  pe_clientY : R;
  pe_pressure : R
}.

Definition getPointerPos (canvas : option DOMRect) (s : AppState)
    (e : PointerEvent) : Point :=
  let worldPos := screenToWorld canvas s (pe_clientX e) (pe_clientY e) in
  mkPoint (pt_x worldPos) (pt_y worldPos) (Some (num_or (pe_pressure e) (1/2))).

Definition getActiveLayer (s : AppState) : option Layer :=
  find (fun l => String.eqb (l_id l) (activeLayerId s)) (layers s).

(** What [String.prototype.trim] strips is the white space and the line
    terminators of the language: U+0009 to U+000D, U+0020, U+00A0, U+1680,
    U+2000 to U+200A, U+2028, U+2029, U+202F, U+205F, U+3000 and U+FEFF.
    Those of one byte in UTF-8: U+0009 to U+000D and U+0020. *)
Definition isSpace (c : ascii) : bool :=
  let n := nat_of_ascii c in
  ((9 <=? n) && (n <=? 13) || (n =? 32))%nat.

(** The one of two bytes: U+00A0, as C2 A0. *)
Definition isSpace2 (a b : ascii) : bool :=
  ((nat_of_ascii a =? 194) && (nat_of_ascii b =? 160))%nat.

(** Those of three bytes: U+1680 (E1 9A 80), U+2000 to U+200A (E2 80 80 to
    E2 80 8A), U+2028, U+2029 and U+202F (E2 80 A8, A9 and AF), U+205F
    (E2 81 9F), U+3000 (E3 80 80) and U+FEFF (EF BB BF). *)
Definition isSpace3 (a b c : ascii) : bool :=
  let x := nat_of_ascii a in
  let y := nat_of_ascii b in
  let z := nat_of_ascii c in
  ((x =? 225) && (y =? 154) && (z =? 128)
   || (x =? 226) && (y =? 128)
      && ((128 <=? z) && (z <=? 138) || (z =? 168) || (z =? 169)
          || (z =? 175))
   || (x =? 226) && (y =? 129) && (z =? 159)
   || (x =? 227) && (y =? 128) && (z =? 128)
   || (x =? 239) && (y =? 187) && (z =? 191))%nat.

(** [value.trim() === '']: the value is made of such characters only. *)
Fixpoint trimsToEmpty (value : string) : bool :=
  match value with
  | EmptyString => true
  | String a rest1 =>
      if isSpace a then trimsToEmpty rest1
      else
        match rest1 with
        | EmptyString => false
        | String b rest2 =>
            if isSpace2 a b then trimsToEmpty rest2
            else
              match rest2 with
              | EmptyString => false
              | String c rest3 =>
                  if isSpace3 a b c then trimsToEmpty rest3 else false
              end
        end
  end.

Definition currentStyle (s : AppState) : StrokeStyle :=
  mkStyle (currentColor s) (currentSize s) None.

(** [newId] stands for the result of [generateId()]. *)
Definition handleTextSubmit (newId : string) (w : AppState * Interaction)
  : AppState * Interaction :=
  let (s, ui) := w in
  let s' :=
    match textInput ui with
    | Some ti =>
        if negb (trimsToEmpty (ti_value ti)) then
          let newElement :=
            mkElement newId text (activeLayerId s) None
                      (Some (ti_x ti)) (Some (ti_y ti)) None None
                      (Some (ti_value ti)) (currentStyle s) in
          saveHistory (elements s ++ [newElement]) s
        else s
    | None => s
    end in
  (s', mkUI (isDrawing ui) (currentPoints ui) (dragStart ui) None
            (lastPointerPos ui)).

Definition handlePointerDown (canvas : option DOMRect) (newId : string)
    (w : AppState * Interaction) (e : PointerEvent)
  : AppState * Interaction :=
  let (s, ui) := w in
  match selectedTool s with
  | Tmove =>
      (s, mkUI true (currentPoints ui) (dragStart ui) (textInput ui)
               (Some (pe_clientX e, pe_clientY e)))
  | tool =>
      match getActiveLayer s with
      | None => w
      | Some layer =>
          if l_locked layer then w
          else
            let pos := getPointerPos canvas s e in
            match tool with
            | Ttext =>
                let (s1, ui1) :=
                  match textInput ui with
                  | Some _ => handleTextSubmit newId w
                  | None => w
                  end in
                (s1, mkUI (isDrawing ui1) (currentPoints ui1) (dragStart ui1)
                          (Some (mkTextInput (pt_x pos) (pt_y pos) ""))
                          (lastPointerPos ui1))
            | _ =>
                (s, mkUI true [pos] (Some pos) (textInput ui)
                         (lastPointerPos ui))
            end
      end
  end.

Definition handlePointerMove (canvas : option DOMRect)
    (w : AppState * Interaction) (e : PointerEvent)
  : AppState * Interaction :=
  let (s, ui) := w in
  if negb (isDrawing ui) then w
  else
    match selectedTool s, lastPointerPos ui with
    | Tmove, Some (lx, ly) =>
        let dx := pe_clientX e - lx in
        let dy := pe_clientY e - ly in
        (set_view s (zoom s)
                  (mkPan (pan_x (pan s) + dx) (pan_y (pan s) + dy)),
         mkUI (isDrawing ui) (currentPoints ui) (dragStart ui) (textInput ui)
              (Some (pe_clientX e, pe_clientY e)))
    | tool, _ =>
        let pos := getPointerPos canvas s e in
        match tool with
        | Teraser =>
            (eraseAt s pos,
             mkUI (isDrawing ui) [pos] (dragStart ui) (textInput ui)
                  (lastPointerPos ui))
        | _ =>
            (s, mkUI (isDrawing ui) (currentPoints ui ++ [pos]) (dragStart ui)
                     (textInput ui) (lastPointerPos ui))
        end
    end.

(** The element type a shape tool draws. *)
Definition shapeOfTool (t : ToolType) : option ElementType :=
  match t with
  | Trectangle => Some rectangle
  | Tcircle => Some circle
  | Tline => Some line
  | _ => None
  end.

Definition handlePointerUp (canvas : option DOMRect) (newId : string)
    (w : AppState * Interaction) (e : PointerEvent)
  : AppState * Interaction :=
  let (s, ui) := w in
  if negb (isDrawing ui) then w
  else
    let ui1 := mkUI false (currentPoints ui) (dragStart ui) (textInput ui)
                    None in
    match selectedTool s with
    | Tmove => (s, ui1)
    | tool =>
        match getActiveLayer s with
        | None => (s, ui1)
        | Some layer =>
            if l_locked layer then (s, ui1)
            else
              let endPos := getPointerPos canvas s e in
              let s' :=
                match tool with
                | Tpen =>
                    let finalPoints := getSplinePoints (currentPoints ui) in
                    let newElement :=
                      mkElement newId stroke (l_id layer) (Some finalPoints)
                                None None None None None (currentStyle s) in
                    saveHistory (elements s ++ [newElement]) s
                | Teraser => saveHistory (elements s) s
                | _ =>
                    match shapeOfTool tool, dragStart ui with
                    | Some ty, Some start =>
                        let wd := pt_x endPos - pt_x start in
                        let ht := pt_y endPos - pt_y start in
                        if Rgtb (Rabs wd) 5 || Rgtb (Rabs ht) 5 then
                          let newElement :=
                            mkElement newId ty (l_id layer) None
                                      (Some (pt_x start)) (Some (pt_y start))
                                      (Some wd) (Some ht) None
                                      (currentStyle s) in
                          saveHistory (elements s ++ [newElement]) s
                        else s
                    | _, _ => s
                    end
                end in
              (s', mkUI false [] None (textInput ui1) None)
        end
    end.

(** ** Loading a document (handleFileChange) *)

(** A field of the parsed document that the program expects to be an array:
    missing (or otherwise falsy), present but not an array, or an array.
    The entries of an array are taken at the type the program casts them
    to. *)
Inductive JsField (A : Type) :=
| FieldMissing
| FieldNotArray
| FieldArray (items : list A).
Arguments FieldMissing {A}.
Arguments FieldNotArray {A}.
Arguments FieldArray {A} items.

Record ProjectData := mkData {
  data_elements : JsField CanvasElement;
  data_layers : JsField Layer
}.

(** What the file reader hands to [onload]: the empty text (falsy, and no
    JSON text either); a non-empty text that [JSON.parse] rejects, or that
    parses to [null], whose fields cannot be read (both end in the [catch]
    branch); or a text that parses to a value whose fields can be read. *)
Inductive FileText :=
| EmptyText
| UnparsableText
| JsonText (data : ProjectData).

Definition isMalformedJson (t : FileText) : bool :=
  match t with
  | EmptyText | UnparsableText => true
  | JsonText _ => false
  end.

Inductive Alert := InvalidProjectFormat | FailedToLoad.

(** The [reader.onload] callback: the new state and the alert shown. *)
Definition onFileRead (s : AppState) (t : FileText)
  : AppState * option Alert :=
  match t with
  | EmptyText => (s, None)
  | UnparsableText => (s, Some FailedToLoad)
  | JsonText data =>
      match data_elements data with
      | FieldArray els =>
          let newLayers :=
            match data_layers data with
            | FieldArray (l :: ls) => l :: ls
            | _ => [defaultLayer]
            end in
          let newActiveLayerId :=
            match newLayers with
            | l :: _ => l_id l
            | [] => ""%string (* not reached *)
            end in
          (mkState els newLayers newActiveLayerId (selectedTool s)
                   (currentColor s) (currentSize s) 1 (mkPan 0 0) [els] 0%nat,
           None)
      | _ => (s, Some InvalidProjectFormat)
      end
  end.

(** [file] is the chosen file's text, if a file was chosen; [confirmed] is
    the user's answer to the confirmation dialog, asked only when the canvas
    is not empty. *)
Definition handleFileChange (s : AppState) (file : option FileText)
    (confirmed : bool) : AppState * option Alert :=
  match file with
  | None => (s, None)
  | Some t =>
      if (0 <? length (elements s))%nat && negb confirmed then (s, None)
      else onFileRead s t
  end.

(** ** Layer operations *)

Definition natToString (n : nat) : string :=
  NilEmpty.string_of_uint (Nat.to_uint n).

Definition addLayer (newId : string) (s : AppState) : AppState :=
  let newLayer :=
    mkLayer newId ("Layer " ++ natToString (length (layers s) + 1))%string
            true false in
  set_layers s (layers s ++ [newLayer]) (l_id newLayer).

Definition onSetActive (id : string) (s : AppState) : AppState :=
  set_layers s (layers s) id.

(** [newLayers[newLayers.length-1]?.id || ''] *)
Definition lastLayerId (newLayers : list Layer) : string :=
  match nth_error newLayers (length newLayers - 1) with
  | Some l => l_id l (* the empty id is its own fallback *)
  | None => ""%string
  end.

Definition onDelete (id : string) (s : AppState) : AppState :=
  let newLayers :=
    filter (fun l => negb (String.eqb (l_id l) id)) (layers s) in
  set_layers s newLayers
    (if String.eqb (activeLayerId s) id then lastLayerId newLayers
     else activeLayerId s).

Definition onToggleVisible (id : string) (s : AppState) : AppState :=
  set_layers s
    (map (fun l => if String.eqb (l_id l) id
                   then mkLayer (l_id l) (l_name l) (negb (l_visible l))
                                (l_locked l)
                   else l) (layers s))
    (activeLayerId s).

Definition onToggleLock (id : string) (s : AppState) : AppState :=
  set_layers s
    (map (fun l => if String.eqb (l_id l) id
                   then mkLayer (l_id l) (l_name l) (l_visible l)
                                (negb (l_locked l))
                   else l) (layers s))
    (activeLayerId s).

(** The clicks the layer panel can produce. *)
Inductive LayerClick :=
| ClickAdd
| ClickRow (id : string)
| ClickVisible (id : string)
| ClickLock (id : string)
| ClickDelete (id : string).

(** The [LayerManager] component: the controls it renders for the given
    layers, topmost layer first.  The delete control of a row is rendered
    only while there is more than one layer. *)
Definition LayerManager (isOpen : bool) (ls : list Layer) : list LayerClick :=
  if negb isOpen then []
  else
    ClickAdd ::
    flat_map
      (fun layer =>
         [ClickRow (l_id layer); ClickVisible (l_id layer);
          ClickLock (l_id layer)]
         ++ (if (1 <? length ls)%nat then [ClickDelete (l_id layer)] else []))
      (rev ls).

(** The handlers the application wires to the panel. *)
Definition onLayerClick (newId : string) (c : LayerClick) (s : AppState)
  : AppState :=
  match c with
  | ClickAdd => addLayer newId s
  | ClickRow id => onSetActive id s
  | ClickVisible id => onToggleVisible id s
  | ClickLock id => onToggleLock id s
  | ClickDelete id => onDelete id s
  end.

(** ** Notions the properties are stated with *)

(** The history invariant of the data model. *)
Definition historyOk (s : AppState) : Prop :=
  (historyStep s < length (history s) <= historyLimit)%nat.

(** The active-layer id names a layer of the layer set. *)
Definition activeResolves (s : AppState) : Prop :=
  In (activeLayerId s) (map l_id (layers s)).

(** Layer ids identify layers. *)
Definition layerIdsDistinct (s : AppState) : Prop :=
  NoDup (map l_id (layers s)).

(** The active layer cannot be drawn on: it is missing or locked. *)
Definition layerRefuses (s : AppState) : Prop :=
  match getActiveLayer s with
  | None => True
  | Some layer => l_locked layer = true
  end.

(** The eraser removes [el] at [pos]. *)
Definition erased (s : AppState) (pos : Point) (el : CanvasElement) : Prop :=
  eraserKeeps s pos el = false.

(** *** The resampled stroke, as the specification describes it *)

(** The interpolants between [p0] and [p1]: those at the ratios [t/steps]
    for [0 < t < steps]. *)
Definition interpolantsBetween (p0 p1 : Point) : list Point :=
  let steps := stepsBetween p0 p1 in
  map (fun t => interpolant p0 p1 (Z.of_nat t) steps)
      (seq 1 (Z.to_nat (steps - 1))).

Section Densified.
Context {cell : Type}.
Variable val : cell -> Point.
Variable fresh : Point -> cell.

(** What the pair [(p_i, p_{i+1})] contributes. *)
Definition pairSegment (points : list cell) (i : nat) : list cell :=
  match nth_error points i, nth_error points (i + 1) with
  | Some c0, Some c1 =>
      map fresh (interpolantsBetween (val c0) (val c1)) ++ [c1]
  | _, _ => []
  end.

(** First point, the contributions of the pairs with [1 <= i < n - 2],
    last point. *)
Definition densified (points : list cell) : list cell :=
  match points with
  | [] => []
  | first :: _ =>
      [first]
      ++ flat_map (pairSegment points) (seq 1 (length points - 3))
      ++ [last points first]
  end.
End Densified.

(** The last [n] entries of a list. *)
Definition lastN {A} (n : nat) (l : list A) : list A :=
  skipn (length l - n) l.

(** ** Sample data *)

Definition sampleStyle : StrokeStyle := mkStyle "#000000" 1 None.

(** A one-point stroke with the given id, on the default layer. *)
Definition dot (id : string) : CanvasElement :=
  mkElement id stroke "layer-1" (Some [mkPoint 0 0 (Some (1/2))])
            None None None None None sampleStyle.

(** Sixty snapshots, the [i]-th holding one stroke whose id is [i]. *)
Definition sixtySnapshots : list (list CanvasElement) :=
  map (fun i => [dot (natToString i)]) (seq 1 60).

Definition withTool (t : ToolType) (s : AppState) : AppState :=
  mkState (elements s) (layers s) (activeLayerId s) t
          (currentColor s) (currentSize s) (zoom s) (pan s)
          (history s) (historyStep s).

Definition drawing : Interaction := mkUI true [] None None None.

Definition pointerAt (x y : R) : PointerEvent := mkPointer x y (1/2).

(** The initial document with its only layer hidden (and unlocked). *)
Definition hiddenLayerState : AppState :=
  set_layers initialState [mkLayer "layer-1" "Layer 1" false false] "layer-1".

(** The initial document with its only layer locked. *)
Definition lockedLayerState : AppState :=
  set_layers initialState [mkLayer "layer-1" "Layer 1" true true] "layer-1".

(** A 2 by 2 rectangle at the origin, on the default layer. *)
Definition sampleRect : CanvasElement :=
  mkElement "r1" rectangle "layer-1" None (Some 0) (Some 0) (Some 2) (Some 2)
            None sampleStyle.

(** Four points of a stroke; the second and third are one unit apart. *)
Definition ptA : Point := mkPoint 5 5 None.
Definition ptB : Point := mkPoint 0 0 None.
Definition ptC : Point := mkPoint 1 0 None.
Definition ptD : Point := mkPoint 7 7 None.

(** A document with two layers, the upper one active. *)
Definition upperLayer : Layer := mkLayer "layer-2" "Layer 2" true false.

Definition twoLayerState : AppState :=
  set_layers initialState [defaultLayer; upperLayer] "layer-2".

(** A document with three layers, the topmost one active. *)
Definition topLayer : Layer := mkLayer "layer-3" "Layer 3" true false.

Definition threeLayerState : AppState :=
  set_layers initialState [defaultLayer; upperLayer; topLayer] "layer-3".

(** A document file whose two layers have the same id, and the state after
    loading it into the initial state. *)
Definition twinLayerDocument : ProjectData :=
  mkData (FieldArray [])
         (FieldArray [mkLayer "a" "Layer 1" true false;
                      mkLayer "a" "Layer 2" true false]).

Definition twinLayerState : AppState :=
  fst (handleFileChange initialState (Some (JsonText twinLayerDocument))
                        false).

(** Texts, by their bytes: a no-break space, an ideographic space, a tab
    and a byte-order mark in a row; the letter e with an acute accent; a
    no-break space followed by the letter a. *)
Definition unicodeBlank : string :=
  String "194" (String "160"
    (String "227" (String "128" (String "128"
      (String "009"
        (String "239" (String "187" (String "191" EmptyString)))))))).

Definition accentedLetter : string := String "195" (String "169" EmptyString).

Definition spaceThenLetter : string := String "194" (String "160" "a").

(** A document file with no elements and no layers. *)
Definition emptyDocument : ProjectData := mkData (FieldArray []) (FieldArray []).

(** ** Further operations of the application *)

(** [handleClear]: [confirmed] is the user's answer to the confirmation
    dialog, asked only when the canvas is not empty. *)
Definition handleClear (confirmed : bool) (s : AppState) : AppState :=
  if (length (elements s) =? 0)%nat then s
  else if confirmed then saveHistory [] s else s.

(** The [canUndo] and [canRedo] properties handed to the property panel,
    which disables the buttons when they are false. *)
Definition canUndo (s : AppState) : bool := (0 <? historyStep s)%nat.

Definition canRedo (s : AppState) : bool :=
  (Z.of_nat (historyStep s) <? Z.of_nat (length (history s)) - 1)%Z.

(** [handleSave]: the saved text, given as the value it parses to (the
    [version] field, which loading does not read, is left out). *)
Definition handleSave (s : AppState) : FileText :=
  JsonText (mkData (FieldArray (elements s)) (FieldArray (layers s))).

Definition setColor (c : string) (s : AppState) : AppState :=
  mkState (elements s) (layers s) (activeLayerId s) (selectedTool s)
          c (currentSize s) (zoom s) (pan s) (history s) (historyStep s).

Definition setSize (n : R) (s : AppState) : AppState :=
  mkState (elements s) (layers s) (activeLayerId s) (selectedTool s)
          (currentColor s) n (zoom s) (pan s) (history s) (historyStep s).

Definition ToolType_eqb (a b : ToolType) : bool :=
  match a, b with
  | Tpen, Tpen | Teraser, Teraser | Trectangle, Trectangle
  | Tcircle, Tcircle | Tline, Tline | Ttext, Ttext | Tmove, Tmove => true
  | _, _ => false
  end.

(** [onSelectTool], followed by the effect that runs when the selected tool
    has changed: an open text box is submitted unless the text tool is
    now selected. *)
Definition onSelectTool (newId : string) (tool : ToolType)
    (w : AppState * Interaction) : AppState * Interaction :=
  let (s, ui) := w in
  let s1 := withTool tool s in
  if ToolType_eqb tool (selectedTool s) then (s1, ui)
  else
    match tool, textInput ui with
    | Ttext, _ => (s1, ui)
    | _, Some _ => handleTextSubmit newId (s1, ui)
    | _, None => (s1, ui)
    end.

(** The text box: typing, and the Cancel button or the Escape key. *)
Definition onTextChange (value : string) (ui : Interaction) : Interaction :=
  match textInput ui with
  | Some ti =>
      mkUI (isDrawing ui) (currentPoints ui) (dragStart ui)
           (Some (mkTextInput (ti_x ti) (ti_y ti) value)) (lastPointerPos ui)
  | None => ui
  end.

Definition onTextCancel (ui : Interaction) : Interaction :=
  mkUI (isDrawing ui) (currentPoints ui) (dragStart ui) None
       (lastPointerPos ui).

(** ** Rendering (utils/geometry.ts) *)

(** The calls made on the 2D context, in order. *)
Inductive CanvasOp :=
| SetLineCap (v : string)
| SetLineJoin (v : string)
| SetGlobalAlpha (a : R)
| SetGlobalCompositeOperation (v : string)
| BeginPath
| MoveTo (x y : R)
| LineTo (x y : R)
| QuadraticCurveTo (cpx cpy x y : R)
| SetLineWidth (w : R)
| SetStrokeStyle (c : string)
| Stroke
| StrokeRect (x y w h : R)
| Ellipse (x y radiusX radiusY rotation startAngle endAngle : R).

(** One turn of the pressure-sensitive loop, at index [i]. *)
Definition pressureSegment (points : list Point) (style : StrokeStyle)
    (i : nat) : list CanvasOp :=
  match nth_error points i, nth_error points (i + 1) with
  | Some p1, Some p2 =>
      let midx := (pt_x p1 + pt_x p2) / 2 in
      let midy := (pt_y p1 + pt_y p2) / 2 in
      let pressure := opt_or (pt_pressure p1) (1/2) in
      [BeginPath;
       MoveTo (pt_x p1) (pt_y p1);
       QuadraticCurveTo midx midy (pt_x p2) (pt_y p2);
       SetLineWidth (Rmax 1 (st_size style * pressure));
       SetStrokeStyle (st_color style);
       Stroke]
  | _, _ => [] (* not reached: i + 1 < length points *)
  end.

(** [for (let i = ...; i < points.length - 1; i++)], with [n] the number of
    values of [i] still to visit. *)
Fixpoint pressureLoop (n i : nat) (points : list Point) (style : StrokeStyle)
  : list CanvasOp :=
  match n with
  | O => []
  | S n' => pressureSegment points style i
            ++ pressureLoop n' (i + 1)%nat points style
  end.

(** One turn of the smoothing loop of the constant-width branch. *)
Definition smoothSegment (points : list Point) (i : nat) : list CanvasOp :=
  match nth_error points i, nth_error points (i + 1) with
  | Some p, Some q =>
      let xc := (pt_x p + pt_x q) / 2 in
      let yc := (pt_y p + pt_y q) / 2 in
      [QuadraticCurveTo (pt_x p) (pt_y p) xc yc]
  | _, _ => [] (* not reached *)
  end.

(** [for (let i = ...; i < points.length - 2; i++)] *)
Fixpoint smoothLoop (n i : nat) (points : list Point) : list CanvasOp :=
  match n with
  | O => []
  | S n' => smoothSegment points i ++ smoothLoop n' (i + 1)%nat points
  end.

Definition renderStroke (points : list Point) (style : StrokeStyle)
  : list CanvasOp :=
  if (length points <? 2)%nat then []
  else
    match points with
    | [] => [] (* not reached *)
    | first :: _ =>
        [SetLineCap "round"; SetLineJoin "round"]
        ++ (match st_isHighlighter style with
            | Some true =>
                [SetGlobalAlpha (4/10);
                 SetGlobalCompositeOperation "multiply"]
            | _ =>
                [SetGlobalAlpha 1;
                 SetGlobalCompositeOperation "source-over"]
            end)
        ++ (match pt_pressure first with
            | Some _ => pressureLoop (length points - 1) 0 points style
            | None =>
                [BeginPath;
                 SetLineWidth (st_size style);
                 SetStrokeStyle (st_color style);
                 MoveTo (pt_x first) (pt_y first)]
                ++ smoothLoop (length points - 3) 1 points
                ++ (if (2 <? length points)%nat then
                      match nth_error points (length points - 2),
                            nth_error points (length points - 1) with
                      | Some p, Some q =>
                          [QuadraticCurveTo (pt_x p) (pt_y p)
                                            (pt_x q) (pt_y q)]
                      | _, _ => [] (* not reached *)
                      end
                    else [])
                ++ [Stroke]
            end)
        ++ [SetGlobalAlpha 1; SetGlobalCompositeOperation "source-over"]
    end.

(** [type] is one of rectangle, circle and line at every call. *)
Definition renderShape (type : ElementType) (x y w h : R)
    (style : StrokeStyle) : list CanvasOp :=
  [BeginPath;
   SetLineWidth (st_size style);
   SetStrokeStyle (st_color style);
   SetLineCap "round";
   SetLineJoin "round"]
  ++ match type with
     | rectangle => [StrokeRect x y w h]
     | circle =>
         [Ellipse (x + w / 2) (y + h / 2) (Rabs (w / 2)) (Rabs (h / 2))
                  0 0 (2 * PI);
          Stroke]
     | line => [MoveTo x y; LineTo (x + w) (y + h); Stroke]
     | _ => []
     end.

(** ** The frame (drawCanvas) *)

(** [text.split('\n')] *)
Fixpoint splitLines (s : string) : list string :=
  match s with
  | EmptyString => [EmptyString]
  | String c rest =>
      if Ascii.eqb c "010"%char then EmptyString :: splitLines rest
      else
        match splitLines rest with
        | l :: ls => String c l :: ls
        | [] => [String c EmptyString] (* not reached *)
        end
  end.

(** What a frame does, in order: the context calls of [drawCanvas] itself
    and its calls of the two renderers, with the arguments as they are
    passed (a coordinate field that is missing is passed as it is).
    [ClearFrame] is the reset of the transform with [clearRect];
    [FillBackground] is [fillStyle] with [fillRect]; [FillTextLine] is one
    [fillText] under the font size and colour set for its element;
    [EraserCursor] is the filled and outlined circle of the eraser, with the
    outline's line width. *)
Inductive FrameStep :=
| ClearFrame (width height : R)
| FillBackground (color : string) (width height : R)
| SaveContext
| Translate (x y : R)
| Scale (x y : R)
| CallRenderStroke (points : list Point) (style : StrokeStyle)
| CallRenderShape (type : ElementType) (x y w h : option R)
                  (style : StrokeStyle)
| FillTextLine (font : R) (color : string) (line : string)
               (x y : option R)
| EraserCursor (x y radius lineWidth : R)
| RestoreContext.

(** [lines.forEach((line, i) => ctx.fillText(...))] from index [i] on. *)
Fixpoint fillLines (i : nat) (lines : list string) (fontSize : R)
    (color : string) (x y : option R) : list FrameStep :=
  match lines with
  | [] => []
  | l :: rest =>
      let lineHeight := fontSize * (12/10) in
      FillTextLine fontSize color l x
                   (option_map (fun y0 => y0 + INR i * lineHeight) y)
      :: fillLines (S i) rest fontSize color x y
  end.

(** The body of [layerElements.forEach]. *)
Definition drawElement (el : CanvasElement) : list FrameStep :=
  match el_type el, el_points el with
  | stroke, Some pts => [CallRenderStroke pts (el_style el)]
  | _, _ =>
      match el_type el with
      | rectangle | circle | line =>
          [CallRenderShape (el_type el) (el_x el) (el_y el) (el_width el)
                           (el_height el) (el_style el)]
      | text =>
          match el_text el with
          | Some (String c rest) =>
              let fontSize := Rmax 12 (st_size (el_style el) * 5) in
              fillLines 0 (splitLines (String c rest)) fontSize
                        (st_color (el_style el)) (el_x el) (el_y el)
          | _ => []
          end
      | stroke => []
      end
  end.

(** The body of [state.layers.forEach]. *)
Definition drawLayer (s : AppState) (layer : Layer) : list FrameStep :=
  if negb (l_visible layer) then []
  else
    let layerElements :=
      filter (fun el => String.eqb (el_layerId el) (l_id layer))
             (elements s) in
    flat_map drawElement layerElements.

(** The preview of the action in progress. *)
Definition drawCurrentAction (s : AppState) (ui : Interaction)
  : list FrameStep :=
  if isDrawing ui && (0 <? length (currentPoints ui))%nat then
    match selectedTool s with
    | Tpen =>
        let smoothPoints := getSplinePoints (currentPoints ui) in
        [CallRenderStroke smoothPoints
           (mkStyle (currentColor s) (currentSize s) None)]
    | Teraser =>
        match nth_error (currentPoints ui) (length (currentPoints ui) - 1)
        with
        | Some current =>
            [EraserCursor (pt_x current) (pt_y current) (currentSize s * 2)
                          (1 / zoom s)]
        | None => [] (* not reached *)
        end
    | tool =>
        match shapeOfTool tool, dragStart ui,
              nth_error (currentPoints ui) (length (currentPoints ui) - 1)
        with
        | Some ty, Some start, Some current =>
            let w := pt_x current - pt_x start in
            let h := pt_y current - pt_y start in
            [CallRenderShape ty (Some (pt_x start)) (Some (pt_y start))
                             (Some w) (Some h)
                             (mkStyle (currentColor s) (currentSize s) None)]
        | _, _, _ => []
        end
    end
  else [].

(** The canvas element: its pixel size. *)
Record Canvas := mkCanvas { cv_width : R; cv_height : R }.

Definition drawCanvas (canvas : option Canvas) (s : AppState)
    (ui : Interaction) : list FrameStep :=
  match canvas with
  | None => []
  | Some cv =>
      [ClearFrame (cv_width cv) (cv_height cv);
       FillBackground "#ffffff" (cv_width cv) (cv_height cv);
       SaveContext;
       Translate (pan_x (pan s)) (pan_y (pan s));
       Scale (zoom s) (zoom s)]
      ++ flat_map (drawLayer s) (layers s)
      ++ drawCurrentAction s ui
      ++ [RestoreContext]
  end.

(** ** The application as a whole *)

Definition LayerClick_eqb (a b : LayerClick) : bool :=
  match a, b with
  | ClickAdd, ClickAdd => true
  | ClickRow x, ClickRow y => String.eqb x y
  | ClickVisible x, ClickVisible y => String.eqb x y
  | ClickLock x, ClickLock y => String.eqb x y
  | ClickDelete x, ClickDelete y => String.eqb x y
  | _, _ => false
  end.

(** What the user and the browser can make the mounted application do.
    Identifiers that [generateId] would draw come with the event. *)
Inductive Event :=
| EvPointerDown (newId : string) (e : PointerEvent)
| EvPointerMove (e : PointerEvent)
| EvPointerUp (newId : string) (e : PointerEvent)
| EvWheel (e : WheelEvent)
| EvZoomIn (innerWidth innerHeight : R)
| EvZoomOut (innerWidth innerHeight : R)
| EvUndo
| EvRedo
| EvClear (confirmed : bool)
| EvFile (file : option FileText) (confirmed : bool)
| EvLayer (newId : string) (c : LayerClick)
| EvTool (newId : string) (tool : ToolType)
| EvColor (c : string)
| EvSize (n : R)
| EvTextChange (value : string)
| EvTextSubmit (newId : string)
| EvTextCancel.

(** The handler each event is wired to.  [rect] is the canvas rectangle.
    A click in the layer panel reaches its handler only on a control the
    panel renders. *)
Definition dispatch (rect : DOMRect) (w : AppState * Interaction)
    (ev : Event) : AppState * Interaction :=
  let (s, ui) := w in
  match ev with
  | EvPointerDown newId e => handlePointerDown (Some rect) newId w e
  | EvPointerMove e => handlePointerMove (Some rect) w e
  | EvPointerUp newId e => handlePointerUp (Some rect) newId w e
  | EvWheel e => (handleWheel rect s e, ui)
  | EvZoomIn iw ih => (changeZoom iw ih s (1/10), ui)
  | EvZoomOut iw ih => (changeZoom iw ih s (- (1/10)), ui)
  | EvUndo => (undo s, ui)
  | EvRedo => (redo s, ui)
  | EvClear confirmed => (handleClear confirmed s, ui)
  | EvFile file confirmed => (fst (handleFileChange s file confirmed), ui)
  | EvLayer newId c =>
      if existsb (LayerClick_eqb c) (LayerManager true (layers s))
      then (onLayerClick newId c s, ui)
      else w
  | EvTool newId tool => onSelectTool newId tool w
  | EvColor c => (setColor c s, ui)
  | EvSize n => (setSize n s, ui)
  | EvTextChange value => (s, onTextChange value ui)
  | EvTextSubmit newId => handleTextSubmit newId w
  | EvTextCancel => (s, onTextCancel ui)
  end.

Definition run (rect : DOMRect) (events : list Event)
    (w : AppState * Interaction) : AppState * Interaction :=
  fold_left (dispatch rect) events w.

(** ** Further notions the properties are stated with *)

(** The point at parameter [t] on the segment from [v] to [w]. *)
Definition pointAlong (v w : Point) (t : R) : Point :=
  mkPoint (pt_x v + t * (pt_x w - pt_x v))
          (pt_y v + t * (pt_y w - pt_y v)) None.

(** Every two neighbours in the list are less than [b] apart. *)
Fixpoint neighboursWithin (b : R) (l : list Point) : Prop :=
  match l with
  | p :: ((q :: _) as rest) => distance p q < b /\ neighboursWithin b rest
  | _ => True
  end.

(** The live element set is the snapshot under the cursor. *)
Definition liveIsSnapshot (s : AppState) : Prop :=
  elements s = snapshotAt (history s) (historyStep s).

(** The view of a state: zoom and pan. *)
Definition viewOf (s : AppState) : R * Pan := (zoom s, pan s).

(** The layer steps of a frame. *)
Definition drawLayers (s : AppState) : list FrameStep :=
  flat_map (drawLayer s) (layers s).

(** An element is on a layer that is shown. *)
Definition onShownLayer (s : AppState) (el : CanvasElement) : bool :=
  existsb (fun layer => l_visible layer
                        && String.eqb (el_layerId el) (l_id layer))
          (layers s).

(** The objects of the input among those of a resampled stroke. *)
Definition isInputObject (o : Origin * Point) : bool :=
  match fst o with
  | Input _ => true
  | Built => false
  end.

(** The pointer-move samples of a gesture, in order. *)
Definition moveAll (canvas : option DOMRect) (moves : list PointerEvent)
    (w : AppState * Interaction) : AppState * Interaction :=
  fold_left (handlePointerMove canvas) moves w.

Definition isStrokeOp (op : CanvasOp) : bool :=
  match op with
  | Stroke => true
  | _ => false
  end.

(** Where the paths of a list of context calls start, and where their
    curves end. *)
Definition moveTargets (ops : list CanvasOp) : list (R * R) :=
  flat_map (fun op => match op with
                      | MoveTo x y => [(x, y)]
                      | _ => []
                      end) ops.

Definition curveTargets (ops : list CanvasOp) : list (R * R) :=
  flat_map (fun op => match op with
                      | QuadraticCurveTo _ _ x y => [(x, y)]
                      | _ => []
                      end) ops.

Definition coordinates (p : Point) : R * R := (pt_x p, pt_y p).

(** What holds in every state the application reaches. *)
Definition stateOk (s : AppState) : Prop :=
  historyOk s /\ 1/10 <= zoom s <= 5.

(** Two states that differ in their elements at most. *)
Definition sameButElements (s s' : AppState) : Prop :=
  layers s' = layers s /\ activeLayerId s' = activeLayerId s
  /\ selectedTool s' = selectedTool s /\ currentColor s' = currentColor s
  /\ currentSize s' = currentSize s /\ zoom s' = zoom s /\ pan s' = pan s
  /\ history s' = history s /\ historyStep s' = historyStep s.

(** A line from the origin to (10, 0) and a circle in the box from the
    origin to (4, 2), on the default layer. *)
Definition sampleLine : CanvasElement :=
  mkElement "l1" line "layer-1" None (Some 0) (Some 0) (Some 10) (Some 0)
            None sampleStyle.

Definition sampleCircle : CanvasElement :=
  mkElement "c1" circle "layer-1" None (Some 0) (Some 0) (Some 4) (Some 2)
            None sampleStyle.

(** * Properties *)

(** ** View transform *)

Lemma clampZoom_range z : 1/10 <= clampZoom z <= 5.
Proof.
  unfold clampZoom, Rmin, Rmax.
  destruct (Rle_dec (1/10) z); destruct (Rle_dec _ 5); lra.
Qed.



(** C1, as the code has it.  Taking a screen point to the world and back
    gives the point relative to the drawing surface's top-left corner,
    [(sx - originX, sy - originY)], for every zoom in [0.1, 5] and every
    pan; it gives [(sx, sy)] itself when that corner is the screen's
    origin. *)
Theorem world_screen_round_trip (s : AppState) (rect : DOMRect) (sx sy : R) :
  1/10 <= zoom s <= 5 ->
  worldToScreen s (pt_x (screenToWorld (Some rect) s sx sy))
                  (pt_y (screenToWorld (Some rect) s sx sy))
    = (sx - rect_left rect, sy - rect_top rect)
  /\ (rect = mkRect 0 0 ->
      worldToScreen s (pt_x (screenToWorld (Some rect) s sx sy))
                      (pt_y (screenToWorld (Some rect) s sx sy))
        = (sx, sy)).
Proof.
  intros Hz.
  assert (Hgen :
    worldToScreen s (pt_x (screenToWorld (Some rect) s sx sy))
                    (pt_y (screenToWorld (Some rect) s sx sy))
      = (sx - rect_left rect, sy - rect_top rect)).
  { unfold worldToScreen, screenToWorld; simpl.
    f_equal; field; lra. }
  split; [exact Hgen|].
  intros ->. rewrite Hgen. simpl. f_equal; ring.
Qed.

Lemma world_screen_round_trip_witness :
  1/10 <= zoom initialState <= 5
  /\ worldToScreen initialState
       (pt_x (screenToWorld (Some (mkRect 10 0)) initialState 10 0))
       (pt_y (screenToWorld (Some (mkRect 10 0)) initialState 10 0))
     = (10 - rect_left (mkRect 10 0), 0 - rect_top (mkRect 10 0)).
Proof.
  split.
  - simpl; lra.
  - apply (world_screen_round_trip initialState (mkRect 10 0) 10 0).
    simpl; lra.
Defined.

(** C1 as stated fails: with the surface's left edge at 10, zoom 1 and no
    pan, the screen point (10, 0) goes to the world point (0, 0) and comes
    back as (0, 0). *)
Lemma world_screen_round_trip_offset_surface :
  1/10 <= zoom initialState <= 5
  /\ worldToScreen initialState
       (pt_x (screenToWorld (Some (mkRect 10 0)) initialState 10 0))
       (pt_y (screenToWorld (Some (mkRect 10 0)) initialState 10 0))
     <> (10, 0).
Proof.
  split; [simpl; lra|].
  unfold worldToScreen, screenToWorld; simpl.
  intros Heq. injection Heq as Hx. lra.
Qed.



(** ** History manager *)

Lemma lastN_all {A} n (l : list A) : (length l <= n)%nat -> lastN n l = l.
Proof.
  intros H. unfold lastN. replace (length l - n)%nat with 0%nat by lia.
  reflexivity.
Qed.

Lemma lastN_length {A} n (l : list A) :
  length (lastN n l) = Nat.min n (length l).
Proof. unfold lastN. rewrite length_skipn. lia. Qed.

Lemma lastN_app_lastN {A} n (l r : list A) :
  lastN n (lastN n l ++ r) = lastN n (l ++ r).
Proof.
  destruct (Nat.le_gt_cases (length l) n) as [Hle|Hgt].
  - rewrite (lastN_all n l Hle). reflexivity.
  - unfold lastN at 1 3. rewrite !length_app, lastN_length.
    unfold lastN.
    replace (Nat.min n (length l) + length r - n)%nat with (length r) by lia.
    replace (length l + length r - n)%nat
      with (length r + (length l - n))%nat by lia.
    rewrite <- skipn_skipn. f_equal.
    rewrite skipn_app.
    replace (length l - n - length l)%nat with 0%nat by lia.
    reflexivity.
Qed.

(** The entry a commit appends ends the new history, the cursor is on it,
    and what precedes it is the history up to the old cursor, less its
    oldest entry when the limit is passed. *)
Lemma saveHistory_shape (x : list CanvasElement) (s : AppState) :
  exists kept,
    history (saveHistory x s) = kept ++ [x]
    /\ historyStep (saveHistory x s) = length kept
    /\ elements (saveHistory x s) = x
    /\ ((kept = slice0 (historyStep s + 1) (history s)
         /\ (length kept < historyLimit)%nat)
        \/ (kept = shift (slice0 (historyStep s + 1) (history s))
            /\ (historyLimit <= length kept + 1)%nat)).
Proof.
  unfold saveHistory.
  set (upTo := slice0 (historyStep s + 1) (history s)).
  cbn [history historyStep elements set_history].
  destruct (Nat.ltb_spec historyLimit (length (upTo ++ [x]))) as [Hgt|Hle];
    rewrite length_app in *; cbn [length] in *.
  - destruct upTo as [|h0 rest].
    + unfold historyLimit in Hgt. cbn in Hgt. lia.
    + exists rest. cbn [shift tl app length] in *. rewrite length_app.
      cbn [length].
      repeat split; try lia. right. split; [reflexivity|lia].
  - exists upTo.
    repeat split; try lia. left. split; [reflexivity|lia].
Qed.

Lemma slice0_length {A} n (l : list A) :
  length (slice0 n l) = Nat.min n (length l).
Proof. apply length_firstn. Qed.

(** A commit keeps the history invariant. *)
Lemma saveHistory_ok x s :
  (length (history s) <= historyLimit)%nat -> historyOk (saveHistory x s).
Proof.
  intros Hlen. unfold historyOk.
  destruct (saveHistory_shape x s) as (kept & Hh & Hs & _ & Hk).
  rewrite Hh, Hs, length_app. cbn [length].
  pose proof (slice0_length (historyStep s + 1) (history s)) as Hup.
  destruct Hk as [[-> Hlt]|[-> Hge]].
  - lia.
  - destruct (slice0 (historyStep s + 1) (history s)); cbn [shift tl length] in *;
      unfold historyLimit in *; lia.
Qed.

(** After two commits the history ends with the two snapshots, the cursor
    on the second. *)
Lemma saveHistory_twice (a b : list CanvasElement) (s : AppState) :
  exists pre,
    history (saveHistory b (saveHistory a s)) = pre ++ [a; b]
    /\ historyStep (saveHistory b (saveHistory a s)) = (length pre + 1)%nat
    /\ elements (saveHistory b (saveHistory a s)) = b.
Proof.
  destruct (saveHistory_shape a s) as (k1 & Ha & Hsa & _ & _).
  destruct (saveHistory_shape b (saveHistory a s))
    as (k2 & Hb & Hsb & Hel & Hk).
  rewrite Ha, Hsa in Hk. unfold slice0 in Hk.
  replace (length k1 + 1)%nat with (length (k1 ++ [a])) in Hk
    by (rewrite length_app; cbn [length]; lia).
  rewrite firstn_all in Hk.
  destruct Hk as [[-> _]|[-> Hge]].
  - exists k1. rewrite Hb, Hsb, <- app_assoc, length_app. cbn [length app].
    repeat split; try lia; exact Hel.
  - destruct k1 as [|h0 rest].
    + unfold historyLimit in Hge. cbn in Hge. lia.
    + exists rest. rewrite Hb, Hsb. cbn [shift tl app].
      rewrite <- app_assoc, length_app. cbn [length app].
      repeat split; try lia; exact Hel.
Qed.

(** Undo and redo keep the invariant, so [snapshotAt] is only ever asked
    for an entry that exists. *)
Lemma undo_redo_ok s :
  historyOk s -> historyOk (undo s) /\ historyOk (redo s).
Proof.
  unfold historyOk, undo, redo. intros [Hlo Hhi]. split.
  - destruct (Nat.ltb_spec 0 (historyStep s));
      cbn [history historyStep set_history]; lia.
  - destruct (Z.ltb_spec (Z.of_nat (historyStep s))
                         (Z.of_nat (length (history s)) - 1));
      cbn [history historyStep set_history]; lia.
Qed.

Lemma snapshotAt_app (pre post : list (list CanvasElement)) x :
  snapshotAt (pre ++ x :: post) (length pre) = x.
Proof. unfold snapshotAt. rewrite nth_middle. reflexivity. Qed.

(** C4.  After commit(A) and commit(B), undo makes the live element set A
    and a following redo makes it B, from every state; undo with the cursor
    at 0 and redo with the cursor at the tail change nothing. *)
Theorem undo_redo_restore (s : AppState) (A B : list CanvasElement) :
  elements (undo (saveHistory B (saveHistory A s))) = A
  /\ elements (redo (undo (saveHistory B (saveHistory A s)))) = B
  /\ (forall s0 : AppState, historyStep s0 = 0%nat -> undo s0 = s0)
  /\ (forall s0 : AppState,
        historyStep s0 = (length (history s0) - 1)%nat -> redo s0 = s0).
Proof.
  destruct (saveHistory_twice A B s) as (pre & Hh & Hs & _).
  remember (saveHistory B (saveHistory A s)) as s2 eqn:Es2. clear Es2.
  assert (Hundo : undo s2 = set_history s2 A (history s2) (length pre)).
  { unfold undo. rewrite Hs.
    replace (0 <? length pre + 1)%nat with true
      by (symmetry; apply Nat.ltb_lt; lia).
    replace (length pre + 1 - 1)%nat with (length pre) by lia.
    rewrite Hh at 1. rewrite snapshotAt_app. reflexivity. }
  split; [rewrite Hundo; reflexivity|].
  split.
  - rewrite Hundo. unfold redo.
    cbn [history historyStep elements set_history].
    rewrite Hh, length_app. cbn [length].
    replace (Z.of_nat (length pre) <? Z.of_nat (length pre + 2) - 1)%Z
      with true by (symmetry; apply Z.ltb_lt; lia).
    cbn [history historyStep elements set_history].
    replace (pre ++ [A; B]) with ((pre ++ [A]) ++ B :: [])
      by (rewrite <- app_assoc; reflexivity).
    replace (length pre + 1)%nat with (length (pre ++ [A]))
      by (rewrite length_app; cbn [length]; lia).
    apply snapshotAt_app.
  - split.
    + intros s0 H0. unfold undo. rewrite H0. reflexivity.
    + intros s0 Ht. unfold redo.
      replace (Z.of_nat (historyStep s0)
               <? Z.of_nat (length (history s0)) - 1)%Z
        with false by (symmetry; apply Z.ltb_ge; lia).
      reflexivity.
Qed.

Lemma undo_redo_restore_witness :
  undo initialState = initialState /\ redo initialState = initialState.
Proof.
  destruct (undo_redo_restore initialState [] []) as (_ & _ & Hu & Hr).
  split; [apply Hu | apply Hr]; reflexivity.
Defined.

Lemma saveHistory_at_tail x s :
  (length (history s) <= historyStep s + 1)%nat ->
  (length (history s) <= historyLimit)%nat ->
  history (saveHistory x s) = lastN historyLimit (history s ++ [x])
  /\ (length (history (saveHistory x s))
      <= historyStep (saveHistory x s) + 1)%nat
  /\ (length (history (saveHistory x s)) <= historyLimit)%nat.
Proof.
  intros Htail Hlen.
  pose proof (saveHistory_ok x s Hlen) as [Hlo Hhi].
  destruct (saveHistory_shape x s) as (kept & Hh & Hs & _ & Hk).
  split; [|split; [rewrite Hh, Hs, length_app; cbn [length]; lia|exact Hhi]].
  rewrite Hh. unfold slice0 in Hk. rewrite firstn_all2 in Hk by lia.
  destruct Hk as [[-> Hlt]|[-> Hge]].
  - rewrite lastN_all; [reflexivity|]. rewrite length_app. cbn [length]. lia.
  - destruct (history s) as [|h0 rest]; cbn [shift tl length] in *.
    + unfold historyLimit in Hge. lia.
    + unfold lastN. rewrite length_app. cbn [length app].
      replace (S (length rest) + 1 - historyLimit)%nat with 1%nat by lia.
      reflexivity.
Qed.

Lemma commitAll_app snaps x s :
  commitAll (snaps ++ [x]) s = saveHistory x (commitAll snaps s).
Proof. unfold commitAll. rewrite fold_left_app. reflexivity. Qed.

(** Commits made at the tail keep the newest [historyLimit] entries. *)
Lemma commitAll_history snaps : forall s,
  (length (history s) <= historyStep s + 1)%nat ->
  (length (history s) <= historyLimit)%nat ->
  history (commitAll snaps s) = lastN historyLimit (history s ++ snaps).
Proof.
  induction snaps as [|x rest IH]; intros s Htail Hlen.
  - cbn. rewrite app_nil_r, lastN_all; [reflexivity|exact Hlen].
  - destruct (saveHistory_at_tail x s Htail Hlen) as (Hh & Ht & Hl).
    change (commitAll (x :: rest) s) with (commitAll rest (saveHistory x s)).
    rewrite (IH _ Ht Hl), Hh, lastN_app_lastN, <- app_assoc. reflexivity.
Qed.

Lemma commitAll_cursor snaps s :
  snaps <> [] ->
  S (historyStep (commitAll snaps s)) = length (history (commitAll snaps s))
  /\ elements (commitAll snaps s) = last snaps []
  /\ snapshotAt (history (commitAll snaps s))
                (historyStep (commitAll snaps s)) = last snaps [].
Proof.
  intros Hne. destruct (exists_last Hne) as (front & x & ->).
  rewrite commitAll_app, last_last.
  destruct (saveHistory_shape x (commitAll front s)) as (kept & Hh & Hs & He & _).
  rewrite Hh, Hs, He, length_app, snapshotAt_app. cbn [length].
  repeat split; lia.
Qed.

(** C5.  A commit drops the entries beyond the cursor, appends the new
    snapshot, puts the cursor on it, and drops the oldest entry when more
    than 50 would remain, so that a history within the limit stays within
    it.  Committing 60 snapshots from a history of at most the initial
    entry leaves the last 50 of them, the first 10 gone, with the cursor on
    the 50th. *)
Theorem commit_bounded_history :
  (forall (newElements : list CanvasElement) (s : AppState),
     exists kept,
       history (saveHistory newElements s) = kept ++ [newElements]
       /\ historyStep (saveHistory newElements s) = length kept
       /\ elements (saveHistory newElements s) = newElements
       /\ (if (length (firstn (historyStep s + 1) (history s)) <? 50)%nat
           then kept = firstn (historyStep s + 1) (history s)
           else kept = tl (firstn (historyStep s + 1) (history s)))
       /\ ((length (history s) <= 50)%nat ->
           (historyStep (saveHistory newElements s)
            < length (history (saveHistory newElements s)) <= 50)%nat))
  /\ (forall (snaps : list (list CanvasElement)) (s0 : AppState),
        (length (history s0) <= 1)%nat ->
        historyStep s0 = 0%nat ->
        length snaps = 60%nat ->
        history (commitAll snaps s0) = skipn 10 snaps
        /\ length (history (commitAll snaps s0)) = 50%nat
        /\ historyStep (commitAll snaps s0) = 49%nat
        /\ snapshotAt (history (commitAll snaps s0)) 49 = last snaps []
        /\ elements (commitAll snaps s0) = last snaps []).
Proof.
  split.
  - intros x s.
    destruct (saveHistory_shape x s) as (kept & Hh & Hs & He & Hk).
    exists kept. repeat split; try assumption.
    + unfold slice0, shift, historyLimit in Hk.
      destruct (Nat.ltb_spec (length (firstn (historyStep s + 1) (history s)))
                             50) as [Hlt|Hge].
      * destruct Hk as [[-> _]|[-> Hge]]; [reflexivity|].
        destruct (firstn (historyStep s + 1) (history s));
          cbn [tl length] in *; [reflexivity|lia].
      * destruct Hk as [[-> Hlt]|[-> _]]; [lia|reflexivity].
    + apply (saveHistory_ok x s H).
    + apply (saveHistory_ok x s H).
  - intros snaps s0 Hlen Hstep Hsn.
    assert (Hne : snaps <> []) by (intros ->; discriminate).
    destruct (commitAll_cursor snaps s0 Hne) as (Hc & He & Hat).
    assert (Hh : history (commitAll snaps s0) = skipn 10 snaps).
    { rewrite commitAll_history by (unfold historyLimit; lia).
      unfold lastN, historyLimit. rewrite length_app, Hsn.
      replace (length (history s0) + 60 - 50)%nat
        with (10 + length (history s0))%nat by lia.
      rewrite <- skipn_skipn, skipn_app, skipn_all, Nat.sub_diag.
      reflexivity. }
    assert (Hl : length (history (commitAll snaps s0)) = 50%nat)
      by (rewrite Hh, length_skipn; lia).
    assert (Hs : historyStep (commitAll snaps s0) = 49%nat) by lia.
    rewrite Hs in Hat. repeat split; assumption.
Qed.

Lemma commit_bounded_history_witness :
  history (commitAll sixtySnapshots initialState) = skipn 10 sixtySnapshots
  /\ historyStep (commitAll sixtySnapshots initialState) = 49%nat.
Proof.
  destruct commit_bounded_history as [_ Hsixty].
  destruct (Hsixty sixtySnapshots initialState) as (Hh & _ & Hs & _).
  - cbn. lia.
  - reflexivity.
  - reflexivity.
  - split; assumption.
Defined.

(** ** Pointer gestures *)

(** C7, as the code has it.  When the active layer is locked or does not
    exist, pointer-down starts no drawing gesture and pointer-up commits
    nothing: the document and its history stay as they are.  (Visibility is
    not consulted.) *)
Theorem refused_layer_commits_nothing (canvas : option DOMRect)
    (newId : string) (s : AppState) (ui : Interaction) (e : PointerEvent) :
  layerRefuses s ->
  fst (handlePointerDown canvas newId (s, ui) e) = s
  /\ (selectedTool s <> Tmove ->
      handlePointerDown canvas newId (s, ui) e = (s, ui))
  /\ fst (handlePointerUp canvas newId (s, ui) e) = s.
Proof.
  unfold layerRefuses. intros Href.
  unfold handlePointerDown, handlePointerUp.
  destruct (getActiveLayer s) as [layer|].
  - rewrite Href.
    destruct (selectedTool s), (isDrawing ui); cbn;
      repeat split; try reflexivity; intros Hm; congruence.
  - destruct (selectedTool s), (isDrawing ui); cbn;
      repeat split; try reflexivity; intros Hm; congruence.
Qed.

Lemma refused_layer_commits_nothing_witness :
  fst (handlePointerDown (Some (mkRect 0 0)) "e1"
         (lockedLayerState, idle) (pointerAt 3 4)) = lockedLayerState
  /\ fst (handlePointerUp (Some (mkRect 0 0)) "e1"
            (lockedLayerState, drawing) (pointerAt 3 4)) = lockedLayerState.
Proof.
  destruct (refused_layer_commits_nothing (Some (mkRect 0 0)) "e1"
              lockedLayerState drawing (pointerAt 3 4)) as (_ & _ & Hup).
  { reflexivity. }
  destruct (refused_layer_commits_nothing (Some (mkRect 0 0)) "e1"
              lockedLayerState idle (pointerAt 3 4)) as (Hdown & _ & _).
  { reflexivity. }
  split; assumption.
Defined.

(** C7 as stated fails for an invisible layer: on a hidden, unlocked active
    layer a pen gesture (pointer-down, then pointer-up) creates a stroke on
    that layer and adds a history entry. *)
Lemma hidden_layer_accepts_stroke :
  getActiveLayer hiddenLayerState
    = Some (mkLayer "layer-1" "Layer 1" false false)
  /\ elements hiddenLayerState = []
  /\ length (history hiddenLayerState) = 1%nat
  /\ map (fun el => (el_type el, el_layerId el))
         (elements
            (fst (handlePointerUp (Some (mkRect 0 0)) "e1"
                    (handlePointerDown (Some (mkRect 0 0)) "e1"
                       (hiddenLayerState, idle) (pointerAt 3 4))
                    (pointerAt 3 4))))
     = [(stroke, "layer-1"%string)]
  /\ length
       (history
          (fst (handlePointerUp (Some (mkRect 0 0)) "e1"
                  (handlePointerDown (Some (mkRect 0 0)) "e1"
                     (hiddenLayerState, idle) (pointerAt 3 4))
                  (pointerAt 3 4)))) = 2%nat.
Proof. repeat split. Qed.

(** C10.  Pointer-up that ends an eraser gesture on an existing, unlocked
    active layer commits the current element set, whether or not anything
    was erased: the elements stay, the entries beyond the cursor are
    dropped, the element set is appended as a new snapshot, and the cursor
    moves onto it, one step up unless the history is full.  A further
    pointer-up (or pointer-leave) finds no gesture and commits nothing
    more. *)
Theorem eraser_gesture_always_commits (canvas : option DOMRect)
    (newId : string) (s : AppState) (ui : Interaction) (e : PointerEvent)
    (layer : Layer) :
  isDrawing ui = true ->
  selectedTool s = Teraser ->
  getActiveLayer s = Some layer ->
  l_locked layer = false ->
  fst (handlePointerUp canvas newId (s, ui) e) = saveHistory (elements s) s
  /\ elements (fst (handlePointerUp canvas newId (s, ui) e)) = elements s
  /\ (exists kept,
        history (fst (handlePointerUp canvas newId (s, ui) e))
          = kept ++ [elements s]
        /\ historyStep (fst (handlePointerUp canvas newId (s, ui) e))
           = length kept
        /\ (kept = firstn (historyStep s + 1) (history s)
            \/ kept = tl (firstn (historyStep s + 1) (history s))))
  /\ redo (fst (handlePointerUp canvas newId (s, ui) e))
     = fst (handlePointerUp canvas newId (s, ui) e)
  /\ (historyOk s ->
      historyStep (fst (handlePointerUp canvas newId (s, ui) e))
        = Nat.min (historyStep s + 1) 49)
  /\ (forall newId' e',
        handlePointerUp canvas newId'
          (handlePointerUp canvas newId (s, ui) e) e'
        = handlePointerUp canvas newId (s, ui) e).
Proof.
  intros Hd Ht Hl Hu.
  assert (Hagain : forall newId' e',
            handlePointerUp canvas newId'
              (handlePointerUp canvas newId (s, ui) e) e'
            = handlePointerUp canvas newId (s, ui) e).
  { intros newId' e'.
    assert (Hfirst : handlePointerUp canvas newId (s, ui) e
                     = (saveHistory (elements s) s,
                        mkUI false [] None (textInput ui) None)).
    { unfold handlePointerUp. rewrite Hd, Ht, Hl, Hu. reflexivity. }
    rewrite Hfirst. reflexivity. }
  assert (Hup : fst (handlePointerUp canvas newId (s, ui) e)
                = saveHistory (elements s) s).
  { unfold handlePointerUp. rewrite Hd, Ht, Hl, Hu. reflexivity. }
  rewrite Hup.
  destruct (saveHistory_shape (elements s) s) as (kept & Hh & Hs & He & Hk).
  split; [reflexivity|]. split; [exact He|].
  split.
  { exists kept. repeat split; try assumption.
    unfold slice0, shift in Hk. destruct Hk as [[-> _]|[-> _]]; auto. }
  split.
  { unfold redo. rewrite Hh, Hs, length_app. cbn [length].
    replace (Z.of_nat (length kept) <? Z.of_nat (length kept + 1) - 1)%Z
      with false by (symmetry; apply Z.ltb_ge; lia).
    reflexivity. }
  split; [|exact Hagain].
  intros [Hlo Hhi]. rewrite Hs.
  unfold slice0, shift, historyLimit in *.
  assert (Hup2 : length (firstn (historyStep s + 1) (history s))
                 = (historyStep s + 1)%nat)
    by (rewrite length_firstn; lia).
  destruct Hk as [[-> Hlt]|[-> Hge]].
  - lia.
  - destruct (firstn (historyStep s + 1) (history s));
      cbn [tl length] in *; lia.
Qed.

Lemma eraser_gesture_always_commits_witness :
  fst (handlePointerUp (Some (mkRect 0 0)) "e1"
         (withTool Teraser initialState, drawing) (pointerAt 3 4))
  = saveHistory (elements (withTool Teraser initialState))
                (withTool Teraser initialState).
Proof.
  apply (eraser_gesture_always_commits (Some (mkRect 0 0)) "e1"
           (withTool Teraser initialState) drawing (pointerAt 3 4)
           defaultLayer); reflexivity.
Defined.

(** ** Eraser engine *)

Lemma Rltb_true a b : Rltb a b = true <-> a < b.
Proof. unfold Rltb. destruct (Rlt_dec a b); split; intros; try lra; congruence. Qed.

Lemma Rgtb_false a b : Rgtb a b = false <-> a <= b.
Proof. unfold Rgtb. destruct (Rgt_dec a b); split; intros; try lra; congruence. Qed.


Lemma filter_same_length {A} (f : A -> bool) (l : list A) :
  length (filter f l) = length l -> filter f l = l.
Proof.
  induction l as [|a l IH]; [reflexivity|]. cbn.
  destruct (f a); cbn; intros Hlen.
  - f_equal. apply IH. lia.
  - pose proof (filter_length_le f l). lia.
Qed.

Lemma filter_all {A} (f : A -> bool) (l : list A) :
  (forall x, In x l -> f x = true) -> filter f l = l.
Proof.
  induction l as [|a l IH]; intros H; [reflexivity|].
  cbn. rewrite (H a) by (left; reflexivity). f_equal.
  apply IH. intros x Hx. apply H. right. exact Hx.
Qed.

(** The live element set after one eraser evaluation. *)
Lemma eraseAt_elements s pos :
  elements (eraseAt s pos) = filter (eraserKeeps s pos) (elements s).
Proof.
  unfold eraseAt, elementsToKeep.
  destruct (Nat.eqb_spec (length (filter (eraserKeeps s pos) (elements s)))
                         (length (elements s))) as [Heq|Hne]; cbn.
  - symmetry. apply filter_same_length. exact Heq.
  - reflexivity.
Qed.

(** C6, as the code has it.  While an eraser gesture is in progress every
    pointer-move sample evaluates the eraser at the pointer's world
    position.  One eraser evaluation at [pos] keeps every
    element of another layer, and keeps the elements it keeps unchanged
    and in order.  On the active layer a stroke goes iff one of its points
    is at a distance below [size * 2] from [pos]; a rectangle or circle
    goes iff its centroid is at a distance of at most
    [max(|width|, |height|) / 2 + size * 2]; a line goes iff its distance
    to [pos] is at most [max(5, size) + 5]; a text goes iff its anchor is at
    a distance of at most 20; an element without coordinates, or a stroke
    without points, stays. *)
Theorem eraser_removal_rule (s : AppState) (pos : Point)
    (el : CanvasElement) :
  (el_layerId el <> activeLayerId s -> ~ erased s pos el)
  /\ (el_layerId el = activeLayerId s ->
      (forall pts,
         el_type el = stroke -> el_points el = Some pts ->
         (erased s pos el
          <-> exists p, In p pts /\ distance p pos < currentSize s * 2))
      /\ (forall ex ey w h,
            el_type el = rectangle \/ el_type el = circle ->
            el_x el = Some ex -> el_y el = Some ey ->
            el_width el = Some w -> el_height el = Some h ->
            (erased s pos el
             <-> distance (mkPoint (ex + w / 2) (ey + h / 2) None) pos
                 <= Rmax (Rabs w) (Rabs h) / 2 + currentSize s * 2))
      /\ (forall ex ey w h,
            el_type el = line ->
            el_x el = Some ex -> el_y el = Some ey ->
            el_width el = Some w -> el_height el = Some h ->
            (erased s pos el
             <-> distanceToSegment pos (mkPoint ex ey None)
                                   (mkPoint (ex + w) (ey + h) None)
                 <= Rmax 5 (currentSize s) + 5))
      /\ (forall ex ey,
            el_type el = text ->
            el_x el = Some ex -> el_y el = Some ey ->
            (erased s pos el
             <-> distance (mkPoint ex ey None) pos <= 20))
      /\ (el_x el = None ->
          el_type el = stroke -> el_points el = None ->
          ~ erased s pos el)
      /\ (el_x el = None -> el_type el <> stroke -> ~ erased s pos el))
  /\ elements (eraseAt s pos) = filter (eraserKeeps s pos) (elements s)
  /\ (forall el', In el' (elements (eraseAt s pos))
                  <-> In el' (elements s) /\ ~ erased s pos el')
  /\ (forall canvas ui e,
        isDrawing ui = true -> selectedTool s = Teraser ->
        fst (handlePointerMove canvas (s, ui) e)
        = eraseAt s (getPointerPos canvas s e)).
Proof.
  unfold erased.
  split; [|split; [|split; [|split]]].
  - intros Hne. unfold eraserKeeps.
    destruct (String.eqb_spec (el_layerId el) (activeLayerId s)) as [He|_];
      [contradiction|]. cbn. discriminate.
  - intros Hact.
    destruct el as [id ty lay pts x y w h txt sty]. cbn in Hact. subst lay.
    unfold eraserKeeps. cbn [el_layerId el_type el_points el_x el_y el_width
                             el_height].
    rewrite String.eqb_refl. cbn [negb].
    split; [|split; [|split; [|split; [|split]]]].
    + intros pts' Hty Hpts. cbn in Hty, Hpts. subst ty pts. cbn.
      rewrite negb_false_iff, existsb_exists.
      split; intros (p & Hin & Hlt); exists p; (split; [exact Hin|]);
        apply Rltb_true; exact Hlt.
    + intros ex ey w' h' Hty Hx Hy Hw Hh. cbn in Hty, Hx, Hy, Hw, Hh.
      subst x y w h.
      destruct Hty as [-> | ->]; cbn; apply Rgtb_false.
    + intros ex ey w' h' Hty Hx Hy Hw Hh. cbn in Hty, Hx, Hy, Hw, Hh.
      subst ty x y w h. cbn. apply Rgtb_false.
    + intros ex ey Hty Hx Hy. cbn in Hty, Hx, Hy. subst ty x y. cbn.
      apply Rgtb_false.
    + intros Hx Hty Hpts. cbn in Hx, Hty, Hpts. subst x ty pts. cbn.
      discriminate.
    + intros Hx Hty. cbn in Hx, Hty. subst x.
      destruct ty; cbn; try discriminate. congruence.
  - apply eraseAt_elements.
  - intros el'. rewrite eraseAt_elements, filter_In.
    destruct (eraserKeeps s pos el'); intuition congruence.
  - intros canvas ui e Hd Ht. unfold handlePointerMove.
    rewrite Hd, Ht. cbn [negb].
    destruct (lastPointerPos ui) as [[lx ly]|]; reflexivity.
Qed.

Lemma eraser_removal_rule_witness :
  erased initialState (mkPoint 10 1 None) sampleRect
  <-> distance (mkPoint (0 + 2 / 2) (0 + 2 / 2) None) (mkPoint 10 1 None)
      <= Rmax (Rabs 2) (Rabs 2) / 2 + currentSize initialState * 2.
Proof.
  destruct (eraser_removal_rule initialState (mkPoint 10 1 None) sampleRect)
    as (_ & Hact & _).
  destruct (Hact eq_refl) as (_ & Hshape & _).
  apply (Hshape 0 0 2 2); [left|..]; reflexivity.
Defined.

Lemma sampleRect_centroid_distance :
  distance (mkPoint (0 + 2 / 2) (0 + 2 / 2) None) (mkPoint 10 1 None) = 9.
Proof.
  unfold distance, hypot. cbn [pt_x pt_y].
  replace ((0 + 2 / 2 - 10) * (0 + 2 / 2 - 10)
           + (0 + 2 / 2 - 1) * (0 + 2 / 2 - 1)) with (9 * 9) by field.
  apply sqrt_square. lra.
Qed.

Lemma sampleRect_bound :
  Rmax (Rabs 2) (Rabs 2) / 2 + currentSize initialState * 2 = 9.
Proof.
  cbn [currentSize initialState].
  rewrite Rabs_right by lra. rewrite Rmax_left by lra. lra.
Qed.

(** C6 as stated fails on the boundary: with size 4 (radius 8) the 2 by 2
    rectangle at the origin has its centroid (1, 1) at distance 9 from
    (10, 1), which is not less than 2/2 + 8 = 9, and the eraser removes
    it. *)
Lemma eraser_removes_rectangle_on_boundary :
  el_layerId sampleRect = activeLayerId initialState
  /\ erased initialState (mkPoint 10 1 None) sampleRect
  /\ ~ (distance (mkPoint (0 + 2 / 2) (0 + 2 / 2) None) (mkPoint 10 1 None)
        < Rmax (Rabs 2) (Rabs 2) / 2 + currentSize initialState * 2).
Proof.
  split; [reflexivity|]. split.
  - unfold erased, eraserKeeps.
    cbn [el_layerId el_type el_points el_x el_y el_width el_height
         sampleRect activeLayerId initialState negb].
    change (("layer-1" =? "layer-1")%string) with true. cbn [negb].
    apply Rgtb_false.
    change (distance (mkPoint (0 + 2 / 2) (0 + 2 / 2) None)
                     (mkPoint 10 1 None)
            <= Rmax (Rabs 2) (Rabs 2) / 2 + currentSize initialState * 2).
    rewrite sampleRect_centroid_distance, sampleRect_bound. lra.
  - rewrite sampleRect_centroid_distance, sampleRect_bound. lra.
Qed.

(** ** Stroke resampling *)

Section ResampleFacts.
Context {cell : Type}.
Variable val : cell -> Point.
Variable fresh : Point -> cell.

Lemma pushInterpolants_spec n : forall t steps p0 p1 (acc : list cell),
  pushInterpolants fresh n t steps p0 p1 acc
  = acc ++ map (fun k => fresh (interpolant p0 p1 (t + Z.of_nat k) steps))
               (seq 0 n).
Proof.
  induction n as [|n IH]; intros t steps p0 p1 acc.
  - cbn. rewrite app_nil_r. reflexivity.
  - cbn [pushInterpolants]. rewrite IH. cbn [seq map].
    rewrite <- app_assoc. cbn [app]. rewrite Z.add_0_r.
    do 2 f_equal. rewrite <- seq_shift, map_map.
    apply map_ext. intros k. do 2 f_equal. lia.
Qed.

Lemma splineStep_spec (points : list cell) i acc :
  splineStep val fresh points i acc = acc ++ pairSegment val fresh points i.
Proof.
  unfold splineStep, pairSegment.
  destruct (nth_error points i) as [c0|]; [|rewrite app_nil_r; reflexivity].
  destruct (nth_error points (i + 1)) as [c1|];
    [|rewrite app_nil_r; reflexivity].
  rewrite pushInterpolants_spec, <- app_assoc. do 2 f_equal.
  unfold interpolantsBetween. rewrite map_map, <- seq_shift, map_map.
  apply map_ext. intros k. do 2 f_equal. lia.
Qed.

Lemma splineLoop_spec n : forall i (points acc : list cell),
  splineLoop val fresh n i points acc
  = acc ++ flat_map (pairSegment val fresh points) (seq i n).
Proof.
  induction n as [|n IH]; intros i points acc.
  - cbn. rewrite app_nil_r. reflexivity.
  - cbn [splineLoop seq flat_map]. rewrite IH, splineStep_spec.
    rewrite <- app_assoc. replace (i + 1)%nat with (S i) by lia.
    reflexivity.
Qed.

Lemma nth_error_last (l : list cell) (d : cell) :
  l <> [] -> nth_error l (length l - 1) = Some (last l d).
Proof.
  intros Hne. destruct (exists_last Hne) as (front & x & ->).
  rewrite last_last, length_app. cbn [length].
  replace (length front + 1 - 1)%nat with (length front) by lia.
  rewrite nth_error_app2 by lia. rewrite Nat.sub_diag. reflexivity.
Qed.

(** For three points or more the function computes the densified
    polyline. *)
Lemma getSplinePointsOn_densified (points : list cell) :
  (3 <= length points)%nat ->
  getSplinePointsOn val fresh points = densified val fresh points.
Proof.
  intros Hlen. unfold getSplinePointsOn, densified.
  replace (length points <? 3)%nat with false
    by (symmetry; apply Nat.ltb_ge; exact Hlen).
  destruct points as [|first rest]; [cbn in Hlen; lia|].
  rewrite (nth_error_last (first :: rest) first) by discriminate.
  rewrite splineLoop_spec, <- app_assoc. reflexivity.
Qed.

Lemma getSplinePointsOn_short (points : list cell) :
  (length points < 3)%nat -> getSplinePointsOn val fresh points = points.
Proof.
  intros Hlen. unfold getSplinePointsOn.
  replace (length points <? 3)%nat with true
    by (symmetry; apply Nat.ltb_lt; exact Hlen).
  reflexivity.
Qed.

(** First and last cell of the result are those of the input. *)
Lemma getSplinePointsOn_ends (points : list cell) (d : cell) :
  hd d (getSplinePointsOn val fresh points) = hd d points
  /\ last (getSplinePointsOn val fresh points) d = last points d.
Proof.
  destruct (Nat.lt_ge_cases (length points) 3) as [Hlt|Hge].
  - rewrite getSplinePointsOn_short by exact Hlt. split; reflexivity.
  - rewrite getSplinePointsOn_densified by exact Hge.
    destruct points as [|first rest]; [cbn in Hge; lia|].
    unfold densified. split; [reflexivity|].
    rewrite app_assoc, last_last.
    destruct (@exists_last _ (first :: rest)) as (fr & x & Heq);
      [discriminate|].
    rewrite Heq, !last_last. reflexivity.
Qed.
End ResampleFacts.

Lemma map_flat_map {A B C} (f : B -> C) (g : A -> list B) (l : list A) :
  map f (flat_map g l) = flat_map (fun a => map f (g a)) l.
Proof.
  induction l as [|a l IH]; [reflexivity|].
  cbn. rewrite map_app, IH. reflexivity.
Qed.

Lemma last_map_cons {A B} (f : A -> B) (l : list A) (d : A) :
  last (map f l) (f d) = f (last l d).
Proof.
  induction l as [|a l IH]; [reflexivity|].
  destruct l as [|b l]; [reflexivity|]. exact IH.
Qed.

(** Resampling commutes with any renaming of the point objects that
    respects reading and building. *)
Lemma getSplinePointsOn_map {A B : Type}
    (valA : A -> Point) (freshA : Point -> A)
    (valB : B -> Point) (freshB : Point -> B) (f : A -> B) :
  (forall c, valB (f c) = valA c) ->
  (forall p, f (freshA p) = freshB p) ->
  forall l,
    map f (getSplinePointsOn valA freshA l)
    = getSplinePointsOn valB freshB (map f l).
Proof.
  intros Hval Hfresh l.
  destruct (Nat.lt_ge_cases (length l) 3) as [Hlt|Hge].
  - rewrite !getSplinePointsOn_short by (rewrite ?length_map; exact Hlt).
    reflexivity.
  - rewrite !getSplinePointsOn_densified by (rewrite ?length_map; exact Hge).
    destruct l as [|first rest]; [cbn in Hge; lia|].
    unfold densified. cbn [map]. rewrite !map_app, map_flat_map.
    cbn [map].
    change (f first :: map f rest) with (map f (first :: rest)).
    rewrite !length_map.
    f_equal. f_equal.
    + apply flat_map_ext. intros i. unfold pairSegment.
      rewrite !nth_error_map.
      destruct (nth_error (first :: rest) i) as [c0|]; [|reflexivity].
      destruct (nth_error (first :: rest) (i + 1)) as [c1|]; [|reflexivity].
      cbn [option_map]. rewrite map_app, map_map, !Hval. cbn [map].
      f_equal. apply map_ext. intros p. apply Hfresh.
    + f_equal. symmetry. apply last_map_cons.
Qed.

Lemma asObjectsFrom_values i points :
  map snd (asObjectsFrom i points) = points.
Proof.
  revert i. induction points as [|p rest IH]; intros i; [reflexivity|].
  cbn. rewrite IH. reflexivity.
Qed.

Lemma asObjectsFrom_last points : forall i d,
  points <> [] ->
  last (asObjectsFrom i points) d
  = (Input (i + (length points - 1)), last points (snd d)).
Proof.
  induction points as [|p rest IH]; intros i d Hne; [contradiction|].
  destruct rest as [|q rest'].
  - cbn. rewrite Nat.add_0_r. reflexivity.
  - change (last (asObjectsFrom i (p :: q :: rest')) d)
      with (last (asObjectsFrom (S i) (q :: rest')) d).
    rewrite IH by discriminate.
    change (last (p :: q :: rest') (snd d)) with (last (q :: rest') (snd d)).
    cbn [length]. do 2 f_equal. lia.
Qed.

Lemma stepsBetween_B_C : stepsBetween ptB ptC = 1%Z.
Proof.
  unfold stepsBetween, distance, hypot, ptB, ptC. cbn [pt_x pt_y].
  replace ((0 - 1) * (0 - 1) + (0 - 0) * (0 - 0)) with 1 by ring.
  rewrite sqrt_1.
  rewrite (Zfloor_eq 0 (1 / 2)); [reflexivity|]. cbn. lra.
Qed.

(** C3, as the code has it.  Fewer than three points come back as they
    are.  From three points on, the result is the first point, then for
    every [i] with [1 <= i < n - 2] the interpolants between [p_i] and
    [p_(i+1)] followed by [p_(i+1)], then the last point.  Between two
    points there are [steps - 1 = floor(distance / 2)] interpolants, at the
    ratios [t / steps] for [0 < t < steps], where
    [steps = floor(distance / 2) + 1]; each carries an interpolated
    pressure, a missing pressure counting as 0.5.  The first and the last
    element of the result are the very first and last objects of the input.
    Equal inputs give equal results. *)
Theorem resample_rule (points : list Point) :
  ((length points < 3)%nat ->
     getSplinePoints points = points
     /\ getSplineObjects points = asObjects points)
  /\ ((3 <= length points)%nat ->
      getSplinePoints points = densified (fun p => p) (fun p => p) points)
  /\ (forall p0 p1 : Point,
        stepsBetween p0 p1 = (Zfloor (distance p0 p1 / 2) + 1)%Z
        /\ length (interpolantsBetween p0 p1)
           = Z.to_nat (Zfloor (distance p0 p1 / 2))
        /\ (forall t : nat,
              (0 < t < Z.to_nat (stepsBetween p0 p1))%nat ->
              nth_error (interpolantsBetween p0 p1) (t - 1)
              = Some (interpolant p0 p1 (Z.of_nat t) (stepsBetween p0 p1)))
        /\ (forall t steps : Z,
              pt_pressure p0 = None -> pt_pressure p1 = None ->
              pt_pressure (interpolant p0 p1 t steps) = Some (1/2)))
  /\ (forall d : Point,
        hd d (getSplinePoints points) = hd d points
        /\ last (getSplinePoints points) d = last points d)
  /\ (forall first rest,
        points = first :: rest ->
        hd (Built, first) (getSplineObjects points) = (Input 0, first)
        /\ last (getSplineObjects points) (Built, first)
           = (Input (length points - 1), last points first))
  /\ map snd (getSplineObjects points) = getSplinePoints points
  /\ (forall points' : list Point,
        points' = points -> getSplinePoints points' = getSplinePoints points).
Proof.
  split; [|split; [|split; [|split; [|split; [|split]]]]].
  - intros Hlt. split.
    + apply getSplinePointsOn_short. exact Hlt.
    + apply getSplinePointsOn_short. unfold asObjects.
      rewrite <- (asObjectsFrom_values 0 points) in Hlt.
      rewrite length_map in Hlt. exact Hlt.
  - apply getSplinePointsOn_densified.
  - intros p0 p1. split; [reflexivity|].
    unfold interpolantsBetween. rewrite length_map, length_seq.
    split; [unfold stepsBetween; f_equal; lia|]. split.
    + intros t Ht.
      rewrite nth_error_map, nth_error_seq.
      replace (t - 1 <? Z.to_nat (stepsBetween p0 p1 - 1))%nat with true
        by (symmetry; apply Nat.ltb_lt; lia).
      cbn [option_map]. do 3 f_equal. lia.
    + intros t steps H0 H1. unfold interpolant. cbn [pt_pressure].
      rewrite H0, H1. cbn [opt_or]. f_equal. ring.
  - intros d. apply getSplinePointsOn_ends.
  - intros first rest ->.
    destruct (getSplinePointsOn_ends snd (fun p => (Built, p))
                (asObjects (first :: rest)) (Built, first)) as [Hh Hl].
    unfold getSplineObjects. split; [rewrite Hh; reflexivity|].
    etransitivity; [exact Hl|].
    unfold asObjects. rewrite asObjectsFrom_last by discriminate.
    reflexivity.
  - unfold getSplineObjects, getSplinePoints.
    rewrite (getSplinePointsOn_map snd (fun p => (Built, p))
               (fun p => p) (fun p => p) snd) by reflexivity.
    unfold asObjects. rewrite asObjectsFrom_values. reflexivity.
  - intros points' ->. reflexivity.
Qed.

Lemma resample_rule_witness :
  getSplinePoints [ptA; ptB; ptC; ptD]
  = densified (fun p => p) (fun p => p) [ptA; ptB; ptC; ptD]
  /\ hd (Built, ptA) (getSplineObjects [ptA; ptB; ptC; ptD]) = (Input 0, ptA)
  /\ getSplinePoints [ptA; ptB] = [ptA; ptB].
Proof.
  destruct (resample_rule [ptA; ptB; ptC; ptD])
    as (_ & Hlong & _ & _ & Hobj & _).
  destruct (resample_rule [ptA; ptB]) as (Hshort & _).
  split; [apply Hlong; cbn; lia|].
  split; [apply (Hobj ptA [ptB; ptC; ptD] eq_refl)|].
  apply Hshort. cbn. lia.
Defined.

(** C3 as stated fails on the number of interpolants: the second and third
    of these four points are one unit apart, so [steps] is
    [floor(1/2) + 1 = 1], yet the result holds the first, third and fourth
    point only: no interpolant between the second and the third is in it
    (an interpolant carries a pressure, these points carry none), and the
    second point itself is left out. *)
Lemma resample_inserts_one_less :
  stepsBetween ptB ptC = 1%Z
  /\ getSplinePoints [ptA; ptB; ptC; ptD] = [ptA; ptC; ptD]
  /\ (forall t steps : Z,
        ~ In (interpolant ptB ptC t steps)
             (getSplinePoints [ptA; ptB; ptC; ptD])).
Proof.
  assert (Hout : getSplinePoints [ptA; ptB; ptC; ptD] = [ptA; ptC; ptD]).
  { unfold getSplinePoints, getSplinePointsOn.
    cbn [length Nat.ltb Nat.leb Nat.sub splineLoop nth_error Nat.add].
    unfold splineStep. cbn [nth_error Nat.add].
    rewrite stepsBetween_B_C. reflexivity. }
  split; [exact stepsBetween_B_C|]. split; [exact Hout|].
  intros t steps Hin. rewrite Hout in Hin.
  destruct Hin as [H|[H|[H|[]]]]; discriminate H.
Qed.

(** ** Loading a document *)

Lemma onFileRead_failure s t :
  (forall data els, t = JsonText data -> data_elements data <> FieldArray els) ->
  fst (onFileRead s t) = s.
Proof.
  intros Hbad. destruct t as [| |data]; try reflexivity.
  cbn. destruct (data_elements data) as [| |els] eqn:He; try reflexivity.
  exfalso. apply (Hbad data els); [reflexivity|exact He].
Qed.

(** C8, as the code has it.  Once the user has chosen a file and agreed to
    replace a non-empty canvas: a document whose [elements] field is an
    array is loaded without an alert, with the file's layers (one default
    layer when they are missing or empty), the first layer active, zoom 1,
    pan (0, 0) and a history of the loaded elements alone with the cursor
    at 0; a non-empty text that does not parse, or a document whose
    [elements] field is missing or no array, raises an alert; an empty file
    is passed over without an alert.  Whenever the load does not succeed the
    whole state is left as it was. *)
Theorem load_document (s : AppState) (confirmed : bool) :
  elements s = [] \/ confirmed = true ->
  (forall data els,
     data_elements data = FieldArray els ->
     snd (handleFileChange s (Some (JsonText data)) confirmed) = None
     /\ elements (fst (handleFileChange s (Some (JsonText data)) confirmed))
        = els
     /\ history (fst (handleFileChange s (Some (JsonText data)) confirmed))
        = [els]
     /\ historyStep (fst (handleFileChange s (Some (JsonText data)) confirmed))
        = 0%nat
     /\ zoom (fst (handleFileChange s (Some (JsonText data)) confirmed)) = 1
     /\ pan (fst (handleFileChange s (Some (JsonText data)) confirmed))
        = mkPan 0 0
     /\ layers (fst (handleFileChange s (Some (JsonText data)) confirmed))
        = match data_layers data with
          | FieldArray (l :: ls) => l :: ls
          | _ => [defaultLayer]
          end
     /\ Some (activeLayerId
                (fst (handleFileChange s (Some (JsonText data)) confirmed)))
        = option_map l_id
            (hd_error
               (layers
                  (fst (handleFileChange s (Some (JsonText data))
                          confirmed))))
     /\ activeResolves
          (fst (handleFileChange s (Some (JsonText data)) confirmed)))
  /\ handleFileChange s (Some UnparsableText) confirmed
     = (s, Some FailedToLoad)
  /\ (forall data,
        (forall els, data_elements data <> FieldArray els) ->
        handleFileChange s (Some (JsonText data)) confirmed
        = (s, Some InvalidProjectFormat))
  /\ handleFileChange s (Some EmptyText) confirmed = (s, None)
  /\ (forall file,
        (forall data els,
           file = Some (JsonText data) ->
           data_elements data <> FieldArray els) ->
        fst (handleFileChange s file confirmed) = s).
Proof.
  intros Hgo.
  assert (Hrun : forall t,
             handleFileChange s (Some t) confirmed = onFileRead s t).
  { intros t. unfold handleFileChange.
    destruct Hgo as [-> | ->]; cbn; [reflexivity|].
    rewrite andb_false_r. reflexivity. }
  split; [|split; [|split; [|split]]].
  - intros data els He. rewrite Hrun. unfold onFileRead. rewrite He.
    unfold activeResolves.
    destruct (data_layers data) as [| |[|l ls]]; cbn;
      repeat split; try reflexivity; left; reflexivity.
  - apply Hrun.
  - intros data Hbad. rewrite Hrun. cbn.
    destruct (data_elements data) as [| |els] eqn:He; try reflexivity.
    exfalso. exact (Hbad els eq_refl).
  - apply Hrun.
  - intros [t|] Hbad; [|reflexivity].
    rewrite Hrun. apply onFileRead_failure.
    intros data els ->. apply Hbad. reflexivity.
Qed.

Lemma load_document_witness :
  activeResolves
    (fst (handleFileChange twoLayerState (Some (JsonText emptyDocument)) true))
  /\ layers
       (fst (handleFileChange twoLayerState (Some (JsonText emptyDocument))
               true))
     = [defaultLayer]
  /\ zoom
       (fst (handleFileChange twoLayerState (Some (JsonText emptyDocument))
               true))
     = 1.
Proof.
  destruct (load_document twoLayerState true (or_intror eq_refl))
    as (Hok & _).
  destruct (Hok emptyDocument [] eq_refl)
    as (_ & _ & _ & _ & Hz & _ & Hl & _ & Ha).
  split; [exact Ha|]. split; [exact Hl|exact Hz].
Defined.

(** C8 as stated fails for an empty file: it is no JSON text, yet loading it
    shows no alert (and changes nothing). *)
Lemma empty_file_raises_no_alert :
  isMalformedJson EmptyText = true
  /\ handleFileChange initialState (Some EmptyText) true
     = (initialState, None).
Proof. split; reflexivity. Qed.

(** ** Layer operations *)

(** What a control of the layer panel tells about the layers it was
    rendered for. *)
Lemma LayerManager_offers isOpen ls c :
  In c (LayerManager isOpen ls) ->
  match c with
  | ClickAdd => True
  | ClickRow id | ClickVisible id | ClickLock id => In id (map l_id ls)
  | ClickDelete id => In id (map l_id ls) /\ (1 < length ls)%nat
  end.
Proof.
  unfold LayerManager. destruct isOpen; cbn [negb];
    [|intros Hc; inversion Hc].
  intros [<-|Hin]; [exact I|].
  apply in_flat_map in Hin. destruct Hin as (layer & Hl & Hc).
  apply in_rev in Hl. apply (in_map l_id) in Hl.
  apply in_app_or in Hc. destruct Hc as [Hc|Hc].
  - destruct Hc as [<-|[<-|[<-|[]]]]; exact Hl.
  - destruct (1 <? length ls)%nat eqn:Hlen; [|destruct Hc].
    destruct Hc as [<-|[]]. apply Nat.ltb_lt in Hlen. split; assumption.
Qed.

Lemma lastLayerId_last (ls : list Layer) (d : Layer) :
  ls <> [] -> lastLayerId ls = l_id (last ls d).
Proof.
  intros Hne. unfold lastLayerId.
  rewrite (nth_error_last ls d Hne). reflexivity.
Qed.

Lemma lastLayerId_top (ls : list Layer) :
  lastLayerId ls = match rev ls with
                   | top :: _ => l_id top
                   | [] => ""%string
                   end.
Proof.
  destruct ls as [|l ls'] using rev_ind; [reflexivity|].
  rewrite rev_app_distr. cbn [rev app].
  rewrite (lastLayerId_last _ l) by (intros H; destruct ls'; discriminate).
  rewrite last_last. reflexivity.
Qed.

Lemma filter_ids_NoDup (f : Layer -> bool) (ls : list Layer) :
  NoDup (map l_id ls) -> NoDup (map l_id (filter f ls)).
Proof.
  induction ls as [|l ls IH]; cbn; intros Hnd; [constructor|].
  inversion Hnd as [|? ? Hnotin Hrest]; subst.
  destruct (f l); cbn; [|apply IH; exact Hrest].
  constructor; [|apply IH; exact Hrest].
  intros Hin. apply Hnotin. apply in_map_iff in Hin.
  destruct Hin as (l' & <- & Hl'). apply filter_In in Hl'.
  apply in_map. apply Hl'.
Qed.

(** With distinct ids and more than one layer, some layer survives the
    deletion of any id. *)
Lemma other_layer_survives (id : string) (ls : list Layer) :
  NoDup (map l_id ls) -> (1 < length ls)%nat ->
  filter (fun l => negb (String.eqb (l_id l) id)) ls <> [].
Proof.
  intros Hnd Hlen.
  destruct ls as [|l1 [|l2 rest]]; cbn in Hlen; try lia.
  cbn [map] in Hnd. inversion Hnd as [|? ? Hnotin _]; subst.
  cbn [filter].
  destruct (String.eqb_spec (l_id l1) id) as [H1|H1]; cbn [negb];
    [|discriminate].
  destruct (String.eqb_spec (l_id l2) id) as [H2|H2]; cbn [negb];
    [|discriminate].
  exfalso. apply Hnotin. left. congruence.
Qed.

Lemma toggle_keeps_ids (g : Layer -> Layer) (ls : list Layer) :
  (forall l, l_id (g l) = l_id l) -> map l_id (map g ls) = map l_id ls.
Proof.
  intros Hg. rewrite map_map. apply map_ext. exact Hg.
Qed.

(** With distinct ids, deleting an id that a layer has removes that one
    layer and keeps the others in their order. *)
Lemma delete_removes_one (id : string) (ls : list Layer) :
  NoDup (map l_id ls) -> In id (map l_id ls) ->
  exists pre l post,
    ls = pre ++ l :: post /\ l_id l = id
    /\ filter (fun l => negb (String.eqb (l_id l) id)) ls = pre ++ post.
Proof.
  intros Hnd Hin. apply in_map_iff in Hin. destruct Hin as (l & Hid & Hl).
  apply in_split in Hl. destruct Hl as (pre & post & ->).
  exists pre, l, post. split; [reflexivity|]. split; [exact Hid|].
  rewrite map_app in Hnd. cbn [map] in Hnd.
  apply NoDup_remove_2 in Hnd. rewrite Hid in Hnd.
  rewrite filter_app. cbn [filter]. rewrite Hid, String.eqb_refl. cbn [negb].
  f_equal; apply filter_all; intros x Hx;
    apply negb_true_iff, String.eqb_neq; intros Heq; apply Hnd;
    apply in_or_app; [left|right]; rewrite <- Heq; apply in_map; exact Hx.
Qed.

(** C9, as the code has it.  Deleting an id removes every layer with that
    id and keeps the others in their order; when the active layer is the
    deleted one, the topmost remaining layer becomes active (the empty id
    if none remain), otherwise the active id stays.  The layer panel offers
    no delete control while a single layer is left.  With distinct layer
    ids, a deletion the panel offers removes exactly one layer, and every
    operation the panel offers leaves a layer, keeps the active-layer id
    among the ids of the layers, and keeps the ids distinct when a new
    layer gets a fresh id. *)
Theorem layer_operations_keep_active (s : AppState) (isOpen : bool)
    (newId : string) (c : LayerClick) :
  (forall id,
      layers (onDelete id s)
      = filter (fun l => negb (String.eqb (l_id l) id)) (layers s))
  /\ (forall id,
        activeLayerId s = id ->
        activeLayerId (onDelete id s)
        = match rev (layers (onDelete id s)) with
          | top :: _ => l_id top
          | [] => ""%string
          end)
  /\ (forall id,
        activeLayerId s <> id ->
        activeLayerId (onDelete id s) = activeLayerId s)
  /\ (forall id,
        (length (layers s) <= 1)%nat ->
        ~ In (ClickDelete id) (LayerManager isOpen (layers s)))
  /\ (layerIdsDistinct s ->
      In c (LayerManager isOpen (layers s)) ->
      layers (onLayerClick newId c s) <> []
      /\ (activeResolves s -> activeResolves (onLayerClick newId c s))
      /\ (~ In newId (map l_id (layers s)) ->
          layerIdsDistinct (onLayerClick newId c s))
      /\ (forall id,
            c = ClickDelete id ->
            exists pre l post,
              layers s = pre ++ l :: post /\ l_id l = id
              /\ layers (onDelete id s) = pre ++ post)).
Proof.
  split; [intros id; reflexivity|].
  split.
  { intros id Heq. unfold onDelete. cbn [activeLayerId layers set_layers].
    rewrite Heq, String.eqb_refl. apply lastLayerId_top. }
  split.
  { intros id Hneq. unfold onDelete. cbn [activeLayerId layers set_layers].
    apply String.eqb_neq in Hneq. rewrite Hneq. reflexivity. }
  split.
  { intros id Hlen Hdel. apply LayerManager_offers in Hdel. lia. }
  unfold layerIdsDistinct, activeResolves. intros Hnd Hin.
  pose proof (LayerManager_offers _ _ _ Hin) as Hoff.
  split; [|split; [|split]].
  - destruct c as [|id|id|id|id]; cbn [onLayerClick].
    + unfold addLayer. cbn [layers set_layers].
      intros Hnil. apply app_eq_nil in Hnil. destruct Hnil; discriminate.
    + unfold onSetActive. cbn [layers set_layers].
      intros Hnil. rewrite Hnil in Hoff. destruct Hoff.
    + unfold onToggleVisible. cbn [layers set_layers].
      intros Hnil. apply map_eq_nil in Hnil. rewrite Hnil in Hoff.
      destruct Hoff.
    + unfold onToggleLock. cbn [layers set_layers].
      intros Hnil. apply map_eq_nil in Hnil. rewrite Hnil in Hoff.
      destruct Hoff.
    + destruct Hoff as [_ Hlen]. unfold onDelete. cbn [layers set_layers].
      apply other_layer_survives; assumption.
  - intros Hact. destruct c as [|id|id|id|id]; cbn [onLayerClick].
    + unfold addLayer. cbn [activeLayerId layers set_layers l_id].
      rewrite map_app. apply in_or_app. right. left. reflexivity.
    + exact Hoff.
    + unfold onToggleVisible. cbn [activeLayerId layers set_layers].
      rewrite toggle_keeps_ids; [exact Hact|].
      intros l. destruct (String.eqb (l_id l) id); reflexivity.
    + unfold onToggleLock. cbn [activeLayerId layers set_layers].
      rewrite toggle_keeps_ids; [exact Hact|].
      intros l. destruct (String.eqb (l_id l) id); reflexivity.
    + destruct Hoff as [_ Hlen].
      unfold onDelete. cbn [activeLayerId layers set_layers].
      pose proof (other_layer_survives id (layers s) Hnd Hlen) as Hsurv.
      destruct (String.eqb_spec (activeLayerId s) id) as [Heq|Hneq].
      * rewrite (lastLayerId_last _ defaultLayer Hsurv).
        apply in_map.
        destruct (exists_last Hsurv) as (front & x & Hx).
        rewrite Hx, last_last. apply in_or_app. right. left. reflexivity.
      * apply in_map_iff in Hact. destruct Hact as (l & Hl & Hlin).
        apply in_map_iff. exists l. split; [exact Hl|].
        apply filter_In. split; [exact Hlin|].
        rewrite Hl. apply negb_true_iff, String.eqb_neq. exact Hneq.
  - intros Hfresh. destruct c as [|id|id|id|id]; cbn [onLayerClick].
    + unfold addLayer. cbn [layers set_layers]. rewrite map_app.
      cbn [map l_id]. apply NoDup_app; [exact Hnd|repeat constructor; auto|].
      intros x Hx [<-|[]]. contradiction.
    + exact Hnd.
    + unfold onToggleVisible. cbn [layers set_layers].
      rewrite toggle_keeps_ids; [exact Hnd|].
      intros l. destruct (String.eqb (l_id l) id); reflexivity.
    + unfold onToggleLock. cbn [layers set_layers].
      rewrite toggle_keeps_ids; [exact Hnd|].
      intros l. destruct (String.eqb (l_id l) id); reflexivity.
    + unfold onDelete. cbn [layers set_layers].
      apply filter_ids_NoDup. exact Hnd.
  - intros id ->. destruct Hoff as [Hid _].
    unfold onDelete. cbn [layers set_layers].
    apply delete_removes_one; assumption.
Qed.

Lemma layer_operations_keep_active_witness :
  layers (onLayerClick "layer-4" (ClickDelete "layer-3") threeLayerState)
  = [defaultLayer; upperLayer]
  /\ activeLayerId
       (onLayerClick "layer-4" (ClickDelete "layer-3") threeLayerState)
     = "layer-2"%string
  /\ activeResolves
       (onLayerClick "layer-4" (ClickDelete "layer-3") threeLayerState).
Proof.
  assert (Hnd : layerIdsDistinct threeLayerState).
  { unfold layerIdsDistinct. cbn.
    constructor; [intros [H|[H|[]]]; discriminate H|].
    constructor; [intros [H|[]]; discriminate H|].
    constructor; [intros []|constructor]. }
  assert (Hact : activeResolves threeLayerState)
    by (unfold activeResolves; cbn; right; right; left; reflexivity).
  assert (Hin : In (ClickDelete "layer-3")
                   (LayerManager true (layers threeLayerState)))
    by (cbn; auto 12).
  destruct (layer_operations_keep_active threeLayerState true "layer-4"
              (ClickDelete "layer-3"))
    as (Hrest & Htop & _ & _ & Hkeep).
  destruct (Hkeep Hnd Hin) as (_ & Hres & _ & _).
  split; [exact (Hrest "layer-3"%string)|].
  split; [exact (Htop "layer-3"%string eq_refl)|].
  exact (Hres Hact).
Defined.

(** C9 as stated fails when two layers have the same id, which a loaded
    file can bring: after loading a document whose two layers both have
    the id a, the active id resolves and the panel offers to delete a;
    the deletion removes both layers, so none remains, the active id is
    the empty marker, and it resolves to no layer. *)
Lemma repeated_layer_id_deletes_every_layer :
  snd (handleFileChange initialState (Some (JsonText twinLayerDocument))
                        false) = None
  /\ length (layers twinLayerState) = 2%nat
  /\ activeResolves twinLayerState
  /\ In (ClickDelete "a") (LayerManager true (layers twinLayerState))
  /\ layers (onLayerClick "b" (ClickDelete "a") twinLayerState) = []
  /\ activeLayerId (onLayerClick "b" (ClickDelete "a") twinLayerState)
     = ""%string
  /\ ~ activeResolves (onLayerClick "b" (ClickDelete "a") twinLayerState).
Proof.
  split; [reflexivity|]. split; [reflexivity|].
  split; [left; reflexivity|].
  split; [cbn; auto 12|].
  split; [reflexivity|]. split; [reflexivity|].
  intros [].
Qed.

(** * Further properties *)

(** Properties of the code beyond those the specification states: the
    geometry kernel as a metric, the shape of a resampled stroke, the
    eraser, whole pointer gestures, the history as an undo stack, the layer
    panel, saving and loading, what the renderers put on the canvas, and an
    invariant of every state the application reaches. *)

(** ** Geometry kernel *)

Lemma hypot_nonneg a b : 0 <= hypot a b.
Proof. apply sqrt_pos. Qed.

Lemma hypot_square a b : hypot a b * hypot a b = a * a + b * b.
Proof. apply sqrt_sqrt. nra. Qed.

Lemma hypot_le a b c d :
  a * a + b * b <= c * c + d * d -> hypot a b <= hypot c d.
Proof. intros H. apply sqrt_le_1_alt. exact H. Qed.

Lemma hypot_zero a b : hypot a b = 0 <-> a = 0 /\ b = 0.
Proof.
  split.
  - intros H. pose proof (hypot_square a b) as Hs. rewrite H in Hs.
    split; nra.
  - intros [-> ->]. unfold hypot.
    replace (0 * 0 + 0 * 0) with 0 by ring. apply sqrt_0.
Qed.

Lemma hypot_opp a b : hypot (- a) (- b) = hypot a b.
Proof. unfold hypot. f_equal. ring. Qed.

Lemma hypot_scale a b r : hypot (a * r) (b * r) = Rabs r * hypot a b.
Proof.
  unfold hypot.
  replace (a * r * (a * r) + b * r * (b * r))
    with (Rsqr r * (a * a + b * b)) by (unfold Rsqr; ring).
  rewrite sqrt_mult_alt by apply Rle_0_sqr.
  rewrite sqrt_Rsqr_abs. reflexivity.
Qed.

(** Triangle inequality for [hypot]. *)
Lemma hypot_triangle a b c d :
  hypot (a + c) (b + d) <= hypot a b + hypot c d.
Proof.
  pose proof (hypot_nonneg a b) as H1.
  pose proof (hypot_nonneg c d) as H2.
  pose proof (hypot_nonneg (a + c) (b + d)) as H3.
  pose proof (hypot_square a b) as S1.
  pose proof (hypot_square c d) as S2.
  pose proof (hypot_square (a + c) (b + d)) as S3.
  assert (Hcs : a * c + b * d <= hypot a b * hypot c d).
  { pose proof (Rmult_le_pos _ _ H1 H2) as Hprod.
    destruct (Rle_lt_dec (a * c + b * d) 0) as [Hn|Hp]; [lra|].
    apply Rsqr_incr_0_var; [|lra]. unfold Rsqr.
    replace (hypot a b * hypot c d * (hypot a b * hypot c d))
      with ((hypot a b * hypot a b) * (hypot c d * hypot c d)) by ring.
    rewrite S1, S2.
    pose proof (Rle_0_sqr (a * d - b * c)) as Hsq. unfold Rsqr in Hsq.
    nra. }
  apply Rsqr_incr_0_var; [|lra]. unfold Rsqr. nra.
Qed.

Lemma distance_symmetric (a b : Point) : distance a b = distance b a.
Proof. unfold distance. rewrite <- hypot_opp. f_equal; ring. Qed.

Lemma distance_triangle (a b c : Point) :
  distance a c <= distance a b + distance b c.
Proof.
  unfold distance.
  replace (pt_x a - pt_x c)
    with ((pt_x a - pt_x b) + (pt_x b - pt_x c)) by ring.
  replace (pt_y a - pt_y c)
    with ((pt_y a - pt_y b) + (pt_y b - pt_y c)) by ring.
  apply hypot_triangle.
Qed.

(** X1. distance is a metric on the x and y of its points: it is never
    negative, it is symmetric, it is zero exactly when the two points have
    the same x and the same y, and it satisfies the triangle inequality. *)
Theorem distance_metric (a b c : Point) :
  0 <= distance a b
  /\ distance a b = distance b a
  /\ (distance a b = 0 <-> pt_x a = pt_x b /\ pt_y a = pt_y b)
  /\ distance a c <= distance a b + distance b c.
Proof.
  split; [apply hypot_nonneg|]. split; [apply distance_symmetric|].
  split; [|apply distance_triangle].
  unfold distance. rewrite hypot_zero.
  split; intros [H1 H2]; split; lra.
Qed.

(** The clamped projection parameter minimises the squared distance along
    the segment. *)
Lemma clamped_parameter_minimal (a b dx dy T s : R) :
  0 < dx * dx + dy * dy ->
  T * (dx * dx + dy * dy) = a * dx + b * dy ->
  0 <= s <= 1 ->
  (a - Rmax 0 (Rmin 1 T) * dx) * (a - Rmax 0 (Rmin 1 T) * dx)
  + (b - Rmax 0 (Rmin 1 T) * dy) * (b - Rmax 0 (Rmin 1 T) * dy)
  <= (a - s * dx) * (a - s * dx) + (b - s * dy) * (b - s * dy).
Proof.
  intros Hl2 HT Hs.
  set (l2 := dx * dx + dy * dy) in *.
  set (tc := Rmax 0 (Rmin 1 T)).
  assert (Hdiff :
    (a - s * dx) * (a - s * dx) + (b - s * dy) * (b - s * dy)
    - ((a - tc * dx) * (a - tc * dx) + (b - tc * dy) * (b - tc * dy))
    = l2 * ((s - tc) * (s + tc - 2 * T))).
  { transitivity (2 * (tc - s) * (a * dx + b * dy) + (s * s - tc * tc) * l2).
    - unfold l2. ring.
    - rewrite <- HT. ring. }
  assert (Hsign : 0 <= (s - tc) * (s + tc - 2 * T)).
  { unfold tc, Rmax, Rmin.
    destruct (Rle_dec 1 T) as [H1|H1]; destruct (Rle_dec 0 _) as [H0|H0];
      try lra.
    - replace ((s - 1) * (s + 1 - 2 * T))
        with ((1 - s) * (2 * T - 1 - s)) by ring.
      apply Rmult_le_pos; lra.
    - replace ((s - T) * (s + T - 2 * T)) with ((s - T) * (s - T)) by ring.
      apply Rle_0_sqr.
    - replace (s + 0 - 2 * T) with (s - 2 * T) by ring.
      replace (s - 0) with s by ring.
      apply Rmult_le_pos; lra. }
  pose proof (Rmult_le_pos _ _ (Rlt_le _ _ Hl2) Hsign). lra.
Qed.

Lemma clamp01_range T : 0 <= Rmax 0 (Rmin 1 T) <= 1.
Proof.
  unfold Rmax, Rmin. destruct (Rle_dec 1 T); destruct (Rle_dec 0 _); lra.
Qed.

Lemma Reqb_true a b : Reqb a b = true <-> a = b.
Proof.
  unfold Reqb. destruct (Req_dec_T a b); split; intros; congruence.
Qed.

(** [distanceToSegment] is the distance to a point of the segment. *)
Lemma distanceToSegment_attained (p v w : Point) :
  exists t, 0 <= t <= 1
            /\ distanceToSegment p v w = distance p (pointAlong v w t).
Proof.
  unfold distanceToSegment.
  destruct (Reqb _ 0) eqn:Hdeg.
  - exists 0. split; [lra|]. unfold distance, pointAlong. cbn [pt_x pt_y].
    f_equal; ring.
  - exists (Rmax 0 (Rmin 1
              (((pt_x p - pt_x v) * (pt_x w - pt_x v)
                + (pt_y p - pt_y v) * (pt_y w - pt_y v))
               / ((pt_x v - pt_x w) ^ 2 + (pt_y v - pt_y w) ^ 2)))).
    split; [apply clamp01_range|reflexivity].
Qed.

(** No point of the segment is nearer. *)
Lemma distanceToSegment_least (p v w : Point) (s : R) :
  0 <= s <= 1 ->
  distanceToSegment p v w <= distance p (pointAlong v w s).
Proof.
  intros Hs. unfold distanceToSegment.
  set (l2 := (pt_x v - pt_x w) ^ 2 + (pt_y v - pt_y w) ^ 2).
  destruct (Reqb l2 0) eqn:Hdeg.
  - apply Reqb_true in Hdeg. unfold l2 in Hdeg.
    destruct (Rplus_sqr_eq_0 (pt_x v - pt_x w) (pt_y v - pt_y w)) as [Hx0 Hy0];
      [unfold Rsqr; lra|].
    assert (Hx : pt_x w - pt_x v = 0) by lra.
    assert (Hy : pt_y w - pt_y v = 0) by lra.
    unfold distance, pointAlong. cbn [pt_x pt_y]. rewrite Hx, Hy.
    apply hypot_le. apply Req_le. ring.
  - assert (Hne : l2 <> 0).
    { intros H0. apply Reqb_true in H0. congruence. }
    assert (Hl2 : l2 = (pt_x w - pt_x v) * (pt_x w - pt_x v)
                       + (pt_y w - pt_y v) * (pt_y w - pt_y v))
      by (unfold l2; ring).
    assert (Hpos : 0 < (pt_x w - pt_x v) * (pt_x w - pt_x v)
                       + (pt_y w - pt_y v) * (pt_y w - pt_y v)).
    { rewrite <- Hl2.
      assert (0 <= l2)
        by (unfold l2; pose proof (pow2_ge_0 (pt_x v - pt_x w));
            pose proof (pow2_ge_0 (pt_y v - pt_y w)); lra).
      lra. }
    unfold distance, pointAlong. cbn [pt_x pt_y].
    apply hypot_le.
    set (T := ((pt_x p - pt_x v) * (pt_x w - pt_x v)
               + (pt_y p - pt_y v) * (pt_y w - pt_y v)) / l2).
    pose proof (clamped_parameter_minimal
                  (pt_x p - pt_x v) (pt_y p - pt_y v)
                  (pt_x w - pt_x v) (pt_y w - pt_y v) T s Hpos) as Hmin.
    assert (HT : T * ((pt_x w - pt_x v) * (pt_x w - pt_x v)
                      + (pt_y w - pt_y v) * (pt_y w - pt_y v))
                 = (pt_x p - pt_x v) * (pt_x w - pt_x v)
                   + (pt_y p - pt_y v) * (pt_y w - pt_y v)).
    { rewrite <- Hl2. unfold T. field. exact Hne. }
    specialize (Hmin HT Hs). nra.
Qed.

Lemma distance_coordinates (p q q' : Point) :
  pt_x q = pt_x q' -> pt_y q = pt_y q' -> distance p q = distance p q'.
Proof. intros Hx Hy. unfold distance. rewrite Hx, Hy. reflexivity. Qed.

(** X2. distanceToSegment(p, v, w) is the distance from p to a point of the
    segment from v to w, and no point of that segment is nearer to p: it is
    the least distance from p to the segment, also when v and w coincide. *)
Theorem distanceToSegment_nearest_point (p v w : Point) :
  (exists t, 0 <= t <= 1
             /\ distanceToSegment p v w = distance p (pointAlong v w t))
  /\ (forall s, 0 <= s <= 1 ->
        distanceToSegment p v w <= distance p (pointAlong v w s)).
Proof.
  split; [apply distanceToSegment_attained|].
  intros s Hs. apply distanceToSegment_least. exact Hs.
Qed.

(** X3. distanceToSegment is never negative, never more than the distance
    from p to either endpoint, the same when the two endpoints are swapped,
    and equal to distance(p, v) when the endpoints have the same
    coordinates. *)
Theorem distanceToSegment_endpoints (p v w : Point) :
  0 <= distanceToSegment p v w
  /\ distanceToSegment p v w <= distance p v
  /\ distanceToSegment p v w <= distance p w
  /\ distanceToSegment p v w = distanceToSegment p w v
  /\ (pt_x v = pt_x w -> pt_y v = pt_y w ->
      distanceToSegment p v w = distance p v).
Proof.
  assert (Hflip : forall a b t,
            distance p (pointAlong a b t) = distance p (pointAlong b a (1 - t))).
  { intros a b t. apply distance_coordinates; cbn [pointAlong pt_x pt_y]; ring. }
  assert (Hle : forall a b, distanceToSegment p a b <= distanceToSegment p b a).
  { intros a b. destruct (distanceToSegment_attained p b a) as (t & Ht & ->).
    rewrite Hflip. apply distanceToSegment_least. lra. }
  split; [|split; [|split; [|split]]].
  - destruct (distanceToSegment_attained p v w) as (t & _ & ->).
    unfold distance. apply hypot_nonneg.
  - rewrite (distance_coordinates p v (pointAlong v w 0))
      by (cbn [pointAlong pt_x pt_y]; ring).
    apply distanceToSegment_least. lra.
  - rewrite (distance_coordinates p w (pointAlong v w 1))
      by (cbn [pointAlong pt_x pt_y]; ring).
    apply distanceToSegment_least. lra.
  - apply Rle_antisym; apply Hle.
  - intros Hx Hy. destruct (distanceToSegment_attained p v w) as (t & _ & ->).
    apply distance_coordinates; cbn [pointAlong pt_x pt_y];
      rewrite ?Hx, ?Hy; ring.
Qed.

(** ** Stroke resampling, continued *)

Lemma stepsBetween_bound (p0 p1 : Point) :
  (1 <= stepsBetween p0 p1)%Z
  /\ distance p0 p1 < 2 * IZR (stepsBetween p0 p1).
Proof.
  unfold stepsBetween.
  pose proof (Zfloor_bound (distance p0 p1 / 2)) as [Hlo Hhi].
  assert (Hd : 0 <= distance p0 p1) by apply hypot_nonneg.
  assert (H0 : (0 <= Zfloor (distance p0 p1 / 2))%Z).
  { apply Zfloor_lub. cbn. lra. }
  split; [lia|]. rewrite plus_IZR. cbn. lra.
Qed.

Lemma interpolant_ratio (p0 p1 : Point) (t steps : Z) :
  (0 < t < steps)%Z -> 0 < IZR t / IZR steps < 1.
Proof.
  intros [H0 H1].
  assert (Ht : 0 < IZR t) by (apply IZR_lt in H0; exact H0).
  assert (Hs : IZR t < IZR steps) by (apply IZR_lt; exact H1).
  split.
  - apply Rdiv_lt_0_compat; lra.
  - apply Rmult_lt_reg_r with (IZR steps); [lra|].
    unfold Rdiv. rewrite Rmult_assoc, Rinv_l by lra. lra.
Qed.

Lemma between_convex (a b r : R) :
  0 <= r <= 1 -> Rmin a b <= a + (b - a) * r <= Rmax a b.
Proof.
  intros Hr. unfold Rmin, Rmax. destruct (Rle_dec a b); split; nra.
Qed.

(** X4. Every point the inner loop of getSplinePoints builds (0 < t < steps)
    lies on the segment between p0 and p1: its x and its y are between
    theirs, its distances to p0 and to p1 add up to distance(p0, p1), and it
    has a pressure, between the two endpoint pressures (a missing or zero
    pressure counting as 0.5). *)
Theorem interpolant_between_endpoints (p0 p1 : Point) (t steps : Z) :
  (0 < t < steps)%Z ->
  Rmin (pt_x p0) (pt_x p1) <= pt_x (interpolant p0 p1 t steps)
    <= Rmax (pt_x p0) (pt_x p1)
  /\ Rmin (pt_y p0) (pt_y p1) <= pt_y (interpolant p0 p1 t steps)
     <= Rmax (pt_y p0) (pt_y p1)
  /\ (exists pr,
        pt_pressure (interpolant p0 p1 t steps) = Some pr
        /\ Rmin (opt_or (pt_pressure p0) (1/2)) (opt_or (pt_pressure p1) (1/2))
           <= pr
           <= Rmax (opt_or (pt_pressure p0) (1/2))
                   (opt_or (pt_pressure p1) (1/2)))
  /\ distance p0 (interpolant p0 p1 t steps)
     + distance (interpolant p0 p1 t steps) p1 = distance p0 p1.
Proof.
  intros Ht. pose proof (interpolant_ratio p0 p1 t steps Ht) as Hr.
  unfold interpolant. cbn [pt_x pt_y pt_pressure].
  set (r := IZR t / IZR steps) in *.
  split; [apply between_convex; lra|].
  split; [apply between_convex; lra|].
  split.
  - eexists. split; [reflexivity|]. apply between_convex. lra.
  - unfold distance. cbn [pt_x pt_y].
    replace (pt_x p0 - (pt_x p0 + (pt_x p1 - pt_x p0) * r))
      with ((pt_x p0 - pt_x p1) * r) by ring.
    replace (pt_y p0 - (pt_y p0 + (pt_y p1 - pt_y p0) * r))
      with ((pt_y p0 - pt_y p1) * r) by ring.
    replace (pt_x p0 + (pt_x p1 - pt_x p0) * r - pt_x p1)
      with ((pt_x p0 - pt_x p1) * (1 - r)) by ring.
    replace (pt_y p0 + (pt_y p1 - pt_y p0) * r - pt_y p1)
      with ((pt_y p0 - pt_y p1) * (1 - r)) by ring.
    rewrite !hypot_scale, !Rabs_right by lra. ring.
Qed.

Lemma interpolant_between_endpoints_witness :
  Rmin (pt_x ptB) (pt_x ptD) <= pt_x (interpolant ptB ptD 1 3)
  <= Rmax (pt_x ptB) (pt_x ptD).
Proof.
  apply (interpolant_between_endpoints ptB ptD 1 3). lia.
Defined.

(** Two points at the ratios [r1] and [r2] on the way from [p0] to [p1]. *)
Lemma distance_along (p0 p1 a b : Point) (r1 r2 : R) :
  pt_x a = pt_x p0 + (pt_x p1 - pt_x p0) * r1 ->
  pt_y a = pt_y p0 + (pt_y p1 - pt_y p0) * r1 ->
  pt_x b = pt_x p0 + (pt_x p1 - pt_x p0) * r2 ->
  pt_y b = pt_y p0 + (pt_y p1 - pt_y p0) * r2 ->
  distance a b = Rabs (r2 - r1) * distance p0 p1.
Proof.
  intros Hax Hay Hbx Hby. unfold distance. rewrite Hax, Hay, Hbx, Hby.
  replace (pt_x p0 + (pt_x p1 - pt_x p0) * r1
           - (pt_x p0 + (pt_x p1 - pt_x p0) * r2))
    with ((pt_x p0 - pt_x p1) * (r2 - r1)) by ring.
  replace (pt_y p0 + (pt_y p1 - pt_y p0) * r1
           - (pt_y p0 + (pt_y p1 - pt_y p0) * r2))
    with ((pt_y p0 - pt_y p1) * (r2 - r1)) by ring.
  apply hypot_scale.
Qed.

(** One step of [1/steps] along the way is shorter than 2. *)
Lemma step_shorter_than_two (p0 p1 a b : Point) (t : Z) :
  let steps := stepsBetween p0 p1 in
  pt_x a = pt_x p0 + (pt_x p1 - pt_x p0) * (IZR t / IZR steps) ->
  pt_y a = pt_y p0 + (pt_y p1 - pt_y p0) * (IZR t / IZR steps) ->
  pt_x b = pt_x p0 + (pt_x p1 - pt_x p0) * (IZR (t + 1) / IZR steps) ->
  pt_y b = pt_y p0 + (pt_y p1 - pt_y p0) * (IZR (t + 1) / IZR steps) ->
  distance a b < 2.
Proof.
  intros steps Hax Hay Hbx Hby.
  rewrite (distance_along p0 p1 a b _ _ Hax Hay Hbx Hby).
  destruct (stepsBetween_bound p0 p1) as [H1 Hd]. fold steps in H1, Hd.
  assert (Hs : 1 <= IZR steps) by (apply IZR_le in H1; exact H1).
  replace (IZR (t + 1) / IZR steps - IZR t / IZR steps) with (/ IZR steps)
    by (rewrite plus_IZR; field; lra).
  rewrite Rabs_right by (apply Rle_ge, Rlt_le, Rinv_0_lt_compat; lra).
  apply Rmult_lt_reg_l with (IZR steps); [lra|].
  rewrite <- Rmult_assoc, Rinv_r, Rmult_1_l by lra. lra.
Qed.

Lemma neighboursWithin_tail b p l :
  neighboursWithin b (p :: l) -> neighboursWithin b l.
Proof. destruct l as [|q l]; cbn; [auto|intros [_ H]; exact H]. Qed.

Lemma neighboursWithin_join b (l1 l2 : list Point) (x : Point) :
  neighboursWithin b (l1 ++ [x]) -> neighboursWithin b (x :: l2) ->
  neighboursWithin b (l1 ++ x :: l2).
Proof.
  induction l1 as [|p l1 IH]; intros H1 H2; [exact H2|].
  destruct l1 as [|q l1].
  - cbn in H1 |- *. destruct H1 as [Hd _]. split; [exact Hd|exact H2].
  - cbn [app] in *. destruct H1 as [Hd H1]. split; [exact Hd|].
    apply IH; assumption.
Qed.

(** From a point at step [t], through the interpolants of the steps after
    it, to [p1]: every hop is shorter than 2. *)
Lemma interpolants_chain (p0 p1 : Point) (k : nat) :
  forall (t : nat) (a : Point),
    Z.of_nat (t + k + 1) = stepsBetween p0 p1 ->
    pt_x a = pt_x p0 + (pt_x p1 - pt_x p0)
                       * (IZR (Z.of_nat t) / IZR (stepsBetween p0 p1)) ->
    pt_y a = pt_y p0 + (pt_y p1 - pt_y p0)
                       * (IZR (Z.of_nat t) / IZR (stepsBetween p0 p1)) ->
    neighboursWithin 2
      (a :: map (fun i => interpolant p0 p1 (Z.of_nat i) (stepsBetween p0 p1))
                (seq (S t) k) ++ [p1]).
Proof.
  induction k as [|k IH]; intros t a Hsum Hax Hay.
  - cbn [seq map app neighboursWithin]. split; [|exact I].
    apply (step_shorter_than_two p0 p1 a p1 (Z.of_nat t)); try assumption.
    + replace (Z.of_nat t + 1)%Z with (stepsBetween p0 p1) by lia.
      destruct (stepsBetween_bound p0 p1) as [H1 _]. apply IZR_le in H1.
      field. cbn in H1. lra.
    + replace (Z.of_nat t + 1)%Z with (stepsBetween p0 p1) by lia.
      destruct (stepsBetween_bound p0 p1) as [H1 _]. apply IZR_le in H1.
      field. cbn in H1. lra.
  - cbn [seq map app]. cbn [neighboursWithin]. split.
    + apply (step_shorter_than_two p0 p1 a _ (Z.of_nat t)); try assumption;
        cbn [interpolant pt_x pt_y];
        replace (Z.of_nat t + 1)%Z with (Z.of_nat (S t)) by lia; reflexivity.
    + apply IH; [lia|reflexivity|reflexivity].
Qed.

Lemma pairSegment_chain (c0 c1 : Point) :
  neighboursWithin 2 (c0 :: interpolantsBetween c0 c1 ++ [c1]).
Proof.
  unfold interpolantsBetween.
  destruct (stepsBetween_bound c0 c1) as [H1 _].
  apply (interpolants_chain c0 c1 (Z.to_nat (stepsBetween c0 c1 - 1)) 0 c0).
  - lia.
  - cbn. unfold Rdiv. rewrite Rmult_0_l, Rmult_0_r, Rplus_0_r. reflexivity.
  - cbn. unfold Rdiv. rewrite Rmult_0_l, Rmult_0_r, Rplus_0_r. reflexivity.
Qed.

(** The middle part of a resampled stroke, built from the first [k] pairs:
    every hop is shorter than 2, and it ends with the point at index
    [k + 1]. *)
Lemma middle_chain (points : list Point) (k : nat) :
  (k + 2 < length points)%nat ->
  neighboursWithin 2
    (flat_map (pairSegment (fun p => p) (fun p => p) points) (seq 1 k))
  /\ (forall c, (1 <= k)%nat -> nth_error points (k + 1) = Some c ->
        exists front,
          flat_map (pairSegment (fun p => p) (fun p => p) points) (seq 1 k)
          = front ++ [c]).
Proof.
  induction k as [|k IH]; intros Hlen.
  - cbn. split; [exact I|]. intros c Hk. lia.
  - destruct IH as [IHc IHl]; [lia|].
    rewrite seq_S, flat_map_app. cbn [flat_map]. rewrite app_nil_r.
    unfold pairSegment at 2 4.
    destruct (nth_error points (1 + k)) as [c0|] eqn:E0;
      [|apply nth_error_None in E0; lia].
    destruct (nth_error points (1 + k + 1)) as [c1|] eqn:E1;
      [|apply nth_error_None in E1; lia].
    rewrite map_id.
    split.
    + destruct k as [|k'].
      * cbn [seq flat_map app].
        apply (neighboursWithin_tail 2 c0). apply pairSegment_chain.
      * destruct (IHl c0) as (front & Hfront); [lia| |].
        { rewrite <- E0. f_equal. lia. }
        rewrite Hfront in IHc |- *. rewrite <- app_assoc. cbn [app].
        apply neighboursWithin_join; [exact IHc|].
        apply pairSegment_chain.
    + intros c _ Hc.
      replace (S k + 1)%nat with (1 + k + 1)%nat in Hc by lia.
      rewrite E1 in Hc. injection Hc as <-.
      exists (flat_map (pairSegment (fun p => p) (fun p => p) points) (seq 1 k)
              ++ interpolantsBetween c0 c1).
      rewrite <- app_assoc. reflexivity.
Qed.

(** X5. For an input of three or more points, the result of getSplinePoints
    without its first and its last point has every two neighbours less than
    2 apart, whatever the distances between the input points. *)
Theorem resample_gap_bound (points : list Point) :
  (3 <= length points)%nat ->
  neighboursWithin 2 (removelast (tl (getSplinePoints points))).
Proof.
  intros Hlen. unfold getSplinePoints.
  rewrite getSplinePointsOn_densified by exact Hlen.
  destruct points as [|first rest]; [cbn in Hlen; lia|].
  unfold densified. cbn [app tl].
  rewrite removelast_last.
  apply middle_chain. cbn [length] in *. lia.
Qed.

Lemma resample_gap_bound_witness :
  neighboursWithin 2 (removelast (tl (getSplinePoints [ptA; ptB; ptC; ptD]))).
Proof. apply resample_gap_bound. cbn. lia. Defined.

Lemma firstn_snoc {A} (m : list A) (k : nat) (x : A) :
  nth_error m k = Some x -> firstn (S k) m = firstn k m ++ [x].
Proof.
  revert k. induction m as [|a m IH]; intros k Hk.
  - destruct k; discriminate.
  - destruct k as [|k]; cbn in Hk |- *.
    + injection Hk as <-. reflexivity.
    + f_equal. apply IH. exact Hk.
Qed.

Lemma nth_error_skipn {A} (l : list A) (n i : nat) :
  nth_error (skipn n l) i = nth_error l (n + i).
Proof.
  revert l. induction n as [|n IH]; intros l; [reflexivity|].
  destruct l as [|a l]; [destruct i; reflexivity|]. apply IH.
Qed.

Lemma input_objects_of_pairs (objs : list (Origin * Point)) (k : nat) :
  (k + 2 < length objs)%nat ->
  forallb isInputObject objs = true ->
  filter isInputObject
    (flat_map (pairSegment snd (fun p => (Built, p)) objs) (seq 1 k))
  = firstn k (skipn 2 objs).
Proof.
  intros Hlen Hall. induction k as [|k IH]; [reflexivity|].
  rewrite seq_S, flat_map_app, filter_app, IH by lia.
  cbn [flat_map]. rewrite app_nil_r. unfold pairSegment.
  destruct (nth_error objs (1 + k)) as [c0|] eqn:E0;
    [|apply nth_error_None in E0; lia].
  destruct (nth_error objs (1 + k + 1)) as [c1|] eqn:E1;
    [|apply nth_error_None in E1; lia].
  rewrite filter_app.
  assert (Hbuilt : filter isInputObject
                     (map (fun p => (Built, p))
                          (interpolantsBetween (snd c0) (snd c1))) = []).
  { induction (interpolantsBetween (snd c0) (snd c1)) as [|q qs IHq];
      [reflexivity|exact IHq]. }
  rewrite Hbuilt. cbn [app filter].
  assert (Hc1 : isInputObject c1 = true).
  { rewrite forallb_forall in Hall. apply Hall.
    apply nth_error_In with (1 + k + 1)%nat. exact E1. }
  rewrite Hc1. symmetry. apply firstn_snoc.
  rewrite nth_error_skipn, <- E1. f_equal. lia.
Qed.

Lemma asObjectsFrom_inputs i points :
  forallb isInputObject (asObjectsFrom i points) = true.
Proof.
  revert i. induction points as [|p rest IH]; intros i; [reflexivity|].
  cbn. apply IH.
Qed.

Lemma asObjectsFrom_length i points :
  length (asObjectsFrom i points) = length points.
Proof.
  rewrite <- (asObjectsFrom_values i points) at 2.
  rewrite length_map. reflexivity.
Qed.

Lemma input_objects_survive (objs : list (Origin * Point)) :
  (3 <= length objs)%nat ->
  forallb isInputObject objs = true ->
  filter isInputObject (getSplinePointsOn snd (fun p => (Built, p)) objs)
  = firstn 1 objs ++ skipn 2 objs.
Proof.
  intros H3 Hall.
  rewrite getSplinePointsOn_densified by exact H3.
  destruct objs as [|first rest]; [cbn in H3; lia|].
  unfold densified. rewrite !filter_app.
  rewrite input_objects_of_pairs by (try exact Hall; lia).
  assert (Hfirst : isInputObject first = true).
  { cbn in Hall. apply andb_true_iff in Hall. apply Hall. }
  assert (Hlast : isInputObject (last (first :: rest) first) = true).
  { rewrite forallb_forall in Hall. apply Hall.
    destruct (@exists_last _ (first :: rest)) as (fr & x & Heq);
      [discriminate|].
    rewrite Heq, last_last. apply in_or_app. right. left. reflexivity. }
  cbn [filter]. rewrite Hfirst, Hlast. cbn [firstn app]. f_equal.
  set (m := skipn 2 (first :: rest)).
  assert (Hm : length m = (length (first :: rest) - 2)%nat)
    by (unfold m; apply length_skipn).
  assert (Hmne : m <> []).
  { intros E. apply (f_equal (@length _)) in E. rewrite Hm in E.
    cbn [length] in E, H3. lia. }
  replace (length (first :: rest) - 3)%nat with (pred (length m)) by lia.
  rewrite <- removelast_firstn_len.
  replace (last (first :: rest) first) with (last m first).
  - symmetry. apply app_removelast_last. exact Hmne.
  - unfold m. destruct rest as [|b [|c rest']]; cbn in H3; try lia.
    reflexivity.
Qed.

(** X6. For an input of three or more points, the input objects found in the
    result of getSplinePoints are, in order and once each, the first point
    and the points from the third on: the second input point is never
    returned, and everything else in the result is a newly built point. *)
Theorem resample_drops_second_point (points : list Point) :
  (3 <= length points)%nat ->
  filter isInputObject (getSplineObjects points)
  = firstn 1 (asObjects points) ++ skipn 2 (asObjects points).
Proof.
  intros Hlen. apply input_objects_survive.
  - pose proof (asObjectsFrom_length 0 points) as Hl.
    unfold asObjects. etransitivity; [exact Hlen|].
    apply Nat.eq_le_incl. symmetry. exact Hl.
  - apply asObjectsFrom_inputs.
Qed.

Lemma resample_drops_second_point_witness :
  filter isInputObject (getSplineObjects [ptA; ptB; ptC; ptD])
  = [(Input 0, ptA); (Input 2, ptC); (Input 3, ptD)].
Proof.
  apply (resample_drops_second_point [ptA; ptB; ptC; ptD]). cbn. lia.
Defined.

(** ** Eraser engine, continued *)

Lemma eraserKeeps_depends (s s' : AppState) pos el :
  currentSize s' = currentSize s -> activeLayerId s' = activeLayerId s ->
  eraserKeeps s' pos el = eraserKeeps s pos el.
Proof. intros Hs Ha. unfold eraserKeeps. rewrite Hs, Ha. reflexivity. Qed.

Lemma filter_idempotent {A} (f : A -> bool) (l : list A) :
  filter f (filter f l) = filter f l.
Proof.
  induction l as [|a l IH]; [reflexivity|].
  cbn. destruct (f a) eqn:E; cbn; rewrite ?E, IH; reflexivity.
Qed.

Lemma filter_commute {A} (f g : A -> bool) (l : list A) :
  filter f (filter g l) = filter g (filter f l).
Proof.
  induction l as [|a l IH]; [reflexivity|].
  cbn. destruct (f a) eqn:Ef, (g a) eqn:Eg; cbn; rewrite ?Ef, ?Eg, ?IH;
    reflexivity.
Qed.

Lemma eraseAt_frame s pos :
  currentSize (eraseAt s pos) = currentSize s
  /\ activeLayerId (eraseAt s pos) = activeLayerId s
  /\ layers (eraseAt s pos) = layers s
  /\ history (eraseAt s pos) = history s
  /\ historyStep (eraseAt s pos) = historyStep s
  /\ viewOf (eraseAt s pos) = viewOf s
  /\ selectedTool (eraseAt s pos) = selectedTool s.
Proof.
  unfold eraseAt. destruct (negb _); repeat split.
Qed.

(** X7. One eraser pass at a position is idempotent, keeps the history, the
    history cursor, the layers and the view, never lengthens the element
    list, and leaves the elements of every layer other than the active one
    as they are, in order. *)
Theorem eraser_pass_effects (s : AppState) (pos : Point) :
  eraseAt (eraseAt s pos) pos = eraseAt s pos
  /\ history (eraseAt s pos) = history s
  /\ historyStep (eraseAt s pos) = historyStep s
  /\ layers (eraseAt s pos) = layers s
  /\ viewOf (eraseAt s pos) = viewOf s
  /\ (length (elements (eraseAt s pos)) <= length (elements s))%nat
  /\ filter (fun el => negb (String.eqb (el_layerId el) (activeLayerId s)))
            (elements (eraseAt s pos))
     = filter (fun el => negb (String.eqb (el_layerId el) (activeLayerId s)))
              (elements s).
Proof.
  destruct (eraseAt_frame s pos) as (Hsz & Hact & Hl & Hh & Hs & Hv & _).
  split; [|repeat split; try assumption].
  - unfold eraseAt at 1. unfold elementsToKeep.
    rewrite eraseAt_elements.
    replace (filter (eraserKeeps (eraseAt s pos) pos)
                    (filter (eraserKeeps s pos) (elements s)))
      with (filter (eraserKeeps s pos) (elements s)).
    + rewrite Nat.eqb_refl. reflexivity.
    + rewrite (filter_ext (eraserKeeps (eraseAt s pos) pos)
                          (eraserKeeps s pos))
        by (intros el; apply eraserKeeps_depends; assumption).
      symmetry. apply filter_idempotent.
  - rewrite eraseAt_elements. apply filter_length_le.
  - rewrite eraseAt_elements, filter_commute.
    apply filter_all. intros el Hin. apply filter_In in Hin.
    destruct Hin as [_ Hother]. unfold eraserKeeps. rewrite Hother.
    reflexivity.
Qed.

Lemma Rltb_false a b : Rltb a b = false <-> b <= a.
Proof.
  unfold Rltb. destruct (Rlt_dec a b); split; intros; try lra; congruence.
Qed.

(** X8. The eraser is monotone in the brush size: with the same active
    layer, an element that the eraser removes at a position under one size
    is removed at that position under every larger size. *)
Theorem eraser_grows_with_size (s1 s2 : AppState) (pos : Point)
    (el : CanvasElement) :
  activeLayerId s1 = activeLayerId s2 ->
  currentSize s1 <= currentSize s2 ->
  erased s1 pos el -> erased s2 pos el.
Proof.
  unfold erased, eraserKeeps. intros Hact Hsz. rewrite <- Hact.
  destruct (negb (String.eqb (el_layerId el) (activeLayerId s1)));
    [discriminate|].
  assert (Hmax : Rmax 5 (currentSize s1) <= Rmax 5 (currentSize s2))
    by (apply Rle_max_compat_l; exact Hsz).
  destruct (el_type el), (el_points el) as [pts|], (el_x el) as [ex|],
    (el_y el) as [ey|], (el_width el) as [w|], (el_height el) as [h|];
    try discriminate; try reflexivity;
    try (rewrite !Rgtb_false; lra).
  all: rewrite !negb_false_iff, !existsb_exists;
    intros (p & Hin & Hlt); exists p; (split; [exact Hin|]);
    apply Rltb_true in Hlt; apply Rltb_true; lra.
Qed.

Lemma sampleRect_erased :
  erased initialState (mkPoint 10 1 None) sampleRect.
Proof.
  unfold erased, eraserKeeps.
  cbn [el_layerId el_type el_points el_x el_y el_width el_height
       sampleRect activeLayerId initialState negb].
  change (("layer-1" =? "layer-1")%string) with true. cbn [negb].
  apply Rgtb_false.
  change (distance (mkPoint (0 + 2 / 2) (0 + 2 / 2) None)
                   (mkPoint 10 1 None)
          <= Rmax (Rabs 2) (Rabs 2) / 2 + currentSize initialState * 2).
  rewrite sampleRect_centroid_distance, sampleRect_bound. lra.
Qed.

Lemma eraser_grows_with_size_witness :
  erased (setSize 6 initialState) (mkPoint 10 1 None) sampleRect.
Proof.
  apply (eraser_grows_with_size initialState (setSize 6 initialState));
    [reflexivity|cbn; lra|exact sampleRect_erased].
Defined.

(** X9. A line element of the active layer with all its fields present is
    removed as soon as some point of the drawn segment is within 10 units of
    the eraser position, for every brush size. *)
Theorem eraser_hits_line_near_cursor (s : AppState) (pos : Point)
    (el : CanvasElement) (ex ey w h t : R) :
  el_layerId el = activeLayerId s ->
  el_type el = line ->
  el_x el = Some ex -> el_y el = Some ey ->
  el_width el = Some w -> el_height el = Some h ->
  0 <= t <= 1 ->
  distance pos (pointAlong (mkPoint ex ey None)
                           (mkPoint (ex + w) (ey + h) None) t) <= 10 ->
  erased s pos el.
Proof.
  intros Hact Hty Hx Hy Hw Hh Ht Hnear.
  unfold erased, eraserKeeps.
  rewrite Hact, String.eqb_refl, Hty, Hx, Hy, Hw, Hh. cbn [negb].
  destruct (el_points el); apply Rgtb_false;
    (eapply Rle_trans; [apply (distanceToSegment_least _ _ _ t Ht)|]);
    pose proof (Rmax_l 5 (currentSize s)); lra.
Qed.

Lemma hypot_le_bound a b r : 0 <= r -> a * a + b * b <= r * r -> hypot a b <= r.
Proof.
  intros Hr H. rewrite <- (sqrt_square r Hr). apply sqrt_le_1_alt. exact H.
Qed.

(** ** View transform, continued *)

Lemma set_view_same (s : AppState) : set_view s (zoom s) (pan s) = s.
Proof. destruct s; reflexivity. Qed.

(** X10. While dragging with the move tool, a pointer move adds the screen
    displacement since the last sample to the pan, so the world point under
    the pointer stays the one that was under the last sample; zoom, elements
    and history are untouched and the sample becomes the last position. *)
Theorem pan_drag_follows_pointer (rect : DOMRect) (s : AppState)
    (ui : Interaction) (e : PointerEvent) (lx ly : R) :
  isDrawing ui = true ->
  selectedTool s = Tmove ->
  lastPointerPos ui = Some (lx, ly) ->
  screenToWorld (Some rect) (fst (handlePointerMove (Some rect) (s, ui) e))
                (pe_clientX e) (pe_clientY e)
    = screenToWorld (Some rect) s lx ly
  /\ pan (fst (handlePointerMove (Some rect) (s, ui) e))
     = mkPan (pan_x (pan s) + (pe_clientX e - lx))
             (pan_y (pan s) + (pe_clientY e - ly))
  /\ zoom (fst (handlePointerMove (Some rect) (s, ui) e)) = zoom s
  /\ elements (fst (handlePointerMove (Some rect) (s, ui) e)) = elements s
  /\ history (fst (handlePointerMove (Some rect) (s, ui) e)) = history s
  /\ lastPointerPos (snd (handlePointerMove (Some rect) (s, ui) e))
     = Some (pe_clientX e, pe_clientY e).
Proof.
  intros Hd Ht Hl. unfold handlePointerMove. rewrite Hd, Ht, Hl.
  cbn [negb fst snd]. repeat split.
  unfold screenToWorld. cbn [zoom pan set_view pan_x pan_y].
  f_equal; f_equal; ring.
Qed.

Lemma pan_drag_follows_pointer_witness :
  pan (fst (handlePointerMove (Some (mkRect 0 0))
              (withTool Tmove initialState,
               mkUI true [] None None (Some (1, 2)))
              (pointerAt 4 6)))
  = mkPan (0 + (4 - 1)) (0 + (6 - 2)).
Proof.
  apply (pan_drag_follows_pointer (mkRect 0 0) (withTool Tmove initialState)
           (mkUI true [] None None (Some (1, 2))) (pointerAt 4 6) 1 2);
    reflexivity.
Defined.

Lemma clampZoom_inside z : 1/10 <= z <= 5 -> clampZoom z = z.
Proof.
  intros Hz. unfold clampZoom, Rmin, Rmax.
  destruct (Rle_dec (1/10) z); destruct (Rle_dec _ 5); lra.
Qed.

Lemma changeZoom_back (W H : R) (s : AppState) (d : R) :
  zoom s <> 0 ->
  1/10 <= zoom s + d <= 5 ->
  1/10 <= zoom s <= 5 ->
  changeZoom W H (changeZoom W H s d) (- d) = s.
Proof.
  intros Hz Hin Hs.
  unfold changeZoom. cbn [zoom pan set_view pan_x pan_y].
  rewrite (clampZoom_inside (zoom s + d)) by exact Hin.
  replace (zoom s + d + - d) with (zoom s) by ring.
  rewrite (clampZoom_inside (zoom s)) by exact Hs.
  destruct s as [els ls act tool col sz z [px py] h st].
  cbn [zoom pan set_view pan_x pan_y elements layers activeLayerId
       selectedTool currentColor currentSize history historyStep] in *.
  unfold set_view. cbn.
  assert (Hzd : z + d <> 0) by lra.
  f_equal. f_equal; field; split; assumption.
Qed.

(** X11. After a wheel zoom (ctrl or meta held) and after a toolbar zoom the
    zoom is in [0.1, 5], whatever it was before. Zoom-in followed by zoom-
    out gives back the whole state when the zoom started in [0.1, 4.9], and
    zoom-out followed by zoom-in when it started in [0.2, 5] (exact
    arithmetic). *)
Theorem zoom_stays_in_range_and_reverts :
  (forall rect s e,
      wh_ctrlKey e || wh_metaKey e = true ->
      1/10 <= zoom (handleWheel rect s e) <= 5)
  /\ (forall W H s delta, 1/10 <= zoom (changeZoom W H s delta) <= 5)
  /\ (forall W H s,
        1/10 <= zoom s <= 49/10 ->
        changeZoom W H (changeZoom W H s (1/10)) (- (1/10)) = s)
  /\ (forall W H s,
        2/10 <= zoom s <= 5 ->
        changeZoom W H (changeZoom W H s (- (1/10))) (1/10) = s).
Proof.
  split; [|split; [|split]].
  - intros rect s e Hk. unfold handleWheel. rewrite Hk.
    cbn [zoom set_view]. apply clampZoom_range.
  - intros W H s delta. apply clampZoom_range.
  - intros W H s Hz. apply changeZoom_back; lra.
  - intros W H s Hz.
    replace (1/10) with (- - (1/10)) at 2 by ring.
    apply changeZoom_back; lra.
Qed.

Lemma zoom_stays_in_range_and_reverts_witness :
  changeZoom 800 600 (changeZoom 800 600 initialState (1/10)) (- (1/10))
  = initialState.
Proof.
  destruct zoom_stays_in_range_and_reverts as (_ & _ & Hback & _).
  apply Hback. cbn. lra.
Defined.

(** ** Pointer gestures, continued *)

Lemma getActiveLayer_id s layer :
  getActiveLayer s = Some layer ->
  l_id layer = activeLayerId s /\ In layer (layers s).
Proof.
  unfold getActiveLayer. intros H. apply find_some in H.
  destruct H as [Hin Heq]. apply String.eqb_eq in Heq. split; assumption.
Qed.

(** X12. A pointer-up leaves the document state as it is, or commits the
    current elements unchanged (eraser), or commits the current elements
    followed by exactly one new element; that element carries the generated
    id and the current colour and size, and is on the active layer, which
    then exists and is unlocked. *)
Theorem pointer_up_commits_at_most_one (canvas : option DOMRect)
    (newId : string) (s : AppState) (ui : Interaction) (e : PointerEvent) :
  fst (handlePointerUp canvas newId (s, ui) e) = s
  \/ fst (handlePointerUp canvas newId (s, ui) e)
     = saveHistory (elements s) s
  \/ exists el layer,
       fst (handlePointerUp canvas newId (s, ui) e)
       = saveHistory (elements s ++ [el]) s
       /\ el_id el = newId
       /\ el_style el = currentStyle s
       /\ el_layerId el = activeLayerId s
       /\ In layer (layers s)
       /\ l_id layer = activeLayerId s
       /\ l_locked layer = false.
Proof.
  unfold handlePointerUp.
  destruct (isDrawing ui); cbn [negb]; [|left; reflexivity].
  destruct (getActiveLayer s) as [layer|] eqn:Hlayer;
    [|destruct (selectedTool s); left; reflexivity].
  destruct (getActiveLayer_id s layer Hlayer) as [Hid Hin].
  destruct (l_locked layer) eqn:Hlock;
    [destruct (selectedTool s); left; reflexivity|].
  destruct (selectedTool s); cbn [fst shapeOfTool];
    try (left; reflexivity);
    try (right; left; reflexivity);
    try (right; right; eexists; exists layer;
         repeat split; try eassumption; reflexivity).
  all: destruct (dragStart ui) as [start|]; [|left; reflexivity].
  all: destruct (Rgtb _ 5 || Rgtb _ 5); [|left; reflexivity].
  all: right; right; eexists; exists layer;
    repeat split; try eassumption; reflexivity.
Qed.

Lemma pen_moves (canvas : option DOMRect) (moves : list PointerEvent) :
  forall (s : AppState) (ui : Interaction),
    isDrawing ui = true -> selectedTool s = Tpen ->
    moveAll canvas moves (s, ui)
    = (s, mkUI true
             (currentPoints ui ++ map (getPointerPos canvas s) moves)
             (dragStart ui) (textInput ui) (lastPointerPos ui)).
Proof.
  induction moves as [|e moves IH]; intros s ui Hd Ht.
  - cbn. rewrite app_nil_r. destruct ui; cbn in Hd; subst; reflexivity.
  - change (moveAll canvas (e :: moves) (s, ui))
      with (moveAll canvas moves (handlePointerMove canvas (s, ui) e)).
    assert (Hstep : handlePointerMove canvas (s, ui) e
                    = (s, mkUI (isDrawing ui)
                               (currentPoints ui ++ [getPointerPos canvas s e])
                               (dragStart ui) (textInput ui)
                               (lastPointerPos ui))).
    { unfold handlePointerMove. rewrite Hd, Ht. reflexivity. }
    rewrite Hstep, IH by (try exact Ht; exact Hd).
    cbn [currentPoints dragStart textInput lastPointerPos isDrawing map].
    rewrite <- app_assoc. reflexivity.
Qed.

Lemma shape_moves (canvas : option DOMRect) (moves : list PointerEvent) :
  forall (s : AppState) (ui : Interaction) (ty : ElementType),
    isDrawing ui = true -> shapeOfTool (selectedTool s) = Some ty ->
    moveAll canvas moves (s, ui)
    = (s, mkUI true
             (currentPoints ui ++ map (getPointerPos canvas s) moves)
             (dragStart ui) (textInput ui) (lastPointerPos ui)).
Proof.
  induction moves as [|e moves IH]; intros s ui ty Hd Ht.
  - cbn. rewrite app_nil_r. destruct ui; cbn in Hd; subst; reflexivity.
  - change (moveAll canvas (e :: moves) (s, ui))
      with (moveAll canvas moves (handlePointerMove canvas (s, ui) e)).
    assert (Hstep : handlePointerMove canvas (s, ui) e
                    = (s, mkUI (isDrawing ui)
                               (currentPoints ui ++ [getPointerPos canvas s e])
                               (dragStart ui) (textInput ui)
                               (lastPointerPos ui))).
    { unfold handlePointerMove. rewrite Hd.
      destruct (selectedTool s); try discriminate Ht; reflexivity. }
    rewrite Hstep, (IH _ _ ty) by (try exact Ht; exact Hd).
    cbn [currentPoints dragStart textInput lastPointerPos isDrawing map].
    rewrite <- app_assoc. reflexivity.
Qed.

Lemma getSplinePointsOn_pressures (points : list Point) :
  Forall (fun p => pt_pressure p <> None) points ->
  Forall (fun p => pt_pressure p <> None) (getSplinePoints points).
Proof.
  intros Hall. unfold getSplinePoints.
  destruct (Nat.lt_ge_cases (length points) 3) as [Hlt|Hge].
  - rewrite getSplinePointsOn_short by exact Hlt. exact Hall.
  - rewrite getSplinePointsOn_densified by exact Hge.
    destruct points as [|first rest]; [constructor|].
    unfold densified. rewrite !Forall_app. split; [|split].
    + constructor; [|constructor]. inversion Hall; assumption.
    + rewrite Forall_forall in *. intros q Hq.
      apply in_flat_map in Hq. destruct Hq as (i & _ & Hq).
      unfold pairSegment in Hq.
      destruct (nth_error (first :: rest) i) as [c0|]; [|destruct Hq].
      destruct (nth_error (first :: rest) (i + 1)) as [c1|] eqn:E1;
        [|destruct Hq].
      apply in_app_or in Hq. destruct Hq as [Hq|[<-|[]]].
      * rewrite map_id in Hq. unfold interpolantsBetween in Hq.
        apply in_map_iff in Hq. destruct Hq as (t & <- & _).
        cbn. discriminate.
      * apply Hall. apply nth_error_In with (i + 1)%nat. exact E1.
    + constructor; [|constructor].
      rewrite Forall_forall in Hall. apply Hall.
      destruct (@exists_last _ (first :: rest)) as (fr & x & Heq);
        [discriminate|].
      rewrite Heq, last_last. apply in_or_app. right. left. reflexivity.
Qed.

(** X13. A pen gesture (down, any moves, up) on an unlocked active layer
    commits one stroke whose points are getSplinePoints of the world
    positions of the pointer-down and the moves; the position of the
    pointer-up is not used; every point has a pressure. A click without a
    move commits a one-point stroke, for which renderStroke draws nothing. *)
Theorem pen_gesture_commits_samples (rect : DOMRect) (id0 id1 : string)
    (s : AppState) (layer : Layer) (e0 : PointerEvent)
    (moves : list PointerEvent) (e1 : PointerEvent) :
  selectedTool s = Tpen ->
  getActiveLayer s = Some layer ->
  l_locked layer = false ->
  exists pts,
    fst (handlePointerUp (Some rect) id1
           (moveAll (Some rect) moves
              (handlePointerDown (Some rect) id0 (s, idle) e0)) e1)
    = saveHistory
        (elements s
         ++ [mkElement id1 stroke (activeLayerId s) (Some pts)
                       None None None None None (currentStyle s)]) s
    /\ pts = getSplinePoints
               (map (getPointerPos (Some rect) s) (e0 :: moves))
    /\ Forall (fun p => pt_pressure p <> None) pts
    /\ (moves = [] ->
        pts = [getPointerPos (Some rect) s e0]
        /\ renderStroke pts (currentStyle s) = []).
Proof.
  intros Ht Hl Hu.
  destruct (getActiveLayer_id s layer Hl) as [Hid _].
  eexists. split; [|split; [reflexivity|split]].
  - unfold handlePointerDown. rewrite Ht, Hl, Hu.
    rewrite pen_moves by (try reflexivity; exact Ht).
    unfold handlePointerUp. rewrite Ht, Hl, Hu.
    cbn [isDrawing negb fst currentPoints app]. rewrite Hid. reflexivity.
  - apply getSplinePointsOn_pressures.
    rewrite Forall_forall. intros p Hp. apply in_map_iff in Hp.
    destruct Hp as (e & <- & _). cbn. discriminate.
  - intros ->. split; reflexivity.
Qed.

Lemma pen_gesture_commits_samples_witness :
  exists pts,
    fst (handlePointerUp (Some (mkRect 0 0)) "e2"
           (moveAll (Some (mkRect 0 0)) []
              (handlePointerDown (Some (mkRect 0 0)) "e1"
                 (initialState, idle) (pointerAt 3 4)))
           (pointerAt 3 4))
    = saveHistory
        (elements initialState
         ++ [mkElement "e2" stroke (activeLayerId initialState) (Some pts)
                       None None None None None (currentStyle initialState)])
        initialState
    /\ renderStroke pts (currentStyle initialState) = [].
Proof.
  destruct (pen_gesture_commits_samples (mkRect 0 0) "e1" "e2" initialState
              defaultLayer (pointerAt 3 4) [] (pointerAt 3 4)
              eq_refl eq_refl eq_refl) as (pts & Hres & _ & _ & Hclick).
  exists pts. split; [exact Hres|]. apply Hclick. reflexivity.
Defined.

Lemma Rabs_scaled (d z : R) : 0 < z -> Rabs (d / z) = Rabs d / z.
Proof.
  intros Hz. unfold Rdiv. rewrite Rabs_mult, (Rabs_right (/ z)); [reflexivity|].
  apply Rle_ge, Rlt_le, Rinv_0_lt_compat. exact Hz.
Qed.

Lemma scaled_above (d z : R) : 0 < z -> (Rabs (d / z) > 5 <-> 5 * z < Rabs d).
Proof.
  intros Hz. rewrite Rabs_scaled by exact Hz. split; intros H.
  - apply Rmult_lt_reg_r with (/ z); [apply Rinv_0_lt_compat; exact Hz|].
    rewrite Rmult_assoc, Rinv_r by lra. unfold Rdiv in H. lra.
  - unfold Rdiv. apply Rmult_lt_reg_r with z; [exact Hz|].
    rewrite Rmult_assoc, Rinv_l by lra. lra.
Qed.

(** X14. A shape gesture on an unlocked active layer at a positive zoom
    commits nothing, and leaves the state as it was, when the pointer-up is
    within 5 * zoom screen units of the pointer-down in both directions;
    otherwise it commits one shape anchored at the world position of the
    pointer-down, with width and height the screen displacement divided by
    the zoom. The moves in between do not matter. *)
Theorem shape_gesture_threshold (rect : DOMRect) (id0 id1 : string)
    (s : AppState) (ty : ElementType) (layer : Layer) (e0 : PointerEvent)
    (moves : list PointerEvent) (e1 : PointerEvent) :
  shapeOfTool (selectedTool s) = Some ty ->
  getActiveLayer s = Some layer ->
  l_locked layer = false ->
  0 < zoom s ->
  (Rabs (pe_clientX e1 - pe_clientX e0) <= 5 * zoom s ->
   Rabs (pe_clientY e1 - pe_clientY e0) <= 5 * zoom s ->
   fst (handlePointerUp (Some rect) id1
          (moveAll (Some rect) moves
             (handlePointerDown (Some rect) id0 (s, idle) e0)) e1) = s)
  /\ (5 * zoom s < Rabs (pe_clientX e1 - pe_clientX e0)
      \/ 5 * zoom s < Rabs (pe_clientY e1 - pe_clientY e0) ->
      exists wd ht,
        fst (handlePointerUp (Some rect) id1
               (moveAll (Some rect) moves
                  (handlePointerDown (Some rect) id0 (s, idle) e0)) e1)
        = saveHistory
            (elements s
             ++ [mkElement id1 ty (activeLayerId s) None
                   (Some (pt_x (screenToWorld (Some rect) s
                                  (pe_clientX e0) (pe_clientY e0))))
                   (Some (pt_y (screenToWorld (Some rect) s
                                  (pe_clientX e0) (pe_clientY e0))))
                   (Some wd) (Some ht) None (currentStyle s)]) s
        /\ wd = (pe_clientX e1 - pe_clientX e0) / zoom s
        /\ ht = (pe_clientY e1 - pe_clientY e0) / zoom s).
Proof.
  intros Hty Hl Hu Hz.
  destruct (getActiveLayer_id s layer Hl) as [Hid _].
  assert (Hdown : handlePointerDown (Some rect) id0 (s, idle) e0
                  = (s, mkUI true [getPointerPos (Some rect) s e0]
                             (Some (getPointerPos (Some rect) s e0))
                             None None)).
  { unfold handlePointerDown. rewrite Hl, Hu.
    destruct (selectedTool s); try discriminate Hty; reflexivity. }
  rewrite Hdown, (shape_moves _ _ _ _ ty) by (try exact Hty; reflexivity).
  cbn [currentPoints dragStart textInput lastPointerPos].
  set (wd := pt_x (getPointerPos (Some rect) s e1)
             - pt_x (getPointerPos (Some rect) s e0)).
  set (ht := pt_y (getPointerPos (Some rect) s e1)
             - pt_y (getPointerPos (Some rect) s e0)).
  assert (Hwd : wd = (pe_clientX e1 - pe_clientX e0) / zoom s)
    by (unfold wd; cbn; field; lra).
  assert (Hht : ht = (pe_clientY e1 - pe_clientY e0) / zoom s)
    by (unfold ht; cbn; field; lra).
  assert (Hup : forall ui',
            isDrawing ui' = true ->
            dragStart ui' = Some (getPointerPos (Some rect) s e0) ->
            fst (handlePointerUp (Some rect) id1 (s, ui') e1)
            = if Rgtb (Rabs wd) 5 || Rgtb (Rabs ht) 5 then
                saveHistory
                  (elements s
                   ++ [mkElement id1 ty (activeLayerId s) None
                         (Some (pt_x (getPointerPos (Some rect) s e0)))
                         (Some (pt_y (getPointerPos (Some rect) s e0)))
                         (Some wd) (Some ht) None (currentStyle s)]) s
              else s).
  { intros ui' Hd Hstart. unfold handlePointerUp. rewrite Hd, Hl, Hu, Hstart.
    fold wd ht. rewrite Hid.
    destruct (selectedTool s); try discriminate Hty;
      cbn [shapeOfTool] in Hty |- *; injection Hty as <-;
      cbn [negb fst]; destruct (Rgtb (Rabs wd) 5 || Rgtb (Rabs ht) 5);
      reflexivity. }
  rewrite Hup by reflexivity.
  split.
  - intros Hx Hy.
    assert (Rgtb (Rabs wd) 5 = false).
    { apply Rgtb_false. destruct (Rle_lt_dec (Rabs wd) 5) as [H|H]; [exact H|].
      rewrite Hwd in H. apply scaled_above in H; [lra|exact Hz]. }
    assert (Rgtb (Rabs ht) 5 = false).
    { apply Rgtb_false. destruct (Rle_lt_dec (Rabs ht) 5) as [H'|H']; [exact H'|].
      rewrite Hht in H'. apply scaled_above in H'; [lra|exact Hz]. }
    rewrite H, H0. reflexivity.
  - intros Hbig. exists wd, ht.
    assert (Hor : Rgtb (Rabs wd) 5 || Rgtb (Rabs ht) 5 = true).
    { apply orb_true_iff. destruct Hbig as [Hb|Hb]; [left|right].
      - unfold Rgtb. destruct (Rgt_dec (Rabs wd) 5) as [_|Hn]; [reflexivity|].
        exfalso. apply Hn. rewrite Hwd. apply scaled_above; assumption.
      - unfold Rgtb. destruct (Rgt_dec (Rabs ht) 5) as [_|Hn]; [reflexivity|].
        exfalso. apply Hn. rewrite Hht. apply scaled_above; assumption. }
    rewrite Hor. repeat split; assumption.
Qed.

Lemma shape_gesture_threshold_witness :
  fst (handlePointerUp (Some (mkRect 0 0)) "e2"
         (moveAll (Some (mkRect 0 0)) []
            (handlePointerDown (Some (mkRect 0 0)) "e1"
               (withTool Trectangle initialState, idle) (pointerAt 0 0))
         ) (pointerAt 3 3))
  = withTool Trectangle initialState.
Proof.
  destruct (shape_gesture_threshold (mkRect 0 0) "e1" "e2"
              (withTool Trectangle initialState) rectangle defaultLayer
              (pointerAt 0 0) [] (pointerAt 3 3))
    as [Hsmall _]; try reflexivity.
  - cbn. lra.
  - apply Hsmall; cbn; rewrite Rabs_right; lra.
Defined.

(** ** History manager, continued *)

Lemma undo_changes_iff (s : AppState) :
  (undo s = s <-> canUndo s = false)
  /\ (redo s = s <-> canRedo s = false).
Proof.
  unfold undo, redo, canUndo, canRedo. split.
  - destruct (Nat.ltb_spec 0 (historyStep s)) as [Hlt|Hge];
      split; intros H; try reflexivity; try discriminate.
    apply (f_equal historyStep) in H. cbn in H. lia.
  - destruct (Z.ltb_spec (Z.of_nat (historyStep s))
                         (Z.of_nat (length (history s)) - 1)) as [Hlt|Hge];
      split; intros H; try reflexivity; try discriminate.
    apply (f_equal historyStep) in H. cbn in H. lia.
Qed.

Lemma set_history_same (s : AppState) :
  set_history s (elements s) (history s) (historyStep s) = s.
Proof. destruct s; reflexivity. Qed.

Lemma undo_redo_inverse_lemma (s : AppState) :
  historyOk s -> liveIsSnapshot s ->
  (canUndo s = true -> redo (undo s) = s)
  /\ (canRedo s = true -> undo (redo s) = s).
Proof.
  unfold historyOk, liveIsSnapshot, canUndo, canRedo.
  intros [Hlo Hhi] Hlive. split; intros Hcan.
  - unfold undo. rewrite Hcan. unfold redo.
    cbn [history historyStep set_history].
    apply Nat.ltb_lt in Hcan.
    replace (Z.of_nat (historyStep s - 1)
             <? Z.of_nat (length (history s)) - 1)%Z with true
      by (symmetry; apply Z.ltb_lt; lia).
    replace (historyStep s - 1 + 1)%nat with (historyStep s) by lia.
    rewrite <- Hlive. destruct s; reflexivity.
  - unfold redo. rewrite Hcan. unfold undo.
    cbn [history historyStep set_history].
    replace (0 <? historyStep s + 1)%nat with true
      by (symmetry; apply Nat.ltb_lt; lia).
    replace (historyStep s + 1 - 1)%nat with (historyStep s) by lia.
    rewrite <- Hlive. destruct s; reflexivity.
Qed.

(** X16. In a state whose history cursor is inside the history and whose
    elements are the snapshot under the cursor, redo after undo gives back
    the state whenever undo is enabled, and undo after redo whenever redo is
    enabled; undo (redo) leaves the state as it is exactly when its button
    is disabled. *)
Theorem undo_redo_inverse (s : AppState) :
  historyOk s -> liveIsSnapshot s ->
  (canUndo s = true -> redo (undo s) = s)
  /\ (canRedo s = true -> undo (redo s) = s)
  /\ (undo s = s <-> canUndo s = false)
  /\ (redo s = s <-> canRedo s = false).
Proof.
  intros Hok Hlive.
  destruct (undo_redo_inverse_lemma s Hok Hlive) as [H1 H2].
  destruct (undo_changes_iff s) as [H3 H4].
  repeat split; try assumption; try apply H3; try apply H4.
Qed.

Lemma saveHistory_live x s : liveIsSnapshot (saveHistory x s).
Proof.
  unfold liveIsSnapshot.
  destruct (saveHistory_shape x s) as (kept & Hh & Hs & He & _).
  rewrite Hh, Hs, He, snapshotAt_app. reflexivity.
Qed.

Lemma saveHistory_canUndo x s :
  historyOk s -> canUndo (saveHistory x s) = true.
Proof.
  intros [Hlo Hhi]. unfold canUndo.
  destruct (saveHistory_shape x s) as (kept & _ & Hs & _ & Hk).
  rewrite Hs. apply Nat.ltb_lt.
  pose proof (slice0_length (historyStep s + 1) (history s)) as Hup.
  destruct Hk as [[-> _]|[-> Hge]].
  - lia.
  - destruct (slice0 (historyStep s + 1) (history s));
      cbn [shift tl length] in *; unfold historyLimit in *; lia.
Qed.

(** Undoing a commit brings back the snapshot that was under the cursor. *)
Lemma undo_saveHistory x s :
  historyOk s ->
  elements (undo (saveHistory x s))
  = snapshotAt (history s) (historyStep s).
Proof.
  intros Hok. pose proof (saveHistory_canUndo x s Hok) as Hcan.
  destruct Hok as [Hlo Hhi].
  unfold undo. unfold canUndo in Hcan. rewrite Hcan.
  cbn [elements set_history].
  destruct (saveHistory_shape x s) as (kept & Hh & Hs & _ & Hk).
  rewrite Hh, Hs.
  assert (Hup : slice0 (historyStep s + 1) (history s)
                = firstn (historyStep s) (history s)
                  ++ [snapshotAt (history s) (historyStep s)]).
  { unfold slice0. replace (historyStep s + 1)%nat with (S (historyStep s))
      by lia.
    apply firstn_snoc. unfold snapshotAt.
    apply nth_error_nth'. exact Hlo. }
  assert (Hfl : length (firstn (historyStep s) (history s)) = historyStep s)
    by (rewrite length_firstn; lia).
  destruct Hk as [[-> _]|[-> Hge]]; rewrite Hup.
  - rewrite length_app. cbn [length].
    replace (length (firstn (historyStep s) (history s)) + 1 - 1)%nat
      with (length (firstn (historyStep s) (history s))) by lia.
    rewrite <- app_assoc. cbn [app]. apply snapshotAt_app.
  - rewrite Hup in Hge.
    destruct (firstn (historyStep s) (history s)) as [|h0 rest] eqn:Ef.
    + cbn in Hge. unfold historyLimit in Hge. lia.
    + cbn [shift tl app length]. rewrite length_app. cbn [length].
      replace (length rest + 1 - 1)%nat with (length rest) by lia.
      rewrite <- app_assoc. cbn [app]. apply snapshotAt_app.
Qed.

(** X17. After a commit from a state whose history cursor is inside a
    history of at most 50 snapshots (every state the application reaches),
    undo is enabled and redo is disabled; undo brings back the snapshot
    that was under the cursor before the commit, and redo after that undo
    gives the committed state again.  That snapshot is the elements from
    before the commit whenever those were the snapshot under the cursor;
    they are not at the commit that ends an eraser gesture which removed
    something, and there undo brings back the elements from before the
    gesture.  The commit keeps the cursor inside a history of at most 50
    snapshots, with the elements equal to the snapshot under the cursor. *)
Theorem commit_is_undoable (x : list CanvasElement) (s : AppState) :
  historyOk s ->
  elements (undo (saveHistory x s)) = snapshotAt (history s) (historyStep s)
  /\ (liveIsSnapshot s -> elements (undo (saveHistory x s)) = elements s)
  /\ redo (undo (saveHistory x s)) = saveHistory x s
  /\ historyOk (saveHistory x s)
  /\ liveIsSnapshot (saveHistory x s)
  /\ canUndo (saveHistory x s) = true
  /\ canRedo (saveHistory x s) = false.
Proof.
  intros Hok.
  assert (Hok' : historyOk (saveHistory x s))
    by (apply saveHistory_ok; apply Hok).
  split; [apply undo_saveHistory; exact Hok|].
  split.
  { intros Hlive. rewrite undo_saveHistory by exact Hok.
    symmetry. exact Hlive. }
  split.
  { apply undo_redo_inverse_lemma;
      [exact Hok'|apply saveHistory_live|apply saveHistory_canUndo; exact Hok]. }
  split; [exact Hok'|]. split; [apply saveHistory_live|].
  split; [apply saveHistory_canUndo; exact Hok|].
  unfold canRedo.
  destruct (saveHistory_shape x s) as (kept & Hh & Hs & _ & _).
  rewrite Hh, Hs, length_app. cbn [length]. apply Z.ltb_ge. lia.
Qed.



Lemma commit_is_undoable_witness :
  elements (undo (saveHistory [dot "a"] initialState)) = elements initialState
  /\ redo (undo (saveHistory [dot "a"] initialState))
     = saveHistory [dot "a"] initialState
  /\ elements
       (undo (saveHistory []
                (set_elements (saveHistory [dot "a"] initialState) [])))
     = [dot "a"].
Proof.
  destruct (commit_is_undoable [dot "a"] initialState) as (_ & H1 & H2 & _);
    [unfold historyOk, historyLimit; cbn; lia|].
  destruct (commit_is_undoable []
              (set_elements (saveHistory [dot "a"] initialState) []))
    as (H3 & _); [unfold historyOk, historyLimit; cbn; lia|].
  split; [apply H1; reflexivity|]. split; [exact H2|].
  rewrite H3. reflexivity.
Defined.

Lemma undo_redo_inverse_witness :
  redo (undo (saveHistory [dot "a"] initialState))
  = saveHistory [dot "a"] initialState.
Proof.
  destruct (undo_redo_inverse (saveHistory [dot "a"] initialState))
    as (H1 & _).
  - unfold historyOk, historyLimit. cbn. lia.
  - reflexivity.
  - apply H1. reflexivity.
Defined.

(** X19. Committing A, then B, undoing once and committing C leaves a
    history that ends with A, C with the cursor on C: the undone snapshot B
    is gone, redo changes nothing, and undo brings back A. This holds from
    every state. *)
Theorem commit_after_undo_discards_branch (s : AppState)
    (A B C : list CanvasElement) :
  exists pre,
    history (saveHistory C (undo (saveHistory B (saveHistory A s))))
    = pre ++ [A; C]
    /\ historyStep (saveHistory C (undo (saveHistory B (saveHistory A s))))
       = (length pre + 1)%nat
    /\ redo (saveHistory C (undo (saveHistory B (saveHistory A s))))
       = saveHistory C (undo (saveHistory B (saveHistory A s)))
    /\ elements (undo (saveHistory C (undo (saveHistory B (saveHistory A s)))))
       = A.
Proof.
  destruct (saveHistory_twice A B s) as (pre & Hh & Hs & _).
  remember (saveHistory B (saveHistory A s)) as s2 eqn:Es2. clear Es2.
  assert (Hundo : undo s2 = set_history s2 A (history s2) (length pre)).
  { unfold undo. rewrite Hs.
    replace (0 <? length pre + 1)%nat with true
      by (symmetry; apply Nat.ltb_lt; lia).
    replace (length pre + 1 - 1)%nat with (length pre) by lia.
    rewrite Hh at 1. rewrite snapshotAt_app. reflexivity. }
  rewrite Hundo.
  remember (set_history s2 A (history s2) (length pre)) as s3 eqn:Es3.
  assert (Hh3 : history s3 = pre ++ [A; B]) by (subst s3; exact Hh).
  assert (Hs3 : historyStep s3 = length pre) by (subst s3; reflexivity).
  clear Es3 Hundo.
  destruct (saveHistory_shape C s3) as (kept & Hk & Hks & _ & Hkept).
  assert (Hup : slice0 (historyStep s3 + 1) (history s3) = pre ++ [A]).
  { unfold slice0. rewrite Hs3, Hh3.
    replace (pre ++ [A; B]) with ((pre ++ [A]) ++ [B])
      by (rewrite <- app_assoc; reflexivity).
    replace (length pre + 1)%nat with (length (pre ++ [A]) + 0)%nat
      by (rewrite length_app; cbn [length]; lia).
    rewrite firstn_app_2. cbn [firstn]. apply app_nil_r. }
  rewrite Hup in Hkept.
  assert (Hshape : exists pre', kept = pre' ++ [A]).
  { destruct Hkept as [[-> _]|[-> Hge]]; [exists pre; reflexivity|].
    destruct pre as [|h0 rest].
    - cbn in Hge. unfold historyLimit in Hge. lia.
    - exists rest. reflexivity. }
  destruct Hshape as (pre' & ->). exists pre'.
  remember (saveHistory C s3) as s4 eqn:Es4. clear Es4.
  rewrite Hk, Hks, <- app_assoc, length_app. cbn [length app].
  split; [reflexivity|]. split; [reflexivity|]. split.
  - unfold redo. rewrite Hk, Hks, !length_app. cbn [length].
    replace (Z.of_nat (length pre' + 1)
             <? Z.of_nat (length pre' + 1 + 1) - 1)%Z with false
      by (symmetry; apply Z.ltb_ge; lia).
    reflexivity.
  - unfold undo. rewrite Hks, length_app. cbn [length].
    replace (0 <? length pre' + 1)%nat with true
      by (symmetry; apply Nat.ltb_lt; lia).
    cbn [elements set_history]. rewrite Hk.
    replace (length pre' + 1 - 1)%nat with (length pre') by lia.
    rewrite <- app_assoc. cbn [app]. apply snapshotAt_app.
Qed.

(** ** Layer operations, continued *)

Lemma set_layers_same (s : AppState) :
  set_layers s (layers s) (activeLayerId s) = s.
Proof. destruct s; reflexivity. Qed.

Lemma map_involutive {A} (g : A -> A) (l : list A) :
  (forall a, g (g a) = a) -> map g (map g l) = l.
Proof.
  intros Hg. rewrite map_map. rewrite <- (map_id l) at 2.
  apply map_ext. exact Hg.
Qed.

(** X20. Toggling the visibility of a layer twice, or its lock twice, gives
    back the state. A toggle keeps the layers' ids and order, the visibility
    toggle keeps every lock and the lock toggle every visibility, and layers
    with another id are left as they are. *)
Theorem layer_toggles_are_involutions (id : string) (s : AppState) :
  onToggleVisible id (onToggleVisible id s) = s
  /\ onToggleLock id (onToggleLock id s) = s
  /\ map l_id (layers (onToggleVisible id s)) = map l_id (layers s)
  /\ map l_id (layers (onToggleLock id s)) = map l_id (layers s)
  /\ map l_locked (layers (onToggleVisible id s)) = map l_locked (layers s)
  /\ map l_visible (layers (onToggleLock id s)) = map l_visible (layers s)
  /\ (forall layer,
        In layer (layers s) -> l_id layer <> id ->
        In layer (layers (onToggleVisible id s))
        /\ In layer (layers (onToggleLock id s))).
Proof.
  unfold onToggleVisible, onToggleLock.
  cbn [layers activeLayerId set_layers].
  split; [|split; [|split; [|split; [|split; [|split]]]]].
  - rewrite map_involutive; [destruct s; reflexivity|].
    intros [i n v k]. cbn. destruct (String.eqb i id) eqn:E; cbn;
      rewrite ?E, ?negb_involutive; reflexivity.
  - rewrite map_involutive; [destruct s; reflexivity|].
    intros [i n v k]. cbn. destruct (String.eqb i id) eqn:E; cbn;
      rewrite ?E, ?negb_involutive; reflexivity.
  - rewrite map_map. apply map_ext. intros l.
    destruct (String.eqb (l_id l) id); reflexivity.
  - rewrite map_map. apply map_ext. intros l.
    destruct (String.eqb (l_id l) id); reflexivity.
  - rewrite map_map. apply map_ext. intros l.
    destruct (String.eqb (l_id l) id); reflexivity.
  - rewrite map_map. apply map_ext. intros l.
    destruct (String.eqb (l_id l) id); reflexivity.
  - intros layer Hin Hne. apply String.eqb_neq in Hne.
    split; apply in_map_iff; exists layer; rewrite Hne; split;
      try reflexivity; exact Hin.
Qed.

Lemma layer_toggles_are_involutions_witness :
  In defaultLayer (layers (onToggleVisible "layer-2" twoLayerState)).
Proof.
  destruct (layer_toggles_are_involutions "layer-2" twoLayerState)
    as (_ & _ & _ & _ & _ & _ & Hother).
  apply (Hother defaultLayer); [left; reflexivity|discriminate].
Defined.

Lemma find_app_none {A} (f : A -> bool) (l1 l2 : list A) :
  find f l1 = None -> find f (l1 ++ l2) = find f l2.
Proof.
  induction l1 as [|a l1 IH]; [reflexivity|].
  cbn. destruct (f a); [discriminate|]. exact IH.
Qed.

Lemma find_none_ids (id : string) (ls : list Layer) :
  ~ In id (map l_id ls) ->
  find (fun l => String.eqb (l_id l) id) ls = None.
Proof.
  induction ls as [|l ls IH]; [reflexivity|].
  cbn. intros Hnot.
  destruct (String.eqb_spec (l_id l) id) as [He|Hne];
    [exfalso; apply Hnot; left; exact He|].
  apply IH. intros Hin. apply Hnot. right. exact Hin.
Qed.

(** X21. With a generated id that no layer has yet, addLayer appends a
    visible, unlocked layer named after the new layer count as the last
    (topmost) layer, the active layer resolves to exactly that layer, so it
    accepts drawing, and elements and history are unchanged. *)
Theorem new_layer_is_topmost_and_active (newId : string) (s : AppState) :
  ~ In newId (map l_id (layers s)) ->
  layers (addLayer newId s)
  = layers s
    ++ [mkLayer newId
          ("Layer " ++ natToString (length (layers s) + 1))%string
          true false]
  /\ getActiveLayer (addLayer newId s)
     = Some (mkLayer newId
               ("Layer " ++ natToString (length (layers s) + 1))%string
               true false)
  /\ ~ layerRefuses (addLayer newId s)
  /\ elements (addLayer newId s) = elements s
  /\ history (addLayer newId s) = history s.
Proof.
  intros Hfresh.
  assert (Hget : getActiveLayer (addLayer newId s)
                 = Some (mkLayer newId
                           ("Layer " ++ natToString (length (layers s) + 1))
                           true false)).
  { unfold getActiveLayer, addLayer.
    cbn [layers activeLayerId set_layers l_id].
    rewrite find_app_none by (apply find_none_ids; exact Hfresh).
    cbn. rewrite String.eqb_refl. reflexivity. }
  split; [reflexivity|]. split; [exact Hget|].
  split; [|split; reflexivity].
  unfold layerRefuses. rewrite Hget. cbn. discriminate.
Qed.

Lemma new_layer_is_topmost_and_active_witness :
  getActiveLayer (addLayer "layer-3" twoLayerState)
  = Some (mkLayer "layer-3" "Layer 3" true false).
Proof.
  destruct (new_layer_is_topmost_and_active "layer-3" twoLayerState)
    as (_ & Hget & _).
  - cbn. intros [H|[H|[]]]; discriminate H.
  - exact Hget.
Defined.

(** ** Saving and loading *)

(** X22. Loading what handleSave wrote (the text taken at the value it
    parses to), on an empty canvas or after confirmation, raises no alert
    and restores the saved elements and, when there are any, the saved
    layers, so that saving again gives the same document; a saved empty
    layer list becomes the default layer. The first layer becomes active,
    the history is the single loaded snapshot, the view is reset, and the
    selected tool is kept. *)
Theorem save_then_load_restores_document (s current : AppState)
    (confirmed : bool) :
  elements current = [] \/ confirmed = true ->
  snd (handleFileChange current (Some (handleSave s)) confirmed) = None
  /\ elements (fst (handleFileChange current (Some (handleSave s)) confirmed))
     = elements s
  /\ (layers s <> [] ->
      layers (fst (handleFileChange current (Some (handleSave s)) confirmed))
      = layers s
      /\ handleSave
           (fst (handleFileChange current (Some (handleSave s)) confirmed))
         = handleSave s)
  /\ (layers s = [] ->
      layers (fst (handleFileChange current (Some (handleSave s)) confirmed))
      = [defaultLayer])
  /\ Some (activeLayerId
             (fst (handleFileChange current (Some (handleSave s)) confirmed)))
     = option_map l_id (hd_error (layers s ++ [defaultLayer]))
  /\ history (fst (handleFileChange current (Some (handleSave s)) confirmed))
     = [elements s]
  /\ liveIsSnapshot
       (fst (handleFileChange current (Some (handleSave s)) confirmed))
  /\ viewOf (fst (handleFileChange current (Some (handleSave s)) confirmed))
     = (1, mkPan 0 0)
  /\ selectedTool
       (fst (handleFileChange current (Some (handleSave s)) confirmed))
     = selectedTool current.
Proof.
  intros Hgo.
  assert (Hrun : handleFileChange current (Some (handleSave s)) confirmed
                 = onFileRead current (handleSave s)).
  { unfold handleFileChange.
    destruct Hgo as [-> | ->]; cbn; [reflexivity|].
    rewrite andb_false_r. reflexivity. }
  rewrite Hrun. unfold handleSave, onFileRead.
  cbn [data_elements data_layers fst snd].
  destruct (layers s) as [|l ls]; cbn;
    repeat split; try reflexivity; try congruence;
    intros Hl; congruence.
Qed.

Lemma save_then_load_restores_document_witness :
  layers (fst (handleFileChange initialState
                 (Some (handleSave twoLayerState)) false))
  = layers twoLayerState.
Proof.
  destruct (save_then_load_restores_document twoLayerState initialState false)
    as (_ & _ & Hl & _).
  - left. reflexivity.
  - apply Hl. discriminate.
Defined.

(** ** Rendering *)

Lemma skipn_cons_nth {A} (l : list A) (i : nat) (x : A) :
  nth_error l i = Some x -> skipn i l = x :: skipn (S i) l.
Proof.
  revert i. induction l as [|a l IH]; intros i Hi.
  - destruct i; discriminate.
  - destruct i as [|i]; cbn in Hi |- *.
    + injection Hi as <-. reflexivity.
    + apply IH. exact Hi.
Qed.

Lemma pressureLoop_facts (points : list Point) (style : StrokeStyle)
    (n : nat) :
  forall i,
    (i + n < length points)%nat ->
    length (filter isStrokeOp (pressureLoop n i points style)) = n
    /\ (forall w, In (SetLineWidth w) (pressureLoop n i points style) ->
          1 <= w)
    /\ moveTargets (pressureLoop n i points style)
       = map coordinates (firstn n (skipn i points))
    /\ curveTargets (pressureLoop n i points style)
       = map coordinates (firstn n (skipn (S i) points)).
Proof.
  induction n as [|n IH]; intros i Hi.
  - cbn. repeat split. intros w [].
  - cbn [pressureLoop]. unfold pressureSegment.
    destruct (nth_error points i) as [p1|] eqn:E1;
      [|apply nth_error_None in E1; lia].
    destruct (nth_error points (i + 1)) as [p2|] eqn:E2;
      [|apply nth_error_None in E2; lia].
    destruct (IH (i + 1)%nat) as (IHc & IHw & IHm & IHq); [lia|].
    replace (i + 1)%nat with (S i) in * by lia.
    split; [|split; [|split]].
    + cbn. rewrite IHc. reflexivity.
    + intros w Hin. cbn [app In] in Hin.
      destruct Hin as [H|[H|[H|[H|[H|[H|Hin]]]]]]; try discriminate H.
      * injection H as <-. apply Rmax_l.
      * apply IHw. exact Hin.
    + rewrite (skipn_cons_nth points i p1 E1). cbn [firstn map].
      unfold moveTargets in *. cbn [flat_map app]. rewrite IHm. reflexivity.
    + rewrite (skipn_cons_nth points (S i) p2 E2). cbn [firstn map].
      unfold curveTargets in *. cbn [flat_map app]. rewrite IHq. reflexivity.
Qed.

Lemma renderStroke_pressure_shape (first : Point) (rest : list Point)
    (style : StrokeStyle) (pr : R) :
  pt_pressure first = Some pr ->
  (2 <= length (first :: rest))%nat ->
  exists setup,
    renderStroke (first :: rest) style
    = setup
      ++ pressureLoop (length (first :: rest) - 1) 0 (first :: rest) style
      ++ [SetGlobalAlpha 1; SetGlobalCompositeOperation "source-over"]
    /\ filter isStrokeOp setup = []
    /\ moveTargets setup = [] /\ curveTargets setup = []
    /\ (forall w, ~ In (SetLineWidth w) setup).
Proof.
  intros Hpr Hlen. unfold renderStroke.
  replace (length (first :: rest) <? 2)%nat with false
    by (symmetry; apply Nat.ltb_ge; exact Hlen).
  rewrite Hpr.
  exists ([SetLineCap "round"; SetLineJoin "round"]
          ++ match st_isHighlighter style with
             | Some true =>
                 [SetGlobalAlpha (4/10);
                  SetGlobalCompositeOperation "multiply"]
             | _ =>
                 [SetGlobalAlpha 1;
                  SetGlobalCompositeOperation "source-over"]
             end).
  split; [rewrite <- app_assoc; reflexivity|].
  destruct (st_isHighlighter style) as [[|]|]; cbn;
    repeat split; intros w Hin;
    repeat (destruct Hin as [H|Hin]; [discriminate H|]); destruct Hin.
Qed.

(** X23. For two or more points of which the first has a pressure,
    renderStroke strokes one path per pair of neighbouring points: n - 1
    strokes, the paths start at the points but the last, in order, and their
    curves end at the points but the first, in order; every line width set
    is at least 1. *)
Theorem pressure_stroke_segments (points : list Point) (style : StrokeStyle)
    (first : Point) (rest : list Point) (pr : R) :
  points = first :: rest ->
  pt_pressure first = Some pr ->
  (2 <= length points)%nat ->
  length (filter isStrokeOp (renderStroke points style))
  = (length points - 1)%nat
  /\ (forall w, In (SetLineWidth w) (renderStroke points style) -> 1 <= w)
  /\ moveTargets (renderStroke points style)
     = map coordinates (removelast points)
  /\ curveTargets (renderStroke points style)
     = map coordinates (tl points).
Proof.
  intros -> Hpr Hlen.
  destruct (renderStroke_pressure_shape first rest style pr Hpr Hlen)
    as (setup & -> & Hs & Hm & Hq & Hw).
  destruct (pressureLoop_facts (first :: rest) style
              (length (first :: rest) - 1) 0) as (Lc & Lw & Lm & Lq); [lia|].
  split; [|split; [|split]].
  - rewrite !filter_app, !length_app, Hs, Lc. cbn. lia.
  - intros w Hin. apply in_app_or in Hin. destruct Hin as [Hin|Hin];
      [exfalso; apply (Hw w Hin)|].
    apply in_app_or in Hin. destruct Hin as [Hin|Hin]; [apply Lw; exact Hin|].
    cbn in Hin. destruct Hin as [H|[H|[]]]; discriminate H.
  - unfold moveTargets in *. rewrite !flat_map_app, Hm, Lm.
    cbn [flat_map app skipn]. rewrite app_nil_r.
    rewrite removelast_firstn_len. f_equal. f_equal. cbn [length]. lia.
  - unfold curveTargets in *. rewrite !flat_map_app, Hq, Lq.
    cbn [flat_map app skipn tl]. rewrite app_nil_r.
    rewrite firstn_all2; [reflexivity|]. cbn [length]. lia.
Qed.

Lemma pressure_stroke_segments_witness :
  length (filter isStrokeOp
            (renderStroke [mkPoint 0 0 (Some (1/2)); ptC; ptD] sampleStyle))
  = 2%nat.
Proof.
  destruct (pressure_stroke_segments
              [mkPoint 0 0 (Some (1/2)); ptC; ptD] sampleStyle
              (mkPoint 0 0 (Some (1/2))) [ptC; ptD] (1/2) eq_refl eq_refl)
    as (Hc & _); [cbn; lia|exact Hc].
Defined.

(** ** The frame *)

Lemma flat_map_ext_in {A B} (f g : A -> list B) (l : list A) :
  (forall a, In a l -> f a = g a) -> flat_map f l = flat_map g l.
Proof.
  induction l as [|a l IH]; intros H; [reflexivity|].
  cbn. rewrite (H a) by (left; reflexivity). f_equal.
  apply IH. intros b Hb. apply H. right. exact Hb.
Qed.

Lemma filter_filter {A} (f g : A -> bool) (l : list A) :
  filter f (filter g l) = filter (fun a => f a && g a) l.
Proof.
  induction l as [|a l IH]; [reflexivity|].
  cbn. destruct (g a); cbn; destruct (f a); cbn; rewrite IH; reflexivity.
Qed.

Lemma drawLayers_shown (s : AppState) :
  drawLayers (set_elements s (filter (onShownLayer s) (elements s)))
  = drawLayers s.
Proof.
  unfold drawLayers. cbn [layers set_elements].
  apply flat_map_ext_in. intros layer Hin. unfold drawLayer.
  destruct (l_visible layer) eqn:Hvis; cbn [negb]; [|reflexivity].
  cbn [elements set_elements]. f_equal.
  rewrite filter_filter. apply filter_ext. intros el.
  destruct (String.eqb (el_layerId el) (l_id layer)) eqn:Heq; [|reflexivity].
  cbn [andb]. unfold onShownLayer. apply existsb_exists.
  exists layer. split; [exact Hin|]. rewrite Hvis, Heq. reflexivity.
Qed.

Lemma drawLayers_draws (s : AppState) (step : FrameStep) :
  In step (drawLayers s) ->
  exists el layer,
    In el (elements s) /\ In layer (layers s)
    /\ l_visible layer = true /\ el_layerId el = l_id layer
    /\ In step (drawElement el).
Proof.
  unfold drawLayers. intros Hin. apply in_flat_map in Hin.
  destruct Hin as (layer & Hl & Hin). unfold drawLayer in Hin.
  destruct (l_visible layer) eqn:Hvis; cbn [negb] in Hin; [|destruct Hin].
  apply in_flat_map in Hin. destruct Hin as (el' & Hel & Hin).
  apply filter_In in Hel. destruct Hel as [Hel Heq].
  apply String.eqb_eq in Heq.
  exists el', layer. repeat split; assumption.
Qed.

(** X25. The layer part of a frame draws exactly the elements whose layer id
    is that of a visible layer of the layer list: elements on hidden layers
    or on no layer contribute nothing. Deleting a layer removes none of its
    elements from the document, they are only no longer drawn; hiding a
    layer likewise. *)
Theorem frame_shows_only_visible_layers (s : AppState) :
  drawLayers (set_elements s (filter (onShownLayer s) (elements s)))
  = drawLayers s
  /\ (forall step,
        In step (drawLayers s) ->
        exists el layer,
          In el (elements s) /\ In layer (layers s)
          /\ l_visible layer = true /\ el_layerId el = l_id layer
          /\ In step (drawElement el))
  /\ (forall el layer step,
        In el (elements s) -> In layer (layers s) ->
        l_visible layer = true -> el_layerId el = l_id layer ->
        In step (drawElement el) -> In step (drawLayers s))
  /\ (forall id,
        elements (onDelete id s) = elements s
        /\ (forall el, el_layerId el = id ->
              onShownLayer (onDelete id s) el = false))
  /\ (forall id,
        (forall layer, In layer (layers s) -> l_id layer = id ->
           l_visible layer = true) ->
        forall el, el_layerId el = id ->
          onShownLayer (onToggleVisible id s) el = false).
Proof.
  split; [apply drawLayers_shown|].
  split; [intros step; apply drawLayers_draws|].
  split; [|split].
  - intros el layer step Hel Hl Hvis Hid Hstep.
    unfold drawLayers. apply in_flat_map. exists layer. split; [exact Hl|].
    unfold drawLayer. rewrite Hvis. cbn [negb].
    apply in_flat_map. exists el. split; [|exact Hstep].
    apply filter_In. split; [exact Hel|]. apply String.eqb_eq. exact Hid.
  - intros id. split; [reflexivity|]. intros el Hid.
    unfold onShownLayer, onDelete. cbn [layers set_layers].
    destruct (existsb _ _) eqn:Hex; [|reflexivity].
    apply existsb_exists in Hex. destruct Hex as (layer & Hin & Hb).
    apply filter_In in Hin. destruct Hin as [_ Hne].
    apply andb_true_iff in Hb. destruct Hb as [_ Heq].
    apply String.eqb_eq in Heq. rewrite <- Heq, Hid, String.eqb_refl in Hne.
    discriminate.
  - intros id Hvis el Hid.
    unfold onShownLayer, onToggleVisible. cbn [layers set_layers].
    destruct (existsb _ _) eqn:Hex; [|reflexivity].
    apply existsb_exists in Hex. destruct Hex as (layer & Hin & Hb).
    apply in_map_iff in Hin. destruct Hin as (l0 & <- & Hl0).
    apply andb_true_iff in Hb. destruct Hb as [Hv Heq].
    destruct (String.eqb (l_id l0) id) eqn:E0; cbn in Hv, Heq.
    + apply String.eqb_eq in E0. rewrite (Hvis l0 Hl0 E0) in Hv.
      discriminate.
    + apply String.eqb_eq in Heq. rewrite <- Heq, Hid, String.eqb_refl in E0.
      discriminate.
Qed.

Lemma frame_shows_only_visible_layers_witness :
  onShownLayer (onDelete "layer-2" twoLayerState)
               (mkElement "e" stroke "layer-2" (Some []) None None None None
                          None sampleStyle)
  = false.
Proof.
  destruct (frame_shows_only_visible_layers twoLayerState)
    as (_ & _ & _ & Hdel & _).
  destruct (Hdel "layer-2"%string) as [_ Hgone].
  apply Hgone. reflexivity.
Defined.

(** What a layer draws once an element has been appended. *)
Lemma drawLayer_commit (s s' : AppState) (el : CanvasElement)
    (layer : Layer) :
  elements s' = elements s ++ [el] ->
  drawLayer s' layer
  = drawLayer s layer
    ++ (if l_visible layer && String.eqb (el_layerId el) (l_id layer)
        then drawElement el else []).
Proof.
  intros Hel. unfold drawLayer. rewrite Hel.
  destruct (l_visible layer); cbn [negb andb]; [|reflexivity].
  rewrite filter_app, flat_map_app. f_equal. cbn [filter].
  destruct (String.eqb (el_layerId el) (l_id layer)); [|reflexivity].
  cbn [flat_map]. apply app_nil_r.
Qed.

Lemma drawLayers_commit_steps (s s' : AppState) (el : CanvasElement)
    (step : FrameStep) :
  elements s' = elements s ++ [el] -> layers s' = layers s ->
  In step (drawLayers s')
  <-> In step (drawLayers s)
      \/ (onShownLayer s el = true /\ In step (drawElement el)).
Proof.
  intros Hel Hl. unfold drawLayers. rewrite Hl. split.
  - intros Hin. apply in_flat_map in Hin. destruct Hin as (layer & Hlin & Hin).
    rewrite (drawLayer_commit s s' el layer Hel) in Hin.
    apply in_app_or in Hin. destruct Hin as [Hin|Hin].
    + left. apply in_flat_map. exists layer. split; assumption.
    + right.
      destruct (l_visible layer && String.eqb (el_layerId el) (l_id layer))
        eqn:Hc; [|destruct Hin].
      split; [|exact Hin]. unfold onShownLayer. apply existsb_exists.
      exists layer. split; assumption.
  - intros [Hin|[Hshown Hin]].
    + apply in_flat_map in Hin. destruct Hin as (layer & Hlin & Hin).
      apply in_flat_map. exists layer. split; [exact Hlin|].
      rewrite (drawLayer_commit s s' el layer Hel).
      apply in_or_app. left. exact Hin.
    + unfold onShownLayer in Hshown. apply existsb_exists in Hshown.
      destruct Hshown as (layer & Hlin & Hc).
      apply in_flat_map. exists layer. split; [exact Hlin|].
      rewrite (drawLayer_commit s s' el layer Hel), Hc.
      apply in_or_app. right. exact Hin.
Qed.

Lemma drawLayers_commit_hidden (s s' : AppState) (el : CanvasElement) :
  elements s' = elements s ++ [el] -> layers s' = layers s ->
  onShownLayer s el = false ->
  drawLayers s' = drawLayers s.
Proof.
  intros Hel Hl Hhid. unfold drawLayers. rewrite Hl.
  apply flat_map_ext_in. intros layer Hlin.
  rewrite (drawLayer_commit s s' el layer Hel).
  destruct (l_visible layer && String.eqb (el_layerId el) (l_id layer))
    eqn:Hc; [|apply app_nil_r].
  exfalso. assert (Hex : onShownLayer s el = true).
  { unfold onShownLayer. apply existsb_exists. exists layer.
    split; assumption. }
  rewrite Hhid in Hex. discriminate.
Qed.

Lemma drawLayers_commit_top (s s' : AppState) (el : CanvasElement)
    (front : list Layer) (layer : Layer) :
  elements s' = elements s ++ [el] -> layers s' = layers s ->
  layers s = front ++ [layer] ->
  l_visible layer = true -> el_layerId el = l_id layer ->
  (forall l, In l front -> l_id l <> el_layerId el) ->
  drawLayers s' = drawLayers s ++ drawElement el.
Proof.
  intros Hel Hl Hls Hvis Hid Hfront. unfold drawLayers. rewrite Hl, Hls.
  rewrite !flat_map_app. cbn [flat_map]. rewrite !app_nil_r.
  rewrite (drawLayer_commit s s' el layer Hel), Hvis, Hid, String.eqb_refl.
  cbn [andb]. rewrite app_assoc. f_equal. f_equal.
  apply flat_map_ext_in. intros l Hlin.
  rewrite (drawLayer_commit s s' el l Hel).
  replace (String.eqb (el_layerId el) (l_id l)) with false.
  - rewrite andb_false_r. apply app_nil_r.
  - symmetry. apply String.eqb_neq. intros Heq.
    apply (Hfront l Hlin). symmetry. rewrite Hid. rewrite Hid in Heq.
    exact Heq.
Qed.

(** X26. While a pen stroke is in progress on an unlocked active layer, the
    preview in the frame is one renderStroke call, and a pointer-up commits
    a stroke that is drawn, where its layer is drawn, by that same call
    (same points, same style); after the pointer-up there is no preview.
    When the active layer is visible, the frame after the pointer-up is
    made of the same steps as the frame before it, and it is the same
    frame step for step when the active layer is the topmost one and no
    other layer has its id.  When no layer with the active id is visible,
    the preview was drawn but the committed stroke is not: the layers are
    drawn as before the commit. *)
Theorem pen_preview_is_what_gets_committed (rect : option DOMRect)
    (newId : string) (s : AppState) (ui : Interaction) (layer : Layer)
    (e : PointerEvent) :
  isDrawing ui = true ->
  currentPoints ui <> [] ->
  selectedTool s = Tpen ->
  getActiveLayer s = Some layer ->
  l_locked layer = false ->
  exists el,
    fst (handlePointerUp rect newId (s, ui) e)
    = saveHistory (elements s ++ [el]) s
    /\ drawCurrentAction s ui = drawElement el
    /\ drawCurrentAction s ui <> []
    /\ drawCurrentAction (fst (handlePointerUp rect newId (s, ui) e))
                         (snd (handlePointerUp rect newId (s, ui) e)) = []
    /\ (l_visible layer = true ->
        forall canvas step,
          In step (drawCanvas canvas
                     (fst (handlePointerUp rect newId (s, ui) e))
                     (snd (handlePointerUp rect newId (s, ui) e)))
          <-> In step (drawCanvas canvas s ui))
    /\ (l_visible layer = true ->
        forall front,
          layers s = front ++ [layer] ->
          (forall l, In l front -> l_id l <> activeLayerId s) ->
          forall canvas,
            drawCanvas canvas
              (fst (handlePointerUp rect newId (s, ui) e))
              (snd (handlePointerUp rect newId (s, ui) e))
            = drawCanvas canvas s ui)
    /\ ((forall l, In l (layers s) -> l_id l = activeLayerId s ->
           l_visible l = false) ->
        drawLayers (fst (handlePointerUp rect newId (s, ui) e))
        = drawLayers s).
Proof.
  intros Hd Hne Ht Hl Hu.
  destruct (getActiveLayer_id s layer Hl) as [Hid Hin].
  set (el := mkElement newId stroke (l_id layer)
               (Some (getSplinePoints (currentPoints ui)))
               None None None None None (currentStyle s)).
  assert (Hup : handlePointerUp rect newId (s, ui) e
                = (saveHistory (elements s ++ [el]) s,
                   mkUI false [] None (textInput ui) None)).
  { unfold handlePointerUp. rewrite Hd, Ht, Hl, Hu. reflexivity. }
  assert (Hprev : drawCurrentAction s ui = drawElement el).
  { unfold drawElement, drawCurrentAction, el.
    cbn [el_type el_points el_style]. rewrite Hd, Ht.
    destruct (currentPoints ui) as [|p ps]; [contradiction|]. reflexivity. }
  assert (Hels : elements (saveHistory (elements s ++ [el]) s)
                 = elements s ++ [el]) by reflexivity.
  assert (Hls : layers (saveHistory (elements s ++ [el]) s) = layers s)
    by reflexivity.
  exists el. rewrite Hup. cbn [fst snd].
  split; [reflexivity|]. split; [exact Hprev|].
  split; [rewrite Hprev; discriminate|].
  split; [reflexivity|].
  split; [|split].
  - intros Hvis canvas step. destruct canvas as [cv|]; [|reflexivity].
    unfold drawCanvas.
    change (drawCurrentAction (saveHistory (elements s ++ [el]) s)
              (mkUI false [] None (textInput ui) None))
      with (@nil FrameStep).
    change (flat_map (drawLayer (saveHistory (elements s ++ [el]) s))
              (layers (saveHistory (elements s ++ [el]) s)))
      with (drawLayers (saveHistory (elements s ++ [el]) s)).
    change (flat_map (drawLayer s) (layers s)) with (drawLayers s).
    change (zoom (saveHistory (elements s ++ [el]) s)) with (zoom s).
    change (pan (saveHistory (elements s ++ [el]) s)) with (pan s).
    rewrite Hprev, !in_app_iff.
    rewrite (drawLayers_commit_steps s _ el step Hels Hls).
    assert (Hshown : onShownLayer s el = true).
    { unfold onShownLayer. apply existsb_exists. exists layer.
      split; [exact Hin|]. rewrite Hvis. cbn [andb el_layerId el].
      apply String.eqb_refl. }
    rewrite Hshown. cbn [In]. tauto.
  - intros Hvis front Hfront Hother canvas.
    destruct canvas as [cv|]; [|reflexivity].
    unfold drawCanvas.
    change (drawCurrentAction (saveHistory (elements s ++ [el]) s)
              (mkUI false [] None (textInput ui) None))
      with (@nil FrameStep).
    change (flat_map (drawLayer (saveHistory (elements s ++ [el]) s))
              (layers (saveHistory (elements s ++ [el]) s)))
      with (drawLayers (saveHistory (elements s ++ [el]) s)).
    change (flat_map (drawLayer s) (layers s)) with (drawLayers s).
    change (zoom (saveHistory (elements s ++ [el]) s)) with (zoom s).
    change (pan (saveHistory (elements s ++ [el]) s)) with (pan s).
    rewrite (drawLayers_commit_top s _ el front layer Hels Hls Hfront Hvis
               eq_refl).
    + rewrite Hprev, <- app_assoc. reflexivity.
    + intros l Hlin. cbn [el_layerId el]. rewrite Hid.
      apply Hother. exact Hlin.
  - intros Hhid. apply (drawLayers_commit_hidden s _ el Hels Hls).
    unfold onShownLayer. destruct (existsb _ _) eqn:Hex; [|reflexivity].
    apply existsb_exists in Hex. destruct Hex as (l & Hlin & Hc).
    apply andb_true_iff in Hc. destruct Hc as [Hv Heq].
    apply String.eqb_eq in Heq. cbn [el_layerId el] in Heq.
    rewrite (Hhid l Hlin) in Hv; [discriminate|].
    rewrite <- Heq. exact Hid.
Qed.

Lemma pen_preview_is_what_gets_committed_witness :
  drawCanvas (Some (mkCanvas 100 100))
    (fst (handlePointerUp None "e1"
            (initialState, mkUI true [ptA; ptB] (Some ptA) None None)
            (pointerAt 0 0)))
    (snd (handlePointerUp None "e1"
            (initialState, mkUI true [ptA; ptB] (Some ptA) None None)
            (pointerAt 0 0)))
  = drawCanvas (Some (mkCanvas 100 100)) initialState
      (mkUI true [ptA; ptB] (Some ptA) None None)
  /\ drawLayers
       (fst (handlePointerUp None "e1"
               (hiddenLayerState, mkUI true [ptA; ptB] (Some ptA) None None)
               (pointerAt 0 0)))
     = drawLayers hiddenLayerState.
Proof.
  destruct (pen_preview_is_what_gets_committed None "e1" initialState
              (mkUI true [ptA; ptB] (Some ptA) None None) defaultLayer
              (pointerAt 0 0)) as (el & _ & _ & _ & _ & _ & Htop & _);
    try reflexivity; [discriminate|].
  destruct (pen_preview_is_what_gets_committed None "e1" hiddenLayerState
              (mkUI true [ptA; ptB] (Some ptA) None None)
              (mkLayer "layer-1" "Layer 1" false false)
              (pointerAt 0 0)) as (el' & _ & _ & _ & _ & _ & _ & Hhid);
    try reflexivity; [discriminate|].
  split.
  - apply (Htop eq_refl []); [reflexivity|intros l []].
  - apply Hhid. intros l [<-|[]] _. reflexivity.
Defined.

(** ** The text box *)

Lemma find_toggled_lock (id act : string) (ls : list Layer) (layer : Layer) :
  find (fun l => String.eqb (l_id l) act) ls = Some layer ->
  l_id layer = id ->
  find (fun l => String.eqb (l_id l) act)
       (map (fun l => if String.eqb (l_id l) id
                      then mkLayer (l_id l) (l_name l) (l_visible l)
                                   (negb (l_locked l))
                      else l) ls)
  = Some (mkLayer (l_id layer) (l_name layer) (l_visible layer)
                  (negb (l_locked layer))).
Proof.
  intros Hfind Hid. induction ls as [|l ls IH]; [discriminate|].
  cbn in Hfind |- *.
  destruct (String.eqb (l_id l) act) eqn:Eact.
  - injection Hfind as ->. rewrite Hid, String.eqb_refl. cbn [l_id].
    rewrite <- Hid, Eact. reflexivity.
  - destruct (String.eqb (l_id l) id) eqn:Eid; cbn [l_id]; rewrite Eact;
      apply IH; exact Hfind.
Qed.

(** X15. A text box opened by a click with the text tool commits nothing
    when its value is blank, and closes on submit. With a non-blank value it
    commits a text element at the world position of the click on the active
    layer; handleTextSubmit does not look at the layer's lock, so the text
    is committed even when the layer was locked after the box was opened. *)
Theorem text_box_commits_without_layer_check (rect : DOMRect)
    (id0 newId : string) (s : AppState) (layer : Layer) (e : PointerEvent)
    (value : string) :
  selectedTool s = Ttext ->
  getActiveLayer s = Some layer ->
  l_locked layer = false ->
  (trimsToEmpty value = true ->
   fst (handleTextSubmit newId
          (s, onTextChange value
                (snd (handlePointerDown (Some rect) id0 (s, idle) e))))
   = s)
  /\ (trimsToEmpty value = false ->
      fst (handleTextSubmit newId
             (onToggleLock (l_id layer) s,
              onTextChange value
                (snd (handlePointerDown (Some rect) id0 (s, idle) e))))
      = saveHistory
          (elements s
           ++ [mkElement newId text (activeLayerId s) None
                 (Some (pt_x (screenToWorld (Some rect) s
                                (pe_clientX e) (pe_clientY e))))
                 (Some (pt_y (screenToWorld (Some rect) s
                                (pe_clientX e) (pe_clientY e))))
                 None None (Some value)
                 (currentStyle s)])
          (onToggleLock (l_id layer) s)
      /\ layerRefuses (onToggleLock (l_id layer) s))
  /\ textInput
       (snd (handleTextSubmit newId
               (s, onTextChange value
                     (snd (handlePointerDown (Some rect) id0 (s, idle) e)))))
     = None.
Proof.
  intros Ht Hl Hu.
  assert (Hdown : snd (handlePointerDown (Some rect) id0 (s, idle) e)
                  = mkUI false [] None
                      (Some (mkTextInput
                               (pt_x (screenToWorld (Some rect) s
                                        (pe_clientX e) (pe_clientY e)))
                               (pt_y (screenToWorld (Some rect) s
                                        (pe_clientX e) (pe_clientY e)))
                               "")) None).
  { unfold handlePointerDown. rewrite Ht, Hl, Hu. reflexivity. }
  rewrite Hdown. unfold onTextChange, handleTextSubmit.
  cbn [textInput ti_x ti_y ti_value fst snd isDrawing currentPoints dragStart
       lastPointerPos].
  split; [intros ->; reflexivity|]. split; [|reflexivity].
  intros ->. cbn [negb]. split; [reflexivity|].
  unfold layerRefuses, getActiveLayer, onToggleLock.
  cbn [layers activeLayerId set_layers].
  destruct (getActiveLayer_id s layer Hl) as [Hid _].
  unfold getActiveLayer in Hl.
  rewrite (find_toggled_lock (l_id layer) (activeLayerId s) (layers s) layer Hl
             eq_refl).
  cbn. rewrite Hu. reflexivity.
Qed.

Lemma text_box_commits_without_layer_check_witness :
  layerRefuses (onToggleLock (l_id defaultLayer)
                             (withTool Ttext initialState))
  /\ length
       (elements
          (fst (handleTextSubmit "t1"
                  (onToggleLock (l_id defaultLayer)
                                (withTool Ttext initialState),
                   onTextChange "hi"
                     (snd (handlePointerDown (Some (mkRect 0 0)) "t0"
                             (withTool Ttext initialState, idle)
                             (pointerAt 3 4)))))))
     = 1%nat
  /\ fst (handleTextSubmit "t1"
            (withTool Ttext initialState,
             onTextChange unicodeBlank
               (snd (handlePointerDown (Some (mkRect 0 0)) "t0"
                       (withTool Ttext initialState, idle)
                       (pointerAt 3 4)))))
     = withTool Ttext initialState.
Proof.
  destruct (text_box_commits_without_layer_check (mkRect 0 0) "t0" "t1"
              (withTool Ttext initialState) defaultLayer (pointerAt 3 4) "hi"
              eq_refl eq_refl eq_refl) as (_ & Hsub & _).
  destruct (text_box_commits_without_layer_check (mkRect 0 0) "t0" "t1"
              (withTool Ttext initialState) defaultLayer (pointerAt 3 4)
              unicodeBlank eq_refl eq_refl eq_refl) as (Hblank & _).
  destruct (Hsub eq_refl) as [Hres Href].
  split; [exact Href|]. split; [rewrite Hres; reflexivity|].
  apply Hblank. reflexivity.
Defined.

(** What [trim] strips beyond the ASCII white space, and what it keeps. *)
Lemma trim_strips_unicode_space :
  trimsToEmpty unicodeBlank = true
  /\ trimsToEmpty accentedLetter = false
  /\ trimsToEmpty spaceThenLetter = false.
Proof. repeat split. Qed.

(** ** The application as a whole *)

Lemma stateOk_frame (s s' : AppState) :
  history s' = history s -> historyStep s' = historyStep s ->
  zoom s' = zoom s -> stateOk s -> stateOk s'.
Proof.
  unfold stateOk, historyOk. intros -> -> ->. auto.
Qed.

Lemma stateOk_saveHistory x s : stateOk s -> stateOk (saveHistory x s).
Proof.
  intros [Hh Hz]. split; [apply saveHistory_ok; apply Hh|exact Hz].
Qed.

Lemma stateOk_textSubmit newId s ui :
  stateOk s -> stateOk (fst (handleTextSubmit newId (s, ui))).
Proof.
  intros Hok. unfold handleTextSubmit. cbn [fst].
  destruct (textInput ui) as [ti|]; [|exact Hok].
  destruct (negb (trimsToEmpty (ti_value ti))); [|exact Hok].
  apply stateOk_saveHistory. exact Hok.
Qed.

Lemma stateOk_pointerDown canvas newId s ui e :
  stateOk s -> stateOk (fst (handlePointerDown canvas newId (s, ui) e)).
Proof.
  intros Hok. unfold handlePointerDown.
  destruct (getActiveLayer s) as [layer|];
    [|destruct (selectedTool s); exact Hok].
  destruct (l_locked layer); [destruct (selectedTool s); exact Hok|].
  destruct (selectedTool s); try exact Hok.
  destruct (textInput ui) as [ti|] eqn:Eti; [|exact Hok].
  pose proof (stateOk_textSubmit newId s ui Hok) as Hsub.
  destruct (handleTextSubmit newId (s, ui)) as [s1 ui1]. exact Hsub.
Qed.

Lemma stateOk_pointerMove canvas s ui e :
  stateOk s -> stateOk (fst (handlePointerMove canvas (s, ui) e)).
Proof.
  intros Hok. unfold handlePointerMove.
  destruct (isDrawing ui); cbn [negb]; [|exact Hok].
  assert (Herase : forall pos, stateOk (eraseAt s pos)).
  { intros pos. destruct (eraseAt_frame s pos) as (_ & _ & _ & Hh & Hs & Hv & _).
    apply (stateOk_frame s); try assumption.
    unfold viewOf in Hv. congruence. }
  destruct (selectedTool s); try exact Hok; try apply Herase;
    destruct (lastPointerPos ui) as [[lx ly]|]; try exact Hok;
    apply (stateOk_frame s); try reflexivity; exact Hok.
Qed.

(** A pointer-up changes the state by a commit, if at all. *)
Lemma handlePointerUp_state canvas newId s ui e :
  fst (handlePointerUp canvas newId (s, ui) e) = s
  \/ exists x,
       fst (handlePointerUp canvas newId (s, ui) e) = saveHistory x s.
Proof.
  unfold handlePointerUp.
  destruct (isDrawing ui); cbn [negb]; [|left; reflexivity].
  destruct (getActiveLayer s) as [layer|];
    [|destruct (selectedTool s); left; reflexivity].
  destruct (l_locked layer);
    [destruct (selectedTool s); left; reflexivity|].
  destruct (selectedTool s); cbn [fst shapeOfTool];
    try (left; reflexivity);
    try (right; eexists; reflexivity).
  all: destruct (dragStart ui) as [start|]; [|left; reflexivity].
  all: destruct (Rgtb _ 5 || Rgtb _ 5); [|left; reflexivity].
  all: right; eexists; reflexivity.
Qed.

Lemma stateOk_pointerUp canvas newId s ui e :
  stateOk s -> stateOk (fst (handlePointerUp canvas newId (s, ui) e)).
Proof.
  intros Hok.
  destruct (handlePointerUp_state canvas newId s ui e) as [->|(x & ->)];
    [exact Hok|apply stateOk_saveHistory; exact Hok].
Qed.

Lemma stateOk_load s file confirmed :
  stateOk s -> stateOk (fst (handleFileChange s file confirmed)).
Proof.
  intros Hok. unfold handleFileChange.
  destruct file as [t|]; [|exact Hok].
  destruct ((0 <? length (elements s))%nat && negb confirmed); [exact Hok|].
  destruct t as [| |data]; try exact Hok.
  cbn. destruct (data_elements data) as [| |els]; try exact Hok.
  cbn. unfold stateOk, historyOk, historyLimit. cbn. split; [lia|lra].
Qed.

Lemma stateOk_layerClick newId c s :
  stateOk s -> stateOk (onLayerClick newId c s).
Proof.
  intros Hok. destruct c; apply (stateOk_frame s); try reflexivity; exact Hok.
Qed.

Lemma stateOk_dispatch rect w ev :
  stateOk (fst w) -> stateOk (fst (dispatch rect w ev)).
Proof.
  destruct w as [s ui]. cbn [fst]. intros Hok.
  destruct ev; cbn [dispatch fst].
  - apply stateOk_pointerDown. exact Hok.
  - apply stateOk_pointerMove. exact Hok.
  - apply stateOk_pointerUp. exact Hok.
  - unfold handleWheel. destruct (wh_ctrlKey e || wh_metaKey e); [|exact Hok].
    split; [apply Hok|apply clampZoom_range].
  - split; [apply Hok|apply clampZoom_range].
  - split; [apply Hok|apply clampZoom_range].
  - split; [apply undo_redo_ok; apply Hok|].
    unfold undo. destruct (0 <? historyStep s)%nat; apply Hok.
  - split; [apply undo_redo_ok; apply Hok|].
    unfold redo. destruct (_ <? _)%Z; apply Hok.
  - unfold handleClear. destruct (length (elements s) =? 0)%nat; [exact Hok|].
    destruct confirmed; [apply stateOk_saveHistory|]; exact Hok.
  - apply stateOk_load. exact Hok.
  - destruct (existsb _ _); [|exact Hok].
    apply stateOk_layerClick. exact Hok.
  - unfold onSelectTool.
    assert (Htool : stateOk (withTool tool s))
      by (apply (stateOk_frame s); try reflexivity; exact Hok).
    destruct (ToolType_eqb tool (selectedTool s)); [exact Htool|].
    destruct tool; try exact Htool;
      (destruct (textInput ui) as [ti|] eqn:Eti; [|exact Htool]);
      apply stateOk_textSubmit; exact Htool.
  - apply (stateOk_frame s); try reflexivity; exact Hok.
  - apply (stateOk_frame s); try reflexivity; exact Hok.
  - exact Hok.
  - apply stateOk_textSubmit. exact Hok.
  - exact Hok.
Qed.

(** X27. From the initial state, after every sequence of pointer, wheel,
    zoom, undo, redo, clear, file, layer-panel, tool, colour, size and text-
    box events, the history cursor is inside the history, the history holds
    at most 50 snapshots, and the zoom is in [0.1, 5]. *)
Theorem every_reachable_state_is_ok (rect : DOMRect) (events : list Event) :
  historyOk (fst (run rect events (initialState, idle)))
  /\ 1/10 <= zoom (fst (run rect events (initialState, idle))) <= 5.
Proof.
  assert (Hrun : forall evs w, stateOk (fst w) -> stateOk (fst (run rect evs w))).
  { induction evs as [|ev evs IH]; intros w Hok; [exact Hok|].
    cbn [run fold_left]. apply IH. apply stateOk_dispatch. exact Hok. }
  apply (Hrun events (initialState, idle)).
  unfold stateOk, historyOk, historyLimit. cbn. split; [lia|lra].
Qed.

(** ** The eraser gesture as a whole *)

Lemma eraser_moves (canvas : option DOMRect) (moves : list PointerEvent) :
  forall (s : AppState) (ui : Interaction),
    isDrawing ui = true -> selectedTool s = Teraser ->
    isDrawing (snd (moveAll canvas moves (s, ui))) = true
    /\ sameButElements s (fst (moveAll canvas moves (s, ui)))
    /\ incl (elements (fst (moveAll canvas moves (s, ui)))) (elements s).
Proof.
  induction moves as [|e moves IH]; intros s ui Hd Ht.
  - cbn. split; [exact Hd|]. split; [repeat split|apply incl_refl].
  - change (moveAll canvas (e :: moves) (s, ui))
      with (moveAll canvas moves (handlePointerMove canvas (s, ui) e)).
    assert (Hstep : handlePointerMove canvas (s, ui) e
                    = (eraseAt s (getPointerPos canvas s e),
                       mkUI (isDrawing ui) [getPointerPos canvas s e]
                            (dragStart ui) (textInput ui)
                            (lastPointerPos ui))).
    { unfold handlePointerMove. rewrite Hd, Ht. cbn [negb].
      destruct (lastPointerPos ui) as [[lx ly]|]; reflexivity. }
    rewrite Hstep.
    destruct (eraseAt_frame s (getPointerPos canvas s e))
      as (Hsz & Hact & Hl & Hh & Hs & Hv & Htool).
    unfold viewOf in Hv. injection Hv as Hz Hp.
    destruct (IH (eraseAt s (getPointerPos canvas s e))
                 (mkUI (isDrawing ui) [getPointerPos canvas s e]
                       (dragStart ui) (textInput ui) (lastPointerPos ui)))
      as (Hd' & Hsame & Hincl); [exact Hd|rewrite Htool; exact Ht|].
    split; [exact Hd'|]. split.
    + unfold sameButElements in *.
      destruct Hsame as (H1 & H2 & H3 & H4 & H5 & H6 & H7 & H8 & H9).
      assert (Hcol : currentColor (eraseAt s (getPointerPos canvas s e))
                     = currentColor s)
        by (unfold eraseAt; destruct (negb _); reflexivity).
      repeat split; congruence.
    + intros el Hel. apply Hincl in Hel.
      rewrite eraseAt_elements in Hel. apply filter_In in Hel. apply Hel.
Qed.

(** X28. An eraser gesture (down, any moves, up) on an unlocked active
    layer, started where the elements are the snapshot under the history
    cursor, is one undo step: the moves leave the history alone, the result
    holds only elements that were there before, and one undo after the
    pointer-up brings back all the elements from before the gesture. *)
Theorem eraser_gesture_is_one_undo_step (rect : DOMRect) (id0 id1 : string)
    (s : AppState) (layer : Layer) (e0 : PointerEvent)
    (moves : list PointerEvent) (e1 : PointerEvent) :
  selectedTool s = Teraser ->
  getActiveLayer s = Some layer ->
  l_locked layer = false ->
  historyOk s ->
  liveIsSnapshot s ->
  elements (undo (fst (handlePointerUp (Some rect) id1
                         (moveAll (Some rect) moves
                            (handlePointerDown (Some rect) id0 (s, idle) e0))
                         e1)))
  = elements s
  /\ incl (elements (fst (handlePointerUp (Some rect) id1
                            (moveAll (Some rect) moves
                               (handlePointerDown (Some rect) id0 (s, idle)
                                  e0)) e1)))
          (elements s)
  /\ history (fst (moveAll (Some rect) moves
                     (handlePointerDown (Some rect) id0 (s, idle) e0)))
     = history s
  /\ liveIsSnapshot (fst (handlePointerUp (Some rect) id1
                            (moveAll (Some rect) moves
                               (handlePointerDown (Some rect) id0 (s, idle)
                                  e0)) e1)).
Proof.
  intros Ht Hl Hu Hok Hlive.
  assert (Hdown : handlePointerDown (Some rect) id0 (s, idle) e0
                  = (s, mkUI true [getPointerPos (Some rect) s e0]
                             (Some (getPointerPos (Some rect) s e0))
                             None None)).
  { unfold handlePointerDown. rewrite Ht, Hl, Hu. reflexivity. }
  rewrite Hdown.
  destruct (eraser_moves (Some rect) moves s
              (mkUI true [getPointerPos (Some rect) s e0]
                    (Some (getPointerPos (Some rect) s e0)) None None)
              eq_refl Ht) as (Hd & Hsame & Hincl).
  destruct (moveAll (Some rect) moves _) as [s' ui'] eqn:Emoves.
  cbn [fst snd] in *.
  destruct Hsame as (Hls & Hact & Htool & _ & _ & _ & _ & Hh & Hs).
  assert (Hl' : getActiveLayer s' = Some layer)
    by (unfold getActiveLayer in *; rewrite Hls, Hact; exact Hl).
  assert (Hup : fst (handlePointerUp (Some rect) id1 (s', ui') e1)
                = saveHistory (elements s') s').
  { unfold handlePointerUp. rewrite Hd, Htool, Ht, Hl', Hu. reflexivity. }
  rewrite Hup.
  assert (Hok' : historyOk s')
    by (unfold historyOk in *; rewrite Hh, Hs; exact Hok).
  split; [|split; [|split]].
  - rewrite undo_saveHistory by exact Hok'. rewrite Hh, Hs.
    symmetry. exact Hlive.
  - destruct (saveHistory_shape (elements s') s') as (_ & _ & _ & He & _).
    rewrite He. exact Hincl.
  - exact Hh.
  - apply saveHistory_live.
Qed.

Lemma eraser_gesture_is_one_undo_step_witness :
  elements (undo (fst (handlePointerUp (Some (mkRect 0 0)) "e1"
                         (moveAll (Some (mkRect 0 0)) [pointerAt 1 1]
                            (handlePointerDown (Some (mkRect 0 0)) "e0"
                               (withTool Teraser initialState, idle)
                               (pointerAt 0 0)))
                         (pointerAt 1 1))))
  = elements (withTool Teraser initialState).
Proof.
  assert (Hok : historyOk (withTool Teraser initialState))
    by (unfold historyOk, historyLimit; cbn; lia).
  exact (proj1 (eraser_gesture_is_one_undo_step (mkRect 0 0) "e0" "e1"
                  (withTool Teraser initialState) defaultLayer
                  (pointerAt 0 0) [pointerAt 1 1] (pointerAt 1 1)
                  eq_refl eq_refl eq_refl Hok eq_refl)).
Defined.

(** ** Shapes on the canvas and under the eraser *)

(** X29. renderShape draws a circle element as the ellipse centred in its
    box with half the absolute width and height as radii, and the eraser
    removes such an element of the active layer whenever some point of that
    drawn outline is within the eraser radius (twice the brush size) of the
    eraser position. *)
Theorem circle_outline_is_erasable (s : AppState) (pos : Point)
    (el : CanvasElement) (ex ey w h theta : R) :
  el_layerId el = activeLayerId s ->
  el_type el = circle ->
  el_x el = Some ex -> el_y el = Some ey ->
  el_width el = Some w -> el_height el = Some h ->
  In (Ellipse (ex + w / 2) (ey + h / 2) (Rabs (w / 2)) (Rabs (h / 2))
              0 0 (2 * PI))
     (renderShape circle ex ey w h (el_style el))
  /\ 0 <= Rabs (w / 2) /\ 0 <= Rabs (h / 2)
  /\ (distance pos (mkPoint (ex + w / 2 + Rabs (w / 2) * cos theta)
                            (ey + h / 2 + Rabs (h / 2) * sin theta) None)
      <= currentSize s * 2 ->
      erased s pos el).
Proof.
  intros Hact Hty Hx Hy Hw Hh.
  split; [cbn; auto 10|].
  split; [apply Rabs_pos|]. split; [apply Rabs_pos|].
  intros Hnear. unfold erased, eraserKeeps.
  rewrite Hact, String.eqb_refl, Hty, Hx, Hy, Hw, Hh. cbn [negb].
  apply Rgtb_false.
  set (c := mkPoint (ex + w / 2) (ey + h / 2) None).
  set (q := mkPoint (ex + w / 2 + Rabs (w / 2) * cos theta)
                    (ey + h / 2 + Rabs (h / 2) * sin theta) None) in *.
  change (hypot (ex + w / 2 - pt_x pos) (ey + h / 2 - pt_y pos))
    with (distance c pos).
  pose proof (distance_triangle c q pos) as Htri.
  pose proof (distance_symmetric q pos) as Hsym.
  assert (Hcq : distance c q <= Rmax (Rabs w) (Rabs h) / 2).
  { unfold distance, c, q. cbn [pt_x pt_y].
    apply hypot_le_bound.
    - pose proof (Rabs_pos w). pose proof (Rmax_l (Rabs w) (Rabs h)). lra.
    - set (M := Rmax (Rabs w) (Rabs h) / 2).
      assert (Hrx : 0 <= Rabs (w / 2) <= M).
      { split; [apply Rabs_pos|]. unfold M, Rdiv.
        rewrite Rabs_mult, (Rabs_right (/ 2)) by lra.
        pose proof (Rmax_l (Rabs w) (Rabs h)). lra. }
      assert (Hry : 0 <= Rabs (h / 2) <= M).
      { split; [apply Rabs_pos|]. unfold M, Rdiv.
        rewrite Rabs_mult, (Rabs_right (/ 2)) by lra.
        pose proof (Rmax_r (Rabs w) (Rabs h)). lra. }
      pose proof (sin2_cos2 theta) as Hsc. unfold Rsqr in Hsc.
      pose proof (Rle_0_sqr (cos theta)) as Hc2.
      pose proof (Rle_0_sqr (sin theta)) as Hs2. unfold Rsqr in Hc2, Hs2.
      replace ((ex + w / 2 - (ex + w / 2 + Rabs (w / 2) * cos theta))
               * (ex + w / 2 - (ex + w / 2 + Rabs (w / 2) * cos theta))
               + (ey + h / 2 - (ey + h / 2 + Rabs (h / 2) * sin theta))
                 * (ey + h / 2 - (ey + h / 2 + Rabs (h / 2) * sin theta)))
        with (Rabs (w / 2) * Rabs (w / 2) * (cos theta * cos theta)
              + Rabs (h / 2) * Rabs (h / 2) * (sin theta * sin theta))
        by ring.
      assert (Hrx2 : Rabs (w / 2) * Rabs (w / 2) <= M * M) by nra.
      assert (Hry2 : Rabs (h / 2) * Rabs (h / 2) <= M * M) by nra.
      replace (M * M) with (M * M * (cos theta * cos theta)
                            + M * M * (sin theta * sin theta))
        by (transitivity (M * M * (sin theta * sin theta
                                   + cos theta * cos theta));
            [ring|rewrite Hsc; ring]).
      apply Rplus_le_compat; apply Rmult_le_compat_r; assumption. }
  assert (Hqp : distance q pos <= currentSize s * 2).
  { pose proof (distance_symmetric pos q) as Hs'. rewrite <- Hs'.
    exact Hnear. }
  destruct (el_points el); lra.
Qed.

(** ** Witnesses for the geometry *)

Lemma distance_metric_witness :
  distance ptB ptB = 0 /\ distance ptA ptD <= distance ptA ptB + distance ptB ptD.
Proof.
  destruct (distance_metric ptB ptB ptB) as (_ & _ & Hzero & _).
  destruct (distance_metric ptA ptB ptD) as (_ & _ & _ & Htri).
  split; [apply Hzero; split; reflexivity|exact Htri].
Defined.

Lemma distanceToSegment_nearest_point_witness :
  distanceToSegment ptA ptB ptD <= distance ptA (pointAlong ptB ptD (1/2)).
Proof.
  destruct (distanceToSegment_nearest_point ptA ptB ptD) as [_ Hleast].
  apply Hleast. lra.
Defined.

Lemma distanceToSegment_endpoints_witness :
  distanceToSegment ptA ptB ptB = distance ptA ptB.
Proof.
  destruct (distanceToSegment_endpoints ptA ptB ptB) as (_ & _ & _ & _ & Hdeg).
  apply Hdeg; reflexivity.
Defined.

Lemma eraser_hits_line_near_cursor_witness :
  erased initialState (mkPoint 5 3 None) sampleLine.
Proof.
  apply (eraser_hits_line_near_cursor initialState (mkPoint 5 3 None)
           sampleLine 0 0 10 0 (1/2)); try reflexivity; [lra|].
  unfold distance, pointAlong. cbn [pt_x pt_y].
  apply hypot_le_bound; lra.
Defined.

Lemma circle_outline_is_erasable_witness :
  erased initialState (mkPoint 4 1 None) sampleCircle.
Proof.
  destruct (circle_outline_is_erasable initialState (mkPoint 4 1 None)
              sampleCircle 0 0 4 2 0) as (_ & _ & _ & Hnear);
    try reflexivity.
  apply Hnear. rewrite cos_0, sin_0.
  unfold distance. cbn [pt_x pt_y currentSize initialState].
  rewrite !Rabs_right by lra.
  apply hypot_le_bound; lra.
Defined.

(** ** The constant-width branch *)

Lemma smoothLoop_facts (points : list Point) (n : nat) :
  forall i,
    (i + n < length points)%nat ->
    filter isStrokeOp (smoothLoop n i points) = []
    /\ moveTargets (smoothLoop n i points) = []
    /\ length (curveTargets (smoothLoop n i points)) = n
    /\ (forall w, ~ In (SetLineWidth w) (smoothLoop n i points)).
Proof.
  induction n as [|n IH]; intros i Hi.
  - cbn. repeat split. intros w [].
  - cbn [smoothLoop]. unfold smoothSegment.
    destruct (nth_error points i) as [p|] eqn:E1;
      [|apply nth_error_None in E1; lia].
    destruct (nth_error points (i + 1)) as [q|] eqn:E2;
      [|apply nth_error_None in E2; lia].
    destruct (IH (i + 1)%nat) as (IHs & IHm & IHq & IHw); [lia|].
    unfold moveTargets, curveTargets in *. cbn [app filter flat_map isStrokeOp].
    rewrite IHs, IHm. cbn [length app]. rewrite IHq.
    repeat split. intros w [H|Hin]; [discriminate H|apply (IHw w Hin)].
Qed.

(** X24. For two or more points of which the first has no pressure,
    renderStroke strokes a single path that starts at the first point, with
    n - 2 curves (none for two points, so nothing but the start is on the
    path), and the only line width it sets is the style's size. *)
Theorem constant_width_stroke (points : list Point) (style : StrokeStyle)
    (first : Point) (rest : list Point) :
  points = first :: rest ->
  pt_pressure first = None ->
  (2 <= length points)%nat ->
  length (filter isStrokeOp (renderStroke points style)) = 1%nat
  /\ moveTargets (renderStroke points style) = [coordinates first]
  /\ length (curveTargets (renderStroke points style))
     = (length points - 2)%nat
  /\ (forall w, In (SetLineWidth w) (renderStroke points style) ->
        w = st_size style)
  /\ (length points = 2%nat ->
      curveTargets (renderStroke points style) = []).
Proof.
  intros -> Hpr Hlen. unfold renderStroke.
  replace (length (first :: rest) <? 2)%nat with false
    by (symmetry; apply Nat.ltb_ge; exact Hlen).
  rewrite Hpr.
  set (n := length (first :: rest)) in *.
  assert (Hloop : (3 <= n)%nat ->
            filter isStrokeOp (smoothLoop (n - 3) 1 (first :: rest)) = []
            /\ moveTargets (smoothLoop (n - 3) 1 (first :: rest)) = []
            /\ length (curveTargets (smoothLoop (n - 3) 1 (first :: rest)))
               = (n - 3)%nat
            /\ (forall w, ~ In (SetLineWidth w)
                               (smoothLoop (n - 3) 1 (first :: rest)))).
  { intros H3. apply smoothLoop_facts. fold n. lia. }
  set (setup := match st_isHighlighter style with
                | Some true => _
                | _ => _
                end).
  assert (Hsetup : filter isStrokeOp setup = [] /\ moveTargets setup = []
                   /\ curveTargets setup = []
                   /\ forall w, ~ In (SetLineWidth w) setup).
  { unfold setup. destruct (st_isHighlighter style) as [[|]|]; cbn;
      repeat split; intros w Hin;
      repeat (destruct Hin as [H|Hin]; [discriminate H|]); destruct Hin. }
  destruct Hsetup as (Ss & Sm & Sq & Sw).
  destruct (Nat.ltb_spec 2 n) as [Hgt|Hle].
  - destruct Hloop as (Ls & Lm & Lq & Lw); [lia|].
    destruct (nth_error (first :: rest) (n - 2)) as [p|] eqn:Ep;
      [|apply nth_error_None in Ep; fold n in Ep; lia].
    destruct (nth_error (first :: rest) (n - 1)) as [q|] eqn:Eq;
      [|apply nth_error_None in Eq; fold n in Eq; lia].
    unfold moveTargets, curveTargets in *.
    rewrite !filter_app, !flat_map_app, !length_app, Ss, Sm, Sq, Ls, Lm.
    cbn [filter flat_map app length isStrokeOp]. rewrite ?length_app, Lq.
    cbn [length]. split; [reflexivity|]. split; [reflexivity|].
    split; [lia|]. split; [|lia].
    intros w Hin. pose proof (Sw w) as Sw'. pose proof (Lw w) as Lw'.
    repeat (cbn [In] in Hin; rewrite ?in_app_iff in Hin).
    intuition (try discriminate; try congruence).
  - assert (Hn : n = 2%nat) by lia. rewrite Hn. cbn [Nat.sub smoothLoop].
    unfold moveTargets, curveTargets in *.
    rewrite !filter_app, !flat_map_app, !length_app, Ss, Sm, Sq.
    cbn [filter flat_map app length isStrokeOp].
    split; [reflexivity|]. split; [reflexivity|].
    split; [reflexivity|]. split; [|reflexivity].
    intros w Hin. pose proof (Sw w) as Sw'.
    repeat (cbn [In] in Hin; rewrite ?in_app_iff in Hin).
    intuition (try discriminate; try congruence).
Qed.

Lemma constant_width_stroke_witness :
  curveTargets (renderStroke [ptB; ptC] sampleStyle) = [].
Proof.
  destruct (constant_width_stroke [ptB; ptC] sampleStyle ptB [ptC]
              eq_refl eq_refl) as (_ & _ & _ & _ & Htwo); [cbn; lia|].
  apply Htwo. reflexivity.
Defined.
